(** * CRM backend (Express / Sequelize): a shallow embedding and its properties

    The development follows the layout of [crm-backend]:
    - [Json], [Http]: JSON values and the response envelope;
    - [Double], [JS]: IEEE-754 rounding and the numbers of JavaScript,
      [Number], [parseInt], [Math.ceil];
    - [User], [Customer], [Lead], [Task], [Interaction]: the model files;
    - [Engine], [Sequelize], [Models]: the SQL engine, tables, associations
      and their referential actions, [findByPk], [destroy];
    - [Express], [Auth], [Joi], [Validation]: requests, middleware stacks,
      token validation, the role gate and the request schemas;
    - [UserModel], [LeadModel]: model validation and writes;
    - [AuthRoutes], [Users], [Leads], [Customers], [Reports], [Routes]: the
      routers;
    - [ListQuery], [Pagination], [Num]: the arithmetic of the list endpoints
      and of the reports;
    - [LeadMethods], [TaskMethods], [CustomerMethods], [InteractionMethods]:
      the instance methods of the models; [ErrorHandler]: the global error
      handler; [LeadRoutes]: reading and deleting a lead; [Integrity]: the
      references between the tables.

    What the repository imports stays abstract: token signing and
    verification, password hashing, the e-mail and date predicates are type
    classes, and so is what the SQL engine makes of the queries on which
    SQLite and PostgreSQL differ or which neither accepts; every definition
    is parametric in them.  The arithmetic of the routes is that of
    JavaScript: a finite number is the rational value of a double, and every
    operation rounds as IEEE-754 does.  Sums of money, which the engine
    computes, are exact.  Queries the engines agree on are read by their
    meaning on the tables. *)

From Stdlib Require Import ZArith QArith Qround Qabs Qcanon Qpower Lqa Ascii String.
From stdpp Require Import base option list strings pretty sorting gmap fin_maps.

Set Warnings "-register-all".
Local Open Scope Z_scope.

(** ** JSON values and the response envelope *)

Module Json.

Inductive JValue : Type :=
| JNull
| JBool (b : bool)
| JNum (q : Q)
| JStr (s : string)
| JArr (items : list JValue)
| JObj (fields : list (string * JValue)).

(** [obj[key]] on a plain object; [None] is [undefined]. *)
Fixpoint jget (key : string) (fields : list (string * JValue)) : option JValue :=
  match fields with
  | [] => None
  | (k, v) :: rest => if String.eqb k key then Some v else jget key rest
  end.

(** [delete obj[key]]. *)
Fixpoint jdelete (key : string) (fields : list (string * JValue))
  : list (string * JValue) :=
  match fields with
  | [] => []
  | (k, v) :: rest =>
      if String.eqb k key then jdelete key rest else (k, v) :: jdelete key rest
  end.

Definition jint (z : Z) : JValue := JNum (inject_Z z).

Definition jopt {A} (f : A → JValue) (o : option A) : JValue :=
  match o with Some a => f a | None => JNull end.

End Json.

Import Json.

Module Http.

(** The body every route sends: [{ success, data, message }] on success,
    [{ success, error, code }] on failure. *)
Record Response := mkResponse {
  status : Z;
  success : bool;
  data : option JValue;
  message : option string;
  error : option string;
  code : option string
}.

Definition successResponse (d : JValue) (msg : string) (st : Z) : Response :=
  mkResponse st true (Some d) (Some msg) None None.

Definition errorResponse (err : string) (c : string) (st : Z) : Response :=
  mkResponse st false None None (Some err) (Some c).

End Http.

Import Http.

(** ** Pagination of the list endpoints, on integers

    Every list route reads [page] and [limit] from the query string, computes
    [offset = (page - 1) * limit], asks [findAndCountAll] for [limit] rows
    from [offset] on and reports [pages = Math.ceil(count / limit)].  This
    module is the arithmetic for a page and a limit that are written as
    decimal literals of integers; [ListQuery] below is the body on the
    query string as it comes, and agrees with it there
    ([list_route_refines]). *)

Module Pagination.

(** [pages] is [None] when [Math.ceil(count / limit)] is not a finite
    number ([limit = 0]). *)
Record Pagination := mkPagination {
  page : Z;
  limit : Z;
  total : Z;
  pages : option Z
}.

(** [Math.ceil(a / b)] for integers with [b ≠ 0]. *)
Definition ceil_div (a b : Z) : Z := - ((- a) / b).

Section FindAndCountAll.
Context {A : Type}.

Record Found := mkFound { count : Z; rows : list A }.

(** [Model.findAndCountAll({ where, limit, offset, order })]: [matching]
    is the list of rows selected by [where], in the order fixed by
    [order].  A negative [LIMIT] or [OFFSET] is refused by the engine. *)
Definition findAndCountAll (matching : list A) (lim off : Z) : option Found :=
  if (lim <? 0) || (off <? 0) then None
  else Some (mkFound (Z.of_nat (length matching))
                     (take (Z.to_nat lim) (drop (Z.to_nat off) matching))).

(** The body shared by [GET /api/customers], [/api/leads], [/api/tasks],
    [/api/interactions], [/api/users] and
    [/api/customers/:id/interactions]. *)
Definition list_route (matching : list A) (pg lim : Z)
  : option (list A * Pagination) :=
  let offset := (pg - 1) * lim in
  match findAndCountAll matching lim offset with
  | None => None
  | Some found =>
      let totalPages :=
        if lim =? 0 then None else Some (ceil_div (count found) lim) in
      Some (rows found, mkPagination pg lim (count found) totalPages)
  end.

End FindAndCountAll.

Arguments Found : clear implicits.

End Pagination.

(** ** IEEE-754 doubles

    A finite double is the rational it stands for.  [round] is the rounding
    every arithmetic operation of JavaScript ends with: to the nearest
    double, a tie going to the even significand, with 53 significant bits
    above [2^-1022] and the fixed step [2^-1074] below.  A result of
    magnitude [2^1024] or more stands for an overflow. *)

Module Double.
Local Open Scope Q_scope.

(** [⌊log2 x⌋] for [0 < x]. *)
Definition ilog2 (x : Q) : Z :=
  let k := (Z.log2 (Qnum x) - Z.log2 (Zpos (Qden x)))%Z in
  if Qle_bool (2 ^ k) x then k else (k - 1)%Z.

(** The integer nearest to [y], a tie going to the even one. *)
Definition nearest_even (y : Q) : Z :=
  let f := Qfloor y in
  match Qcompare (y - inject_Z f) (1 # 2) with
  | Lt => f
  | Gt => (f + 1)%Z
  | Eq => if Z.even f then f else (f + 1)%Z
  end.

(** For [0 < x]: 53 significant bits, and no bit below [2^-1074]. *)
Definition round_pos (x : Q) : Q :=
  let e := Z.max (ilog2 x - 52) (-1074) in
  inject_Z (nearest_even (x / 2 ^ e)) * 2 ^ e.

(** The double nearest to [x], in lowest terms. *)
Definition round (x : Q) : Q :=
  let x := Qred x in
  match Qcompare 0 x with
  | Lt => Qred (round_pos x)
  | Gt => Qred (- round_pos (- x))
  | Eq => 0
  end.

(** [a / b] and [a * b] on finite doubles, for a result in range. *)
Definition div (a b : Q) : Q := round (a / b).
Definition mul (a b : Q) : Q := round (a * b).

(** Half a unit in the last place: relative to a double of the normal
    range, and absolute below it. *)
Definition u : Q := 1 # 2 ^ 53.
Definition eta : Q := 2 ^ (-1075).

End Double.

(** ** JavaScript helpers *)

Module JS.

(** White space skipped by [parseInt] (the ASCII part of [StrWhiteSpaceChar]). *)
Definition is_whitespace (c : ascii) : bool :=
  let n := nat_of_ascii c in
  (n =? 32)%nat || (n =? 9)%nat || (n =? 10)%nat || (n =? 11)%nat
  || (n =? 12)%nat || (n =? 13)%nat.

Fixpoint trim_start (s : string) : string :=
  match s with
  | String c rest => if is_whitespace c then trim_start rest else s
  | EmptyString => s
  end.

(** Value of a character as a digit in the given radix. *)
Definition digit_of (radix : Z) (c : ascii) : option Z :=
  let n := Z.of_nat (nat_of_ascii c) in
  let v := if (48 <=? n) && (n <=? 57) then Some (n - 48)
           else if (97 <=? n) && (n <=? 122) then Some (n - 87)
           else if (65 <=? n) && (n <=? 90) then Some (n - 55)
           else None in
  match v with
  | Some d => if d <? radix then Some d else None
  | None => None
  end.

(** Longest prefix of digits; [acc = None] while no digit has been read. *)
Fixpoint parse_digits (radix : Z) (s : string) (acc : option Z) : option Z :=
  match s with
  | String c rest =>
      match digit_of radix c with
      | Some d => parse_digits radix rest (Some (radix * default 0 acc + d))
      | None => acc
      end
  | EmptyString => acc
  end.

(** [parseInt(s)] without a radix argument; [None] is [NaN]. *)
Definition parseInt (s : string) : option Z :=
  let s := trim_start s in
  let '(sign, s) :=
    match s with
    | String "-" rest => (-1, rest)
    | String "+" rest => (1, rest)
    | _ => (1, s)
    end in
  let '(radix, s) :=
    match s with
    | String "0" (String "x" rest) => (16, rest)
    | String "0" (String "X" rest) => (16, rest)
    | _ => (10, s)
    end in
  match parse_digits radix s None with
  | Some v => Some (sign * v)
  | None => None
  end.

(** [str.split(' ')]. *)
Fixpoint split_space_go (s : string) (cur : string) : list string :=
  match s with
  | EmptyString => [String.rev cur]
  | String c rest =>
      if Ascii.eqb c " " then String.rev cur :: split_space_go rest EmptyString
      else split_space_go rest (String c cur)
  end.

Definition split_space (s : string) : list string := split_space_go s EmptyString.

(** [Array.prototype.includes]. *)
Definition includes `{EqDecision A} (l : list A) (x : A) : bool :=
  bool_decide (x ∈ l).

(** *** Numbers

    A number is [NaN], an infinity or a finite double, given by its value.
    The sign of a zero is not kept: [-0] prints as [0], and the one thing
    it changes here is the sign of the infinity a division by it gives. *)
Inductive number :=
| NaN
| Infinity (negative : bool)
| Finite (q : Q).

Definition is_zero (q : Q) : bool := Qeq_bool q 0.

Definition is_negative (q : Q) : bool := negb (Qle_bool 0 q).

(** The number a real is rounded to: an infinity from [2^1024] on. *)
Definition of_Q (x : Q) : number :=
  let r := Double.round x in
  if Qle_bool (2 ^ 1024) (Qabs r) then Infinity (is_negative r) else Finite r.

(** [a - b] *)
Definition minus (a b : number) : number :=
  match a, b with
  | NaN, _ | _, NaN => NaN
  | Infinity s, Infinity t => if Bool.eqb s t then NaN else Infinity s
  | Infinity s, Finite _ => Infinity s
  | Finite _, Infinity t => Infinity (negb t)
  | Finite x, Finite y => of_Q (x - y)
  end.

(** [a * b] *)
Definition times (a b : number) : number :=
  match a, b with
  | NaN, _ | _, NaN => NaN
  | Infinity s, Infinity t => Infinity (xorb s t)
  | Infinity s, Finite y | Finite y, Infinity s =>
      if is_zero y then NaN else Infinity (xorb s (is_negative y))
  | Finite x, Finite y => of_Q (x * y)
  end.

(** [a / b] *)
Definition divide (a b : number) : number :=
  match a, b with
  | NaN, _ | _, NaN => NaN
  | Infinity _, Infinity _ => NaN
  | Infinity s, Finite y => Infinity (xorb s (is_negative y))
  | Finite _, Infinity _ => Finite 0
  | Finite x, Finite y =>
      if is_zero y then (if is_zero x then NaN else Infinity (is_negative x))
      else of_Q (x / y)
  end.

(** [Math.ceil] *)
Definition ceil (a : number) : number :=
  match a with
  | Finite x => Finite (inject_Z (Qceiling x))
  | _ => a
  end.

(** The digits of a radix at the head of [s], dropped. *)
Fixpoint skip_digits (radix : Z) (s : string) : string :=
  match s with
  | String c rest =>
      match digit_of radix c with
      | Some _ => skip_digits radix rest
      | None => s
      end
  | EmptyString => s
  end.

(** Nothing but white space is left. *)
Definition at_end (s : string) : bool :=
  match trim_start s with EmptyString => true | _ => false end.

(** [10^e] *)
Definition pow10 (e : Z) : Q := (10 ^ e)%Q.

(** [StrUnsignedDecimalLiteral] other than [Infinity], up to the end of the
    string: digits, a fraction, an exponent; its value. *)
Definition decimal_literal (s : string) : option Q :=
  let int_part := parse_digits 10 s None in
  let s1 := skip_digits 10 s in
  let '(frac_part, frac_len, s2) :=
    match s1 with
    | String "." f =>
        (parse_digits 10 f None,
         Z.of_nat (String.length f - String.length (skip_digits 10 f)),
         skip_digits 10 f)
    | _ => (None, 0, s1)
    end in
  match int_part, frac_part with
  | None, None => None
  | _, _ =>
      let mantissa := default 0 int_part * 10 ^ frac_len + default 0 frac_part in
      let exponent :=
        match s2 with
        | String "e" e | String "E" e =>
            let '(sign, digits) :=
              match e with
              | String "-" rest => (-1, rest)
              | String "+" rest => (1, rest)
              | _ => (1, e)
              end in
            match parse_digits 10 digits None with
            | Some x => if at_end (skip_digits 10 digits) then Some (sign * x) else None
            | None => None
            end
        | _ => if at_end s2 then Some 0 else None
        end in
      match exponent with
      | Some x => Some (inject_Z mantissa * pow10 (x - frac_len))%Q
      | None => None
      end
  end.

(** [0x], [0o] and [0b] literals, up to the end of the string. *)
Definition radix_literal (radix : Z) (s : string) : number :=
  match parse_digits radix s None with
  | Some v => if at_end (skip_digits radix s) then of_Q (inject_Z v) else NaN
  | None => NaN
  end.

Definition unsigned_literal (negative : bool) (s : string) : number :=
  if String.prefix "Infinity" s
  then (if at_end (String.substring 8 (String.length s - 8) s)
        then Infinity negative else NaN)
  else match decimal_literal s with
       | Some v => of_Q (if negative then - v else v)%Q
       | None => NaN
       end.

(** [Number(s)] for a string: [StringToNumber]. *)
Definition Number (s : string) : number :=
  match trim_start s with
  | EmptyString => Finite 0
  | String "0" (String "x" rest) | String "0" (String "X" rest) => radix_literal 16 rest
  | String "0" (String "o" rest) | String "0" (String "O" rest) => radix_literal 8 rest
  | String "0" (String "b" rest) | String "0" (String "B" rest) => radix_literal 2 rest
  | String "-" rest => unsigned_literal true rest
  | String "+" rest => unsigned_literal false rest
  | s => unsigned_literal false s
  end.

(** [⌊log10 x⌋] for [0 < x]. *)
Definition ilog10 (x : Q) : Z :=
  let g := (Double.ilog2 x * 30103 / 100000)%Z in
  if Qle_bool (pow10 (g + 1)) x then (g + 1)%Z
  else if Qle_bool (pow10 g) x then g
  else (g - 1)%Z.

(** The decimal [v] reads back as the double [x]. *)
Definition reads_back (x : Q) (v : Q) : bool := Qeq_bool (Double.round v) x.

(** The first of the digits [Number::toString] prints for a double
    [0 < x]: those of the shortest decimal [s × 10^(n-k)], [s] of [k]
    digits, that reads back as [x], and of two such the one nearer to
    [x]. *)
Fixpoint leading_digit_from (x : Q) (n : Z) (k : nat) (fuel : nat) : Z :=
  let scale := pow10 (n - Z.of_nat k) in
  let lo := Qfloor (x / scale) in
  let hi := (lo + 1)%Z in
  let first (s : Z) : Z :=
    if (10 ^ Z.of_nat k <=? s)%Z then 1 else (s / 10 ^ (Z.of_nat k - 1))%Z in
  let ok_lo := reads_back x (inject_Z lo * scale) && (10 ^ (Z.of_nat k - 1) <=? lo)%Z in
  let ok_hi := reads_back x (inject_Z hi * scale) in
  let nearer_lo :=
    match Qcompare (x / scale - inject_Z lo) (1 # 2) with
    | Lt => true
    | Gt => false
    | Eq => Z.even lo
    end in
  match fuel with
  | O => first (if nearer_lo then lo else hi)
  | S fuel' =>
      if ok_lo && ok_hi then first (if nearer_lo then lo else hi)
      else if ok_lo then first lo
      else if ok_hi then first hi
      else leading_digit_from x n (S k) fuel'
  end.

Definition leading_digit (x : Q) : Z :=
  leading_digit_from x (ilog10 x + 1) 1 16.

(** [parseInt(x)] for a number: [parseInt(String(x))].  From [1e-6] up to
    [1e21] the string is in decimal notation and its integer part is read;
    beyond, it is in exponent notation and its first digit is read. *)
Definition parseInt_number (a : number) : option Z :=
  match a with
  | NaN | Infinity _ => None
  | Finite x =>
      let m := Qabs x in
      if is_zero x then Some 0
      else if Qle_bool (Double.round (1 # 1000000)) m && negb (Qle_bool (pow10 21) m)
      then Some (if is_negative x then Qceiling x else Qfloor x)
      else Some (if is_negative x then - leading_digit m else leading_digit m)
  end.

End JS.

(** ** Models ([crm-backend/models]) *)

Module User.

(** [DataTypes.ENUM('admin', 'user')]. *)
Inductive Role := admin | user.

#[global] Instance Role_eq_dec : EqDecision Role.
Proof. solve_decision. Defined.

Definition role_name (r : Role) : string :=
  match r with admin => "admin" | user => "user" end.

Definition role_of_name (s : string) : option Role :=
  if String.eqb s "admin" then Some admin
  else if String.eqb s "user" then Some user
  else None.

(** A row of table [users]; the primary key is the key of the table. *)
Record t := mk {
  name : string;
  email : string;
  password : string;
  role : Role;
  createdAt : Z;
  updatedAt : Z
}.

(** [this.get()]: the plain object of all attributes of an instance. *)
Definition get (id : Z) (u : t) : list (string * JValue) :=
  [ ("id", jint id);
    ("name", JStr (name u));
    ("email", JStr (email u));
    ("password", JStr (password u));
    ("role", JStr (role_name (role u)));
    ("createdAt", jint (createdAt u));
    ("updatedAt", jint (updatedAt u)) ]%string.

(** An instance loaded with [attributes: { exclude }]. *)
Definition get_excluding (exclude : list string) (id : Z) (u : t)
  : list (string * JValue) :=
  foldr jdelete (get id u) exclude.

(** [User.prototype.toJSON]:
    [const values = Object.assign({}, this.get()); delete values.password]. *)
Definition toJSON (values : list (string * JValue)) : list (string * JValue) :=
  jdelete "password" values.

End User.

Module Customer.

Record t := mk {
  name : string;
  email : option string;
  phone : option string;
  company : option string;
  tags : list string;
  notes : option string;
  createdAt : Z;
  updatedAt : Z
}.

End Customer.

Module Lead.

(** [DataTypes.ENUM('lead', 'qualified', 'proposal', 'closed')]. *)
Inductive Stage := lead | qualified | proposal | closed.

#[global] Instance Stage_eq_dec : EqDecision Stage.
Proof. solve_decision. Defined.

Definition stages : list Stage := [lead; qualified; proposal; closed].

Definition stage_name (s : Stage) : string :=
  match s with
  | lead => "lead" | qualified => "qualified"
  | proposal => "proposal" | closed => "closed"
  end.

Definition stage_of_name (s : string) : option Stage :=
  if String.eqb s "lead" then Some lead
  else if String.eqb s "qualified" then Some qualified
  else if String.eqb s "proposal" then Some proposal
  else if String.eqb s "closed" then Some closed
  else None.

(** A row of table [leads].  [customer_id] is declared [allowNull: false],
    [assigned_to] is nullable. *)
Record t := mk {
  title : string;
  description : option string;
  stage : Stage;
  value : option Q;
  customer_id : Z;
  assigned_to : option Z;
  createdAt : Z;
  updatedAt : Z
}.

Definition get (id : Z) (l : t) : list (string * JValue) :=
  [ ("id", jint id);
    ("title", JStr (title l));
    ("description", jopt JStr (description l));
    ("stage", JStr (stage_name (stage l)));
    ("value", jopt JNum (value l));
    ("customer_id", jint (customer_id l));
    ("assigned_to", jopt jint (assigned_to l));
    ("createdAt", jint (createdAt l));
    ("updatedAt", jint (updatedAt l)) ]%string.

Definition isClosed (l : t) : bool := bool_decide (stage l = closed).

End Lead.

Module Task.

Inductive Status := pending | in_progress | completed.
Inductive Priority := low | medium | high.

#[global] Instance Status_eq_dec : EqDecision Status.
Proof. solve_decision. Defined.

(** A row of table [tasks].  Both references are declared
    [allowNull: true]. *)
Record t := mk {
  title : string;
  description : option string;
  status : Status;
  priority : Priority;
  dueDate : option Z;
  assignedTo : option Z;
  customerId : option Z;
  createdAt : Z;
  updatedAt : Z
}.

End Task.

Module Interaction.

Inductive Kind := call | email | meeting | note.

(** A row of table [interactions]; [customer_id] is [allowNull: false]. *)
Record t := mk {
  customer_id : Z;
  type : Kind;
  notes : option string;
  date : Z;
  created_by : option Z;
  createdAt : Z;
  updatedAt : Z
}.

End Interaction.

(** ** Third-party libraries

    The cryptography of [jsonwebtoken] and [bcryptjs], the string predicates
    of [joi] and [validator] are not part of the repository: they are
    interfaces here, and every definition below is parametric in them. *)

Module Jwt.

(** The claims the application signs: [{ userId, role }]; a foreign but
    well-signed token may lack either. *)
Record Payload := mkPayload { userId : option Z; role : option string }.

(** The [name] of what [jwt.verify] throws. *)
Inductive VerifyError := TokenExpiredError | JsonWebTokenError | NotBeforeError.

Class Lib := {
  (** [jwt.sign(payload, secret, { expiresIn })] at time [now]. *)
  sign : Payload → string → string → Z → string;
  (** [jwt.verify(token, secret)] at time [now]. *)
  verify : string → string → Z → VerifyError + Payload
}.

End Jwt.

Module Bcrypt.

Class Lib := {
  hash : string → Z → string;
  compare : string → string → bool
}.

End Bcrypt.

Module Validator.

(** [validator.js], used by the [isEmail] model validation. *)
Class Lib := { isEmail : string → bool }.

End Validator.

(** ** The SQL engine

    [models/index.js] connects to SQLite, the default, or to PostgreSQL.
    The two read some queries differently, and some queries of the routes
    are written for neither.  What an engine makes of these stays abstract:
    every route is parametric in it. *)

Module Engine.

Class Lib := {
  (** [WHERE id = <text>] on an integer key, for a text that is not the
      decimal literal of an integer: the key the text is read as, no key
      ([inr None], no row is found), or the message of the error raised.
      SQLite reads ["0.1e1"] as the key 1 and ["02"] as the key 2;
      PostgreSQL reads ["02"] as 2, from version 16 on ["0b1"] as 1, and
      raises an error for a text it cannot read as an integer. *)
  key_of_text : string → string + option Z;
  (** [LIMIT] and [OFFSET] when one of them is negative or [NaN] ([None]):
      the message of the error raised, or the number of rows kept at most
      ([None]: no bound) and the number of rows skipped. *)
  odd_window : option Z → option Z → string + (option nat * nat);
  (** [COUNT(CASE WHEN "createdAt" >= date('now', '-30 days') THEN 1 END)]
      on the customers, at a time: the count, or the message of the error
      raised.  The column is [created_at]: SQLite reads the quoted name it
      does not find as a string, which compares greater than every date,
      and counts every customer; PostgreSQL has neither the column nor the
      function. *)
  newThisMonth : list Customer.t → Z → string + Z;
  (** The message of the error the grouped query of
      [GET /api/reports/conversion] raises, for a period and the days of
      its window.  The query is [DATE_TRUNC(period, "createdAt")] over
      [created_at >= CURRENT_DATE - INTERVAL '<n> days']: SQLite has neither
      [DATE_TRUNC] nor [INTERVAL], and on PostgreSQL the column
      ["createdAt"] does not exist. *)
  conversion_error : string → Z → string
}.

End Engine.

(** ** The list endpoints on the query string

    [const { page = 1, limit = 10 } = req.query]: a member of the query
    string, given once, is a string, and its default is a number.  The body
    the list routes share computes [offset = (page - 1) * limit] and
    [Math.ceil(count / limit)] on the members as they are, which converts
    them with [Number], and hands [parseInt(limit)] and [parseInt(offset)]
    to [findAndCountAll]. *)

Module ListQuery.

(** A member of the query string as an operand of [-], [*] and [/]. *)
Definition to_number (v : option string) (dflt : Z) : JS.number :=
  match v with
  | Some s => JS.Number s
  | None => JS.Finite (inject_Z dflt)
  end.

(** [parseInt] of a member of the query string; [None] is [NaN]. *)
Definition to_integer (v : option string) (dflt : Z) : option Z :=
  match v with
  | Some s => JS.parseInt s
  | None => Some dflt
  end.

(** The [pagination] member of the answer. *)
Record Block := mkBlock {
  page : option Z;
  limit : option Z;
  total : Z;
  pages : JS.number
}.

(** [JSON.stringify] prints [NaN] and the infinities as [null]. *)
Definition number_json (a : JS.number) : JValue :=
  match a with
  | JS.Finite q => JNum q
  | _ => JNull
  end.

Definition block_json (b : Block) : JValue :=
  JObj [("page", jopt jint (page b));
        ("limit", jopt jint (limit b));
        ("total", jint (total b));
        ("pages", number_json (pages b))]%string.

Section WithEngine.
Context `{Engine.Lib} {A : Type}.

(** [Model.findAndCountAll({ where, limit, offset, order })]: [matching]
    is the list of rows selected by [where], in the order fixed by
    [order]; the count is that of all of them.  What a [LIMIT] or [OFFSET]
    that is negative or [NaN] does is the engine's. *)
Definition findAndCountAll (matching : list A) (lim off : option Z)
  : string + Pagination.Found A :=
  let count := Z.of_nat (length matching) in
  let odd :=
    match Engine.odd_window lim off with
    | inl msg => inl msg
    | inr (bound, skip) =>
        inr (Pagination.mkFound count
               (match bound with
                | Some n => take n (drop skip matching)
                | None => drop skip matching
                end))
    end in
  match lim, off with
  | Some l, Some o =>
      if (0 <=? l) && (0 <=? o)
      then inr (Pagination.mkFound count
                  (take (Z.to_nat l) (drop (Z.to_nat o) matching)))
      else odd
  | _, _ => odd
  end.

(** The body shared by [GET /api/customers], [/api/leads], [/api/tasks],
    [/api/interactions], [/api/users] and
    [/api/customers/:id/interactions]; [inl] is the message of the error
    the [catch] reports. *)
Definition list_route (matching : list A) (page limit : option string)
  : string + (list A * Block) :=
  let offset :=
    JS.times (JS.minus (to_number page 1) (JS.Finite 1)) (to_number limit 10) in
  match findAndCountAll matching (to_integer limit 10) (JS.parseInt_number offset) with
  | inl msg => inl msg
  | inr found =>
      inr (Pagination.rows found,
           mkBlock (to_integer page 1) (to_integer limit 10)
             (Pagination.count found)
             (JS.ceil (JS.divide (JS.Finite (inject_Z (Pagination.count found)))
                                 (to_number limit 10))))
  end.


End WithEngine.

End ListQuery.

(** ** The database and the ORM ([models/index.js], Sequelize) *)

Module Sequelize.

Inductive ReferentialAction := CASCADE | SET_NULL | NO_ACTION.

(** A foreign-key column of a child table, as the model file and the
    association declare it. *)
Record ForeignKey (Row : Type) := mkForeignKey {
  (** value of the referencing column *)
  fk_ref : Row → option Z;
  (** writing [NULL] into the column; [None] when it is [allowNull: false] *)
  fk_set_null : option (Row → Row);
  (** the [onDelete] option passed to [hasMany] *)
  fk_onDelete : option ReferentialAction
}.
Arguments fk_ref {Row}.
Arguments fk_set_null {Row}.
Arguments fk_onDelete {Row}.

Definition allowNull {Row} (fk : ForeignKey Row) : bool :=
  bool_decide (is_Some (fk_set_null fk)).

(** [HasMany]: [onDelete = options.onDelete ||
    (target.allowNull ? 'SET NULL' : 'CASCADE')]. *)
Definition hasMany_onDelete {Row} (fk : ForeignKey Row) : ReferentialAction :=
  match fk_onDelete fk with
  | Some a => a
  | None => if allowNull fk then SET_NULL else CASCADE
  end.

Definition references {Row} (fk : ForeignKey Row) (parent : Z) (r : Row) : Prop :=
  fk_ref fk r = Some parent.

#[global] Instance references_dec {Row} (fk : ForeignKey Row) parent r :
  Decision (references fk parent r).
Proof. unfold references. apply _. Defined.

(** What the engine does to a child table when the parent row [parent] is
    deleted; [None] when the constraint refuses the delete. *)
Definition on_parent_delete {Row} (fk : ForeignKey Row) (parent : Z)
    (tbl : gmap Z Row) : option (gmap Z Row) :=
  let referencing := filter (λ kv, references fk parent kv.2) tbl in
  match hasMany_onDelete fk with
  | CASCADE => Some (filter (λ kv, ¬ references fk parent kv.2) tbl)
  | SET_NULL =>
      match fk_set_null fk with
      | Some clear =>
          Some ((λ r, if decide (references fk parent r) then clear r else r)
                  <$> tbl)
      | None => if (size referencing =? 0)%nat then Some tbl else None
      end
  | NO_ACTION => if (size referencing =? 0)%nat then Some tbl else None
  end.

Section WithEngine.
Context `{Engine.Lib}.

(** The integer a route parameter denotes as a primary key.  The decimal
    literal of an integer denotes that integer; what any other text
    denotes is the engine's. *)
Definition pk_of_param (s : string) : string + option Z :=
  match JS.parseInt s with
  | Some z => if String.eqb (pretty z) s then inr (Some z) else Engine.key_of_text s
  | None => Engine.key_of_text s
  end.

(** [Model.findByPk(param)]: the row, [inr None] when there is none, or
    the message of the error the query raised. *)
Definition findByPk {Row} (param : string) (tbl : gmap Z Row)
  : string + option (Z * Row) :=
  match pk_of_param param with
  | inl msg => inl msg
  | inr (Some z) => inr (match tbl !! z with Some r => Some (z, r) | None => None end)
  | inr None => inr None
  end.

End WithEngine.

(** What a failing query throws; the routes report its [message]. *)
Inductive Error :=
| ValidationError (msg : string)
| UniqueConstraintError
| ForeignKeyConstraintError.

Definition error_message (e : Error) : string :=
  match e with
  | ValidationError msg => msg
  | UniqueConstraintError => "Validation error"
  | ForeignKeyConstraintError => "FOREIGN KEY constraint failed"
  end.

End Sequelize.

Module Models.
Import Sequelize.

Record DB := mkDB {
  users : gmap Z User.t;
  customers : gmap Z Customer.t;
  leads : gmap Z Lead.t;
  tasks : gmap Z Task.t;
  interactions : gmap Z Interaction.t;
  (** next value of the [autoIncrement] key of [users] and of [leads] *)
  users_seq : Z;
  leads_seq : Z
}.

(** *** Associations

    [Customer.hasMany(Lead, { foreignKey: 'customer_id' })] and its
    siblings: none passes [onDelete]; nullability comes from the model
    files.  [Lead.customer_id] and [Interaction.customer_id] are
    [allowNull: false]; [Task] declares column [customer_id] through the
    attribute [customerId], [allowNull: true]. *)

Definition Lead_customer : ForeignKey Lead.t :=
  mkForeignKey _ (λ l, Some (Lead.customer_id l)) None None.

Definition Task_customer : ForeignKey Task.t :=
  mkForeignKey _ Task.customerId
    (Some (λ t, Task.mk (Task.title t) (Task.description t) (Task.status t)
                  (Task.priority t) (Task.dueDate t) (Task.assignedTo t) None
                  (Task.createdAt t) (Task.updatedAt t)))
    None.

Definition Interaction_customer : ForeignKey Interaction.t :=
  mkForeignKey _ (λ i, Some (Interaction.customer_id i)) None None.

Definition Lead_assignedUser : ForeignKey Lead.t :=
  mkForeignKey _ Lead.assigned_to
    (Some (λ l, Lead.mk (Lead.title l) (Lead.description l) (Lead.stage l)
                  (Lead.value l) (Lead.customer_id l) None
                  (Lead.createdAt l) (Lead.updatedAt l)))
    None.

Definition Task_assignedUser : ForeignKey Task.t :=
  mkForeignKey _ Task.assignedTo
    (Some (λ t, Task.mk (Task.title t) (Task.description t) (Task.status t)
                  (Task.priority t) (Task.dueDate t) None (Task.customerId t)
                  (Task.createdAt t) (Task.updatedAt t)))
    None.

Definition Interaction_createdByUser : ForeignKey Interaction.t :=
  mkForeignKey _ Interaction.created_by
    (Some (λ i, Interaction.mk (Interaction.customer_id i) (Interaction.type i)
                  (Interaction.notes i) (Interaction.date i) None
                  (Interaction.createdAt i) (Interaction.updatedAt i)))
    None.

(** [customer.destroy()]: the row goes, and each child table follows its
    referential action. *)
Definition Customer_destroy (id : Z) (db : DB) : Error + DB :=
  match on_parent_delete Lead_customer id (leads db),
        on_parent_delete Task_customer id (tasks db),
        on_parent_delete Interaction_customer id (interactions db) with
  | Some ls, Some ts, Some ias =>
      inr (mkDB (users db) (delete id (customers db)) ls ts ias
                (users_seq db) (leads_seq db))
  | _, _, _ => inl ForeignKeyConstraintError
  end.

(** [user.destroy()]. *)
Definition User_destroy (id : Z) (db : DB) : Error + DB :=
  match on_parent_delete Lead_assignedUser id (leads db),
        on_parent_delete Task_assignedUser id (tasks db),
        on_parent_delete Interaction_createdByUser id (interactions db) with
  | Some ls, Some ts, Some ias =>
      inr (mkDB (delete id (users db)) (customers db) ls ts ias
                (users_seq db) (leads_seq db))
  | _, _, _ => inl ForeignKeyConstraintError
  end.

End Models.

(** ** Express requests and middleware *)

Module Express.

Record Request := mkRequest {
  (** [req.headers['authorization']] *)
  authorization : option string;
  (** [req.params.id] *)
  params_id : string;
  (** [req.query.page] and [req.query.limit] when they are decimal literals
      of integers; [ListQuery] takes the strings themselves *)
  query_page : option Z;
  query_limit : option Z;
  (** [req.body], as [express.json()] parsed it *)
  body : JValue;
  (** [req.user]: the instance [authenticateToken] attached *)
  user : option (Z * User.t)
}.

Definition set_user (req : Request) (u : Z * User.t) : Request :=
  mkRequest (authorization req) (params_id req) (query_page req)
    (query_limit req) (body req) (Some u).

(** A middleware either answers ([inl]) or calls [next()] ([inr]); the
    integer is the clock. *)
Definition Middleware := Request → Models.DB → Z → Response + Request.

Definition Handler := Request → Models.DB → Z → Models.DB * Response.

(** [router.use(m1); ...; router.verb(path, mk, ..., handler)]. *)
Fixpoint route (stack : list Middleware) (h : Handler) : Handler :=
  λ req db now,
    match stack with
    | [] => h req db now
    | m :: rest =>
        match m req db now with
        | inl res => (db, res)
        | inr req' => route rest h req' db now
        end
    end.

(** The middleware part of a route alone: the answer of the first
    middleware that answers, or the request handed to the handler. *)
Fixpoint through (stack : list Middleware) (req : Request) (db : Models.DB)
    (now : Z) : Response + Request :=
  match stack with
  | [] => inr req
  | m :: rest =>
      match m req db now with
      | inl res => inl res
      | inr req' => through rest req' db now
      end
  end.

End Express.

Import Express.

(** ** [middleware/auth.js] *)

Module Auth.

Definition secret : string := "your-super-secret-jwt-key-here".

Definition unauthenticated (msg : string) : Response :=
  mkResponse 401 false None None (Some msg) (Some "AUTHENTICATION_ERROR"%string).

Section WithJwt.
Context `{Jwt.Lib}.

(** [authHeader && authHeader.split(' ')[1]] *)
Definition bearer_token (req : Request) : option string :=
  match authorization req with
  | Some authHeader =>
      if String.eqb authHeader "" then None
      else JS.split_space authHeader !! 1%nat
  | None => None
  end.

Definition authenticateToken : Middleware := λ req db now,
  match bearer_token req with
  | None => inl (unauthenticated "Access token required")
  | Some token =>
      if String.eqb token "" then inl (unauthenticated "Access token required")
      else
        match Jwt.verify token secret now with
        | inr decoded =>
            let found :=
              match Jwt.userId decoded with
              | Some id =>
                  match Models.users db !! id with
                  | Some u => Some (id, u)
                  | None => None
                  end
              | None => None
              end in
            match found with
            | None => inl (unauthenticated "User not found")
            | Some u => inr (set_user req u)
            end
        | inl Jwt.TokenExpiredError => inl (unauthenticated "Token expired")
        | inl _ => inl (unauthenticated "Invalid token")
        end
  end.

End WithJwt.

Definition forbidden : Response :=
  mkResponse 403 false None None (Some "Insufficient permissions"%string)
             (Some "AUTHORIZATION_ERROR"%string).

Definition requireRole (roles : list User.Role) : Middleware := λ req db now,
  match user req with
  | None => inl (unauthenticated "Authentication required")
  | Some (_, u) =>
      if JS.includes roles (User.role u) then inr req else inl forbidden
  end.

Definition requireAdmin : Middleware := requireRole [User.admin].
Definition requireUser : Middleware := requireRole [User.admin; User.user].

End Auth.

(** ** [middleware/validation.js]

    The schemas are data: for each key its base type, the rules in the order
    they are chained, [required()], [valid(...)], [allow(...)] and the custom
    [messages].  [Joi.validate] is the small evaluator of such schemas with
    joi's defaults: keys are checked in declaration order, the first failure
    ends the validation ([abortEarly]), keys the schema does not declare are
    refused.  String length counts the characters of the Rocq string. *)

Module Joi.

Class Lib := {
  (** the predicate behind [string().email()] *)
  email : string → bool;
  (** [number()] converts a numeric string *)
  number_of_string : string → option Q;
  (** [array()] converts a string holding a JSON array *)
  array_of_string : string → option (list JValue);
  (** [date()] accepts what converts to a valid date *)
  date : JValue → bool;
  (** default message of an error type for a key label *)
  template : string → string → string
}.

Inductive Base := string_ | number_ | array_of_strings | date_.

Inductive Rule := min (n : Z) | max (n : Z) | is_email | integer.

Record Key := mkKey {
  base : Base;
  rules : list Rule;
  required : bool;
  (** the values of [valid(...)], which accepts nothing else *)
  valid : option (list string);
  (** the values of [allow(...)]; [None] is [null] *)
  allow : list (option string);
  (** [messages({ type: text })] *)
  messages : list (string * string)
}.

Record ErrorItem := mkErrorItem { message : string; type : string }.

Definition matches (v : JValue) (a : option string) : bool :=
  match v, a with
  | JNull, None => true
  | JStr s, Some s' => String.eqb s s'
  | _, _ => false
  end.

Definition max_safe_integer : Z := 9007199254740991.

Section WithLib.
Context `{Lib}.

Definition report (k : Key) (label : string) (ty : string) : ErrorItem :=
  match list_find (λ m, m.1 = ty) (messages k) with
  | Some (_, (_, text)) => mkErrorItem text ty
  | None => mkErrorItem (template ty label) ty
  end.

Definition string_rule (s : string) (r : Rule) : option string :=
  match r with
  | min n => if Z.of_nat (String.length s) <? n then Some "string.min"%string else None
  | max n => if n <? Z.of_nat (String.length s) then Some "string.max"%string else None
  | is_email => if email s then None else Some "string.email"%string
  | integer => None
  end.

Definition number_rule (q : Q) (r : Rule) : option string :=
  match r with
  | min n => if Qle_bool (inject_Z n) q then None else Some "number.min"%string
  | integer => if (Qden (Qred q) =? 1)%positive then None
               else Some "number.integer"%string
  | _ => None
  end.

Definition first_failure {A} (check : A → option string) (l : list A)
  : option string :=
  match list_find (λ a, is_Some (check a)) l with
  | Some (_, a) => check a
  | None => None
  end.

Definition check_string (rs : list Rule) (v : JValue) : option string :=
  match v with
  | JStr s =>
      if String.eqb s "" then Some "string.empty"%string
      else first_failure (string_rule s) rs
  | _ => Some "string.base"%string
  end.

Definition check_number (rs : list Rule) (v : JValue) : option string :=
  let converted :=
    match v with
    | JNum q => Some q
    | JStr s => number_of_string s
    | _ => None
    end in
  match converted with
  | None => Some "number.base"%string
  | Some q =>
      if Qle_bool (inject_Z (- max_safe_integer)) q
         && Qle_bool q (inject_Z max_safe_integer)
      then first_failure (number_rule q) rs
      else Some "number.unsafe"%string
  end.

(** The items of [array().items(Joi.string())]: the failure of the first
    bad item, reported under the label of that item, [key[i]]. *)
Definition check_array (v : JValue) : option (string * string) :=
  let converted :=
    match v with
    | JArr items => Some items
    | JStr s => array_of_string s
    | _ => None
    end in
  match converted with
  | None => Some ("array.base", "")%string
  | Some items =>
      match list_find (λ item, is_Some (check_string [] item)) items with
      | Some (i, item) =>
          match check_string [] item with
          | Some ty => Some (ty, "[" ++ pretty i ++ "]")%string
          | None => None
          end
      | None => None
      end
  end.

(** The failure of a value against the base type and the rules of a key:
    its type, and what it adds to the label. *)
Definition check_base (k : Key) (v : JValue) : option (string * string) :=
  match base k with
  | string_ => (λ ty, (ty, ""%string)) <$> check_string (rules k) v
  | number_ => (λ ty, (ty, ""%string)) <$> check_number (rules k) v
  | array_of_strings => check_array v
  | date_ => if date v then None else Some ("date.base", "")%string
  end.

(** One key of the object; [None] for the value is [undefined]. *)
Definition validate_key (label : string) (k : Key) (v : option JValue)
  : option ErrorItem :=
  match v with
  | None => if required k then Some (report k label "any.required") else None
  | Some v =>
      if existsb (matches v) (allow k) then None
      else
        match valid k with
        | Some vs =>
            if existsb (λ s, matches v (Some s)) vs then None
            else Some (report k label "any.only")
        | None =>
            match check_base k v with
            | Some (ty, item) => Some (report k (label ++ item) ty)
            | None => None
            end
        end
  end.

(** [schema.validate(value).error], reduced to [error.details[0]]. *)
Definition validate (schema : list (string * Key)) (value : JValue)
  : option ErrorItem :=
  match value with
  | JObj fields =>
      match list_find (λ lk, is_Some (validate_key lk.1 lk.2 (jget lk.1 fields)))
                      schema with
      | Some (_, (label, k)) => validate_key label k (jget label fields)
      | None =>
          match list_find (λ kv, kv.1 ∉ schema.*1) fields with
          | Some (_, (label, _)) =>
              Some (mkErrorItem (template "object.unknown" label) "object.unknown")
          | None => None
          end
      end
  | _ => Some (mkErrorItem (template "object.base" "value") "object.base")
  end.

End WithLib.

End Joi.

Module Validation.
Import Joi.

Section WithJoi.
Context `{Joi.Lib}.

Definition validate (schema : list (string * Key)) : Middleware := λ req db now,
  match Joi.validate schema (body req) with
  | Some e =>
      inl (mkResponse 400 false None None (Some (Joi.message e))
             (Some "VALIDATION_ERROR"%string))
  | None => inr req
  end.

End WithJoi.

Local Open Scope string_scope.

Definition loginSchema : list (string * Key) :=
  [ ("email", mkKey string_ [is_email] true None []
       [("string.email", "Please provide a valid email address");
        ("any.required", "Email is required")]);
    ("password", mkKey string_ [min 6] true None []
       [("string.min", "Password must be at least 6 characters long");
        ("any.required", "Password is required")]) ].

Definition registerSchema : list (string * Key) :=
  [ ("name", mkKey string_ [min 2; max 255] true None []
       [("string.min", "Name must be at least 2 characters long");
        ("string.max", "Name cannot exceed 255 characters");
        ("any.required", "Name is required")]);
    ("email", mkKey string_ [is_email] true None []
       [("string.email", "Please provide a valid email address");
        ("any.required", "Email is required")]);
    ("password", mkKey string_ [min 6] true None []
       [("string.min", "Password must be at least 6 characters long");
        ("any.required", "Password is required")]);
    ("role", mkKey string_ [] false (Some ["admin"; "user"]) [] []) ].

Definition customerSchema : list (string * Key) :=
  [ ("name", mkKey string_ [min 2; max 255] true None []
       [("string.min", "Name must be at least 2 characters long");
        ("string.max", "Name cannot exceed 255 characters");
        ("any.required", "Name is required")]);
    ("email", mkKey string_ [is_email] false None [Some ""; None]
       [("string.email", "Please provide a valid email address")]);
    ("phone", mkKey string_ [max 50] false None [Some ""; None] []);
    ("company", mkKey string_ [max 255] false None [Some ""; None] []);
    ("tags", mkKey array_of_strings [] false None [] []);
    ("notes", mkKey string_ [max 1000] false None [Some ""; None] []) ].

Definition leadSchema : list (string * Key) :=
  [ ("title", mkKey string_ [min 2; max 255] true None []
       [("string.min", "Title must be at least 2 characters long");
        ("string.max", "Title cannot exceed 255 characters");
        ("any.required", "Title is required")]);
    ("description", mkKey string_ [max 2000] false None [Some ""; None] []);
    ("stage", mkKey string_ [] false
       (Some ["lead"; "qualified"; "proposal"; "closed"]) [] []);
    ("value", mkKey number_ [min 0] false None [None] []);
    ("customerId", mkKey number_ [integer] false None [None] []);
    ("assignedTo", mkKey number_ [integer] false None [None] []) ].

Definition taskSchema : list (string * Key) :=
  [ ("title", mkKey string_ [min 2; max 255] true None []
       [("string.min", "Title must be at least 2 characters long");
        ("string.max", "Title cannot exceed 255 characters");
        ("any.required", "Title is required")]);
    ("description", mkKey string_ [max 1000] false None [Some ""; None] []);
    ("status", mkKey string_ [] false
       (Some ["pending"; "in-progress"; "completed"]) [] []);
    ("priority", mkKey string_ [] false (Some ["low"; "medium"; "high"]) [] []);
    ("dueDate", mkKey date_ [] false None [None] []);
    ("assignedTo", mkKey number_ [integer] false None [None] []);
    ("customerId", mkKey number_ [integer] false None [None] []) ].

Definition interactionSchema : list (string * Key) :=
  [ ("customerId", mkKey number_ [integer] true None []
       [("any.required", "Customer is required")]);
    ("type", mkKey string_ [] true (Some ["call"; "email"; "meeting"; "note"]) []
       [("any.required", "Interaction type is required")]);
    ("notes", mkKey string_ [max 2000] false None [Some ""; None] []);
    ("date", mkKey date_ [] false None [] []) ].

Definition updateLeadStageSchema : list (string * Key) :=
  [ ("stage", mkKey string_ [] true
       (Some ["lead"; "qualified"; "proposal"; "closed"]) []
       [("any.required", "Stage is required")]) ].

Definition updateTaskStatusSchema : list (string * Key) :=
  [ ("status", mkKey string_ [] true
       (Some ["pending"; "in-progress"; "completed"]) []
       [("any.required", "Status is required")]) ].

End Validation.

(** ** Model validation and persistence of [User]

    The violations of a write are collected and reported together, joined
    as [ValidationError] joins them.  The rows of this model hold strings
    and declared roles.  A number or a boolean passed for a string
    attribute, which Sequelize validates and stores as its text, and a role
    outside the enumeration, which the enum type of PostgreSQL refuses and
    SQLite stores, lead outside these rows: the model answers them as
    refused ([Spec.typed_user_body] names the bodies without such
    values). *)

Module UserModel.
Import Sequelize Models.
Local Open Scope string_scope.

#[global] Instance User_eq_dec : EqDecision User.t.
Proof. solve_decision. Defined.

Definition newline : string := String "010"%char EmptyString.
Definition quote : string := String "034"%char EmptyString.

(** [ValidationError.message]: the violations joined by [",\n"]. *)
Definition validation_error (violations : list string) : Error :=
  ValidationError (String.concat ("," ++ newline) violations).

Definition notNull (model attr : string) : string :=
  "notNull Violation: " ++ model ++ "." ++ attr ++ " cannot be null".

Definition len_failed (attr : string) : string :=
  "Validation error: Validation len on " ++ attr ++ " failed".

Definition not_a_string (attr : string) : string :=
  "string violation: " ++ attr ++ " cannot be an array or an object".

(** [validate: { len: [lo, hi] }] on a string attribute that is
    [allowNull: false]. *)
Definition check_len (model attr : string) (lo hi : Z) (v : option JValue)
  : list string :=
  match v with
  | None | Some JNull => [notNull model attr]
  | Some (JStr s) =>
      let n := Z.of_nat (String.length s) in
      if ((lo <=? n)%Z && (n <=? hi)%Z)%bool then [] else [len_failed attr]
  | Some _ => [not_a_string attr]
  end.

Section WithLibs.
Context `{Validator.Lib, Bcrypt.Lib}.

Definition check_email (v : option JValue) : list string :=
  match v with
  | None | Some JNull => [notNull "User" "email"]
  | Some (JStr s) =>
      if Validator.isEmail s then []
      else ["Validation error: Validation isEmail on email failed"]
  | Some _ => [not_a_string "email"]
  end.

Definition check_role (v : option JValue) : list string :=
  match v with
  | None | Some JNull => [notNull "User" "role"]
  | Some (JStr s) =>
      if bool_decide (is_Some (User.role_of_name s)) then []
      else [quote ++ s ++ quote ++ " is not a valid choice in ["
            ++ quote ++ "admin" ++ quote ++ "," ++ quote ++ "user" ++ quote ++ "]"]
  | Some _ => [not_a_string "role"]
  end.

Definition str (v : option JValue) : string :=
  match v with Some (JStr s) => s | _ => "" end.

(** [User.findOne({ where: { email } })]. *)
Definition findOne_email (e : string) (db : DB) : option (Z * User.t) :=
  match list_find (λ kv, User.email kv.2 = e) (map_to_list (users db)) with
  | Some (_, kv) => Some kv
  | None => None
  end.

Definition saltRounds : Z := 12.

(** [User.create({ name, email, password, role })]: validation, the
    [beforeCreate] hook that hashes the password, then the insert. *)
Definition create (name email password role : option JValue) (db : DB) (now : Z)
  : Error + (DB * (Z * User.t)) :=
  let violations :=
    (check_len "User" "name" 2 255 name ++ check_email email
     ++ check_len "User" "password" 6 255 password ++ check_role role)%list in
  match violations with
  | _ :: _ => inl (validation_error violations)
  | [] =>
      match findOne_email (str email) db, User.role_of_name (str role) with
      | Some _, _ => inl UniqueConstraintError
      | None, None => inl (validation_error (check_role role))
      | None, Some r =>
          let id := users_seq db in
          let u := User.mk (str name) (str email)
                     (Bcrypt.hash (str password) saltRounds) r now now in
          inr (mkDB (<[id := u]> (users db)) (customers db) (leads db)
                    (tasks db) (interactions db) (id + 1)%Z (leads_seq db),
               (id, u))
      end
  end.

(** [user.update({ name, email, role })]: [undefined] values are left
    out; every value passed is validated; the row is written when a value
    differs from the stored one, with [updatedAt] set to the clock.  When
    none differs nothing is written and the instance stays as it was
    loaded. *)
Definition update (id : Z) (u : User.t) (name email role : option JValue)
    (db : DB) (now : Z) : Error + (DB * User.t) :=
  let passed (v : option JValue) : bool :=
    match v with Some _ => true | None => false end in
  let changed (v : option JValue) (cur : string) : bool :=
    match v with
    | None => false
    | Some (JStr s) => negb (String.eqb s cur)
    | Some _ => true
    end in
  let violations :=
    ((if passed name then check_len "User" "name" 2 255 name else [])
     ++ (if passed email then check_email email else [])
     ++ (if passed role then check_role role else []))%list in
  match violations with
  | _ :: _ => inl (validation_error violations)
  | [] =>
      let name' := if passed name then str name else User.name u in
      let email' := if passed email then str email else User.email u in
      let role' := if passed role
                   then default (User.role u) (User.role_of_name (str role))
                   else User.role u in
      let written := changed name (User.name u) || changed email (User.email u)
                     || changed role (User.role_name (User.role u)) in
      let stamp := if written then now else User.updatedAt u in
      let u' := User.mk name' email' (User.password u) role'
                  (User.createdAt u) stamp in
      if written
      then
        let taken :=
          match findOne_email email' db with
          | Some (other, _) => changed email (User.email u) && negb (other =? id)%Z
          | None => false
          end in
        if taken then inl UniqueConstraintError
        else inr (mkDB (<[id := u']> (users db)) (customers db) (leads db)
                       (tasks db) (interactions db) (users_seq db)
                       (leads_seq db), u')
      else inr (db, u')
  end.

End WithLibs.

End UserModel.

(** ** [routes/auth.js] *)

Module AuthRoutes.
Import Models.
Local Open Scope string_scope.

Section WithLibs.
Context `{Jwt.Lib, Bcrypt.Lib, Validator.Lib, Joi.Lib}.

(** [jwt.sign({ userId: user.id, role: user.role }, secret,
    { expiresIn: '24h' })]. *)
Definition generateToken (id : Z) (u : User.t) (now : Z) : string :=
  Jwt.sign (Jwt.mkPayload (Some id) (Some (User.role_name (User.role u))))
           Auth.secret "24h" now.

Definition body_field (key : string) (req : Request) : option JValue :=
  match body req with
  | JObj fields => jget key fields
  | _ => None
  end.

Definition user_and_token (id : Z) (u : User.t) (now : Z) : JValue :=
  JObj [("user", JObj (User.toJSON (User.get id u)));
        ("token", JStr (generateToken id u now))].

(** [POST /api/auth/register] *)
Definition register_handler : Handler := λ req db now,
  let name := body_field "name" req in
  let email := body_field "email" req in
  let password := body_field "password" req in
  let role := match body_field "role" req with
              | None => Some (JStr "user")
              | Some r => Some r
              end in
  match UserModel.findOne_email (UserModel.str email) db with
  | Some _ =>
      (db, errorResponse "User with this email already exists" "DUPLICATE_ENTRY" 409)
  | None =>
      match UserModel.create name email password role db now with
      | inl e => (db, errorResponse (Sequelize.error_message e) "DATABASE_ERROR" 500)
      | inr (db', (id, u)) =>
          (db', successResponse (user_and_token id u now)
                  "User registered successfully" 201)
      end
  end.

Definition register : Handler :=
  route [Validation.validate Validation.registerSchema] register_handler.

(** [POST /api/auth/login] *)
Definition login_handler : Handler := λ req db now,
  match UserModel.findOne_email (UserModel.str (body_field "email" req)) db with
  | None => (db, errorResponse "Invalid credentials" "AUTHENTICATION_ERROR" 401)
  | Some (id, u) =>
      if Bcrypt.compare (UserModel.str (body_field "password" req)) (User.password u)
      then (db, successResponse (user_and_token id u now) "Login successful" 200)
      else (db, errorResponse "Invalid credentials" "AUTHENTICATION_ERROR" 401)
  end.

Definition login : Handler :=
  route [Validation.validate Validation.loginSchema] login_handler.

(** [GET /api/auth/me] *)
Definition me_handler : Handler := λ req db now,
  match user req with
  | Some (id, u) =>
      (db, successResponse (JObj [("user", JObj (User.toJSON (User.get id u)))])
             "Success" 200)
  | None =>
      (db, errorResponse "Cannot read properties of undefined" "DATABASE_ERROR" 500)
  end.

Definition me : Handler := route [Auth.authenticateToken] me_handler.

(** [POST /api/auth/refresh] *)
Definition refresh_handler : Handler := λ req db now,
  match user req with
  | Some (id, u) =>
      (db, successResponse (user_and_token id u now)
             "Token refreshed successfully" 200)
  | None =>
      (db, errorResponse "Cannot read properties of undefined"
             "AUTHENTICATION_ERROR" 500)
  end.

Definition refresh : Handler := route [Auth.authenticateToken] refresh_handler.

End WithLibs.

End AuthRoutes.

(** ** [routes/users.js] *)

Module Users.
Import Models.
Local Open Scope string_scope.

Section WithLibs.
Context `{Jwt.Lib, Validator.Lib, Engine.Lib}.

(** [router.use(authenticateToken); router.use(requireAdmin)] *)
Definition stack : list Middleware := [Auth.authenticateToken; Auth.requireAdmin].

Definition newest_first (a b : Z * User.t) : Prop :=
  (User.createdAt b.2 ≤ User.createdAt a.2)%Z.

#[global] Instance newest_first_dec a b : Decision (newest_first a b).
Proof. unfold newest_first. apply _. Defined.

Definition public_user (row : Z * User.t) : JValue :=
  JObj (User.toJSON (User.get_excluding ["password"] row.1 row.2)).

Definition pagination_json (pg : Pagination.Pagination) : JValue :=
  JObj [("page", jint (Pagination.page pg));
        ("limit", jint (Pagination.limit pg));
        ("total", jint (Pagination.total pg));
        ("pages", jopt jint (Pagination.pages pg))].

(** [GET /api/users] *)
Definition list_handler : Handler := λ req db now,
  let page := default 1 (query_page req) in
  let limit := default 10 (query_limit req) in
  let ordered := merge_sort newest_first (map_to_list (users db)) in
  match Pagination.list_route ordered page limit with
  | Some (rows, pg) =>
      (db, successResponse
             (JObj [("users", JArr (public_user <$> rows));
                    ("pagination", pagination_json pg)])
             "Success" 200)
  | None => (db, errorResponse "LIMIT and OFFSET must not be negative"
                   "DATABASE_ERROR" 500)
  end.

Definition list : Handler := route stack list_handler.

(** [GET /api/users] on the query string as it comes; [list_handler] is
    its part for a page and a limit written as decimal literals. *)
Definition list_query_handler (page limit : option string) : Handler :=
  λ req db now,
  let ordered := merge_sort newest_first (map_to_list (users db)) in
  match ListQuery.list_route ordered page limit with
  | inr (rows, b) =>
      (db, successResponse
             (JObj [("users", JArr (public_user <$> rows));
                    ("pagination", ListQuery.block_json b)])
             "Success" 200)
  | inl msg => (db, errorResponse msg "DATABASE_ERROR" 500)
  end.

Definition list_query (page limit : option string) : Handler :=
  route stack (list_query_handler page limit).

(** [GET /api/users/:id] *)
Definition read_handler : Handler := λ req db now,
  match Sequelize.findByPk (params_id req) (users db) with
  | inl msg => (db, errorResponse msg "DATABASE_ERROR" 500)
  | inr None => (db, errorResponse "User not found" "NOT_FOUND" 404)
  | inr (Some row) =>
      (db, successResponse (JObj [("user", public_user row)]) "Success" 200)
  end.

Definition read : Handler := route stack read_handler.

(** [PUT /api/users/:id]: no [validate] in front of the handler. *)
Definition update_handler : Handler := λ req db now,
  let name := AuthRoutes.body_field "name" req in
  let email := AuthRoutes.body_field "email" req in
  let role := AuthRoutes.body_field "role" req in
  match Sequelize.findByPk (params_id req) (users db) with
  | inl msg => (db, errorResponse msg "DATABASE_ERROR" 500)
  | inr None => (db, errorResponse "User not found" "NOT_FOUND" 404)
  | inr (Some (id, u)) =>
      match UserModel.update id u name email role db now with
      | inl e => (db, errorResponse (Sequelize.error_message e) "DATABASE_ERROR" 500)
      | inr (db', u') =>
          (db', successResponse (JObj [("user", JObj (User.toJSON (User.get id u')))])
                  "User updated successfully" 200)
      end
  end.

Definition update : Handler := route stack update_handler.

(** [DELETE /api/users/:id] *)
Definition delete_handler : Handler := λ req db now,
  let self :=
    match JS.parseInt (params_id req), user req with
    | Some n, Some (uid, _) => (n =? uid)%Z
    | _, _ => false
    end in
  if self
  then (db, errorResponse "Cannot delete your own account" "VALIDATION_ERROR" 400)
  else
    match Sequelize.findByPk (params_id req) (users db) with
    | inl msg => (db, errorResponse msg "DATABASE_ERROR" 500)
    | inr None => (db, errorResponse "User not found" "NOT_FOUND" 404)
    | inr (Some (id, _)) =>
        match User_destroy id db with
        | inl e => (db, errorResponse (Sequelize.error_message e) "DATABASE_ERROR" 500)
        | inr db' => (db', successResponse (JObj []) "User deleted successfully" 200)
        end
    end.

Definition delete : Handler := route stack delete_handler.

End WithLibs.

End Users.

(** ** Model validation and persistence of [Lead]

    [Lead.build(values)] keeps the keys of [values] that name an attribute of
    the model ([title], [description], [stage], [value], [customer_id],
    [assigned_to]) and drops every other key.  Validation is as for [User];
    the insert checks both references. *)

Module LeadModel.
Import Sequelize Models UserModel.
Local Open Scope string_scope.

Definition set_leads (db : DB) (ls : gmap Z Lead.t) (seq : Z) : DB :=
  mkDB (users db) (customers db) ls (tasks db) (interactions db)
       (users_seq db) seq.

Definition is_integer (q : Q) : bool := (Qden (Qred q) =? 1)%positive.

Definition to_Z (q : Q) : Z := Qnum (Qred q).

(** A nullable text attribute with [validate: { len: [lo, hi] }]. *)
Definition check_text (attr : string) (lo hi : Z) (v : option JValue) : list string :=
  match v with
  | None | Some JNull => []
  | Some (JStr s) =>
      let n := Z.of_nat (String.length s) in
      if ((lo <=? n)%Z && (n <=? hi)%Z)%bool then [] else [len_failed attr]
  | Some _ => [not_a_string attr]
  end.

Definition check_integer (attr : string) (allow_null : bool) (v : option JValue)
  : list string :=
  match v with
  | None | Some JNull => if allow_null then [] else [notNull "Lead" attr]
  | Some (JNum q) =>
      if is_integer q then [] else [attr ++ " is not a valid integer"]
  | Some _ => [attr ++ " is not a valid integer"]
  end.

Definition check_stage (v : option JValue) : list string :=
  match v with
  | None => []
  | Some JNull => [notNull "Lead" "stage"]
  | Some (JStr s) =>
      if bool_decide (is_Some (Lead.stage_of_name s)) then []
      else [quote ++ s ++ quote ++ " is not a valid choice"]
  | Some _ => [not_a_string "stage"]
  end.

Definition check_value (v : option JValue) : list string :=
  match v with
  | None | Some JNull => []
  | Some (JNum q) =>
      if Qle_bool 0 q then [] else ["Validation error: Validation min on value failed"]
  | Some _ => ["value is not a valid decimal"]
  end.

Definition text (v : option JValue) : option string :=
  match v with Some (JStr s) => Some s | _ => None end.

Definition number (v : option JValue) : option Q :=
  match v with Some (JNum q) => Some q | _ => None end.

Definition integer (v : option JValue) : option Z :=
  match v with Some (JNum q) => Some (to_Z q) | _ => None end.

Definition stage_of (v : option JValue) : Lead.Stage :=
  match v with
  | Some (JStr s) => default Lead.lead (Lead.stage_of_name s)
  | _ => Lead.lead
  end.

(** [Lead.create(values)]. *)
Definition create (values : list (string * JValue)) (db : DB) (now : Z)
  : Error + (DB * (Z * Lead.t)) :=
  let title := jget "title" values in
  let description := jget "description" values in
  let stage := jget "stage" values in
  let value := jget "value" values in
  let customer_id := jget "customer_id" values in
  let assigned_to := jget "assigned_to" values in
  let violations :=
    (check_len "Lead" "title" 2 255 title
     ++ check_text "description" 0 2000 description
     ++ check_stage stage ++ check_value value
     ++ check_integer "customer_id" false customer_id
     ++ check_integer "assigned_to" true assigned_to)%list in
  match violations with
  | _ :: _ => inl (validation_error violations)
  | [] =>
      let cid := default 0%Z (integer customer_id) in
      let references_ok :=
        bool_decide (is_Some (customers db !! cid))
        && match integer assigned_to with
           | Some a => bool_decide (is_Some (users db !! a))
           | None => true
           end in
      if references_ok then
        let id := leads_seq db in
        let l := Lead.mk (str title) (text description) (stage_of stage)
                   (number value) cid (integer assigned_to) now now in
        inr (set_leads db (<[id := l]> (leads db)) (id + 1)%Z, (id, l))
      else inl ForeignKeyConstraintError
  end.

(** [lead.update({ stage })]. *)
Definition update_stage (id : Z) (l : Lead.t) (stage : option JValue)
    (db : DB) (now : Z) : Error + DB :=
  match stage with
  | None => inr db
  | Some v =>
      match check_stage stage with
      | _ :: _ as violations => inl (validation_error violations)
      | [] =>
          let st := stage_of stage in
          if bool_decide (st = Lead.stage l) then inr db
          else
            let l' := Lead.mk (Lead.title l) (Lead.description l) st
                        (Lead.value l) (Lead.customer_id l) (Lead.assigned_to l)
                        (Lead.createdAt l) now in
            inr (set_leads db (<[id := l']> (leads db)) (leads_seq db))
      end
  end.

End LeadModel.

(** ** Numbers of the reporting code *)

Module Num.
Local Open Scope Q_scope.

(** [parseFloat(x.toFixed(2))] for a double [x]: [toFixed] prints the
    multiple of [1/100] nearest to the value of the double, the one further
    from zero at a tie; [parseFloat] reads the decimal back and JSON prints
    it again. *)
Definition toFixed2 (x : Q) : Q :=
  if Qle_bool 0 x then inject_Z (Qfloor (x * 100 + (1 # 2))) / 100
  else - (inject_Z (Qfloor ((- x) * 100 + (1 # 2))) / 100).

Definition sum (l : list Q) : Q := foldr Qplus 0 l.

End Num.

(** ** [routes/leads.js] *)

Module Leads.
Import Models.
Local Open Scope string_scope.

Definition customer_json (db : DB) (cid : Z) : JValue :=
  match customers db !! cid with
  | Some c =>
      JObj [("id", jint cid); ("name", JStr (Customer.name c));
            ("email", jopt JStr (Customer.email c));
            ("company", jopt JStr (Customer.company c))]
  | None => JNull
  end.

Definition assignedUser_json (db : DB) (uid : option Z) : JValue :=
  match uid with
  | Some a =>
      match users db !! a with
      | Some u => JObj [("id", jint a); ("name", JStr (User.name u));
                        ("email", JStr (User.email u))]
      | None => JNull
      end
  | None => JNull
  end.

(** [Lead.findByPk(id, { include: [customer, assignedUser] })], as JSON. *)
Definition with_associations (db : DB) (id : Z) : JValue :=
  match leads db !! id with
  | Some l =>
      JObj (Lead.get id l
            ++ [("customer", customer_json db (Lead.customer_id l));
                ("assignedUser", assignedUser_json db (Lead.assigned_to l))])%list
  | None => JNull
  end.

(** One row of [GROUP BY stage]. *)
Record StageStat := mkStageStat {
  stat_stage : Lead.Stage;
  stat_count : Z;
  (** [SUM(value)], [NULL] when no lead of the stage has a value *)
  stat_totalValue : option Q
}.

Definition in_stage (db : DB) (st : Lead.Stage) : list Lead.t :=
  filter (λ l, Lead.stage l = st) (map_to_list (leads db)).*2.

(** The row of one stage; a stage without leads has no row. *)
Definition stat_of (db : DB) (st : Lead.Stage) : option StageStat :=
  let ls := in_stage db st in
  match ls with
  | [] => None
  | _ =>
      let vs := omap Lead.value ls in
      Some (mkStageStat st (Z.of_nat (length ls))
              (match vs with [] => None | _ => Some (Num.sum vs) end))
  end.

Definition stageStats (db : DB) : list StageStat := omap (stat_of db) Lead.stages.

Definition count_of (stats : list StageStat) (st : Lead.Stage) : Z :=
  match list_find (λ s, stat_stage s = st) stats with
  | Some (_, s) => stat_count s
  | None => 0%Z
  end.


Definition overview_totalLeads (db : DB) : Z :=
  foldl (λ sum stat, (sum + stat_count stat)%Z) 0%Z (stageStats db).

Definition overview_conversionRate (db : DB) : Q :=
  let totalLeads := overview_totalLeads db in
  let closedLeads := count_of (stageStats db) Lead.closed in
  let conversionRate :=
    if (0 <? totalLeads)%Z
    then Double.mul (Double.div (inject_Z closedLeads) (inject_Z totalLeads)) 100
    else 0%Q in
  Num.toFixed2 conversionRate.

Section WithLibs.
Context `{Jwt.Lib, Joi.Lib, Engine.Lib}.

(** [router.use(authenticateToken); router.use(requireUser)] *)
Definition stack : list Middleware := [Auth.authenticateToken; Auth.requireUser].

(** [POST /api/leads] *)
Definition create_handler : Handler := λ req db now,
  let values := match body req with JObj fields => fields | _ => [] end in
  match LeadModel.create values db now with
  | inl e => (db, errorResponse (Sequelize.error_message e) "DATABASE_ERROR" 500)
  | inr (db', (id, _)) =>
      (db', successResponse (JObj [("lead", with_associations db' id)])
              "Lead created successfully" 201)
  end.

Definition create : Handler :=
  route (stack ++ [Validation.validate Validation.leadSchema]) create_handler.

(** [PUT /api/leads/:id/stage] *)
Definition update_stage_handler : Handler := λ req db now,
  let stage := AuthRoutes.body_field "stage" req in
  match Sequelize.findByPk (params_id req) (leads db) with
  | inl msg => (db, errorResponse msg "DATABASE_ERROR" 500)
  | inr None => (db, errorResponse "Lead not found" "NOT_FOUND" 404)
  | inr (Some (id, l)) =>
      let oldStage := Lead.stage l in
      match LeadModel.update_stage id l stage db now with
      | inl e => (db, errorResponse (Sequelize.error_message e) "DATABASE_ERROR" 500)
      | inr db' =>
          (db', successResponse
                  (JObj [("lead", with_associations db' id);
                         ("oldStage", JStr (Lead.stage_name oldStage));
                         ("newStage", default JNull stage)])
                  "Lead stage updated successfully" 200)
      end
  end.

Definition update_stage : Handler :=
  route (stack ++ [Validation.validate Validation.updateLeadStageSchema])
        update_stage_handler.




End WithLibs.

End Leads.

(** ** [routes/customers.js] *)

Module Customers.
Import Models.
Local Open Scope string_scope.

Section WithLibs.
Context `{Jwt.Lib, Engine.Lib}.

Definition stack : list Middleware := [Auth.authenticateToken; Auth.requireUser].

(** [DELETE /api/customers/:id] *)
Definition delete_handler : Handler := λ req db now,
  match Sequelize.findByPk (params_id req) (customers db) with
  | inl msg => (db, errorResponse msg "DATABASE_ERROR" 500)
  | inr None => (db, errorResponse "Customer not found" "NOT_FOUND" 404)
  | inr (Some (id, _)) =>
      match Customer_destroy id db with
      | inl e => (db, errorResponse (Sequelize.error_message e) "DATABASE_ERROR" 500)
      | inr db' =>
          (db', successResponse (JObj []) "Customer deleted successfully" 200)
      end
  end.

Definition delete : Handler := route stack delete_handler.

End WithLibs.

End Customers.

(** ** [routes/reports.js] *)

Module Reports.
Import Models.
Local Open Scope string_scope.

Definition all_leads (db : DB) : list Lead.t := (map_to_list (leads db)).*2.

(** [COUNT(id)] and [COUNT(CASE WHEN stage = 'closed' THEN 1 END)]. *)
Definition count_leads (ls : list Lead.t) : Z := Z.of_nat (length ls).

Definition count_closed (ls : list Lead.t) : Z :=
  Z.of_nat (length (filter (λ l, Lead.stage l = Lead.closed) ls)).


(** The [conversionRate] of both dashboards:
    [totalLeads > 0 ? (closedLeads / totalLeads) * 100 : 0], then
    [parseFloat(conversionRate.toFixed(2))]. *)
Definition dashboard_conversionRate (db : DB) : Q :=
  let totalLeads := count_leads (all_leads db) in
  let closedLeads := count_closed (all_leads db) in
  let conversionRate :=
    if (0 <? totalLeads)%Z
    then Double.mul (Double.div (inject_Z closedLeads) (inject_Z totalLeads)) 100
    else 0%Q in
  Num.toFixed2 conversionRate.



Section WithLibs.
Context `{Jwt.Lib, Engine.Lib}.







End WithLibs.

End Reports.

(** ** The mutating endpoints and what is mounted in front of them *)

Module Routes.

Inductive Mutating :=
| auth_register            (* POST /api/auth/register *)
| auth_login               (* POST /api/auth/login *)
| customers_create         (* POST /api/customers *)
| customers_update         (* PUT /api/customers/:id *)
| customers_interaction    (* POST /api/customers/:id/interactions *)
| leads_create             (* POST /api/leads *)
| leads_update             (* PUT /api/leads/:id *)
| leads_update_stage       (* PUT /api/leads/:id/stage *)
| tasks_create             (* POST /api/tasks *)
| tasks_update             (* PUT /api/tasks/:id *)
| tasks_update_status      (* PUT /api/tasks/:id/status *)
| interactions_create      (* POST /api/interactions *)
| users_update.            (* PUT /api/users/:id *)

(** The argument of [validate(...)] in the route declaration, if any. *)
Definition schema_of (e : Mutating) : option (list (string * Joi.Key)) :=
  match e with
  | auth_register => Some Validation.registerSchema
  | auth_login => Some Validation.loginSchema
  | customers_create | customers_update => Some Validation.customerSchema
  | customers_interaction | interactions_create => Some Validation.interactionSchema
  | leads_create | leads_update => Some Validation.leadSchema
  | leads_update_stage => Some Validation.updateLeadStageSchema
  | tasks_create | tasks_update => Some Validation.taskSchema
  | tasks_update_status => Some Validation.updateTaskStatusSchema
  | users_update => None
  end.

Section WithLibs.
Context `{Jwt.Lib, Joi.Lib}.

(** The [router.use(...)] of the router the endpoint lives in. *)
Definition guards (e : Mutating) : list Middleware :=
  match e with
  | auth_register | auth_login => []
  | users_update => [Auth.authenticateToken; Auth.requireAdmin]
  | _ => [Auth.authenticateToken; Auth.requireUser]
  end.

Definition mount (e : Mutating) (h : Handler) : Handler :=
  route (guards e
         ++ match schema_of e with
            | Some schema => [Validation.validate schema]
            | None => []
            end) h.

End WithLibs.

End Routes.

(** ** Instance methods of the models

    [Lead.prototype], [Task.prototype] ([models/Lead.js]),
    [Customer.prototype] ([models/Customer.js]) and [Interaction.prototype]
    ([models/Interaction.js]).  A method changes the instance it is called
    on and returns it; nothing is saved. *)

Module LeadMethods.

(** [Array.prototype.indexOf]: [-1] when the element is absent. *)
Fixpoint indexOf `{EqDecision A} (l : list A) (x : A) : Z :=
  match l with
  | [] => -1
  | y :: rest =>
      if decide (y = x) then 0
      else let i := indexOf rest x in if i <? 0 then -1 else i + 1
  end.

(** [this.stage = st] *)
Definition set_stage (st : Lead.Stage) (l : Lead.t) : Lead.t :=
  Lead.mk (Lead.title l) (Lead.description l) st (Lead.value l)
    (Lead.customer_id l) (Lead.assigned_to l) (Lead.createdAt l)
    (Lead.updatedAt l).

(** [Lead.prototype.moveToNextStage] *)
Definition moveToNextStage (l : Lead.t) : Lead.t :=
  let stages := Lead.stages in
  let currentIndex := indexOf stages (Lead.stage l) in
  if currentIndex <? Z.of_nat (length stages) - 1
  then match stages !! Z.to_nat (currentIndex + 1) with
       | Some st => set_stage st l
       | None => l
       end
  else l.

(** [Lead.prototype.moveToPreviousStage] *)
Definition moveToPreviousStage (l : Lead.t) : Lead.t :=
  let stages := Lead.stages in
  let currentIndex := indexOf stages (Lead.stage l) in
  if 0 <? currentIndex
  then match stages !! Z.to_nat (currentIndex - 1) with
       | Some st => set_stage st l
       | None => l
       end
  else l.

End LeadMethods.

Module TaskMethods.

(** [this.status = s] *)
Definition set_status (s : Task.Status) (t : Task.t) : Task.t :=
  Task.mk (Task.title t) (Task.description t) s (Task.priority t)
    (Task.dueDate t) (Task.assignedTo t) (Task.customerId t)
    (Task.createdAt t) (Task.updatedAt t).

(** [Task.prototype.markCompleted] *)
Definition markCompleted (t : Task.t) : Task.t := set_status Task.completed t.

(** [Task.prototype.startTask] *)
Definition startTask (t : Task.t) : Task.t := set_status Task.in_progress t.

(** [Task.prototype.isOverdue]; [now] is [new Date()], the due date is the
    time stamp of its midnight. *)
Definition isOverdue (t : Task.t) (now : Z) : bool :=
  match Task.dueDate t with
  | None => false
  | Some due =>
      (due <? now) && negb (bool_decide (Task.status t = Task.completed))
  end.

(** [Task.prototype.getPriorityScore]:
    [priorityScores[this.priority] || 2]. *)
Definition getPriorityScore (t : Task.t) : Z :=
  let score := match Task.priority t with
               | Task.low => 1
               | Task.medium => 2
               | Task.high => 3
               end in
  if score =? 0 then 2 else score.

End TaskMethods.

Module CustomerMethods.

(** [this.tags = tags].  The column holds the array as JSON text; the
    setter writes [JSON.stringify], the getter reads [JSON.parse], and the
    model keeps the array of strings they exchange. *)
Definition set_tags (tags : list string) (c : Customer.t) : Customer.t :=
  Customer.mk (Customer.name c) (Customer.email c) (Customer.phone c)
    (Customer.company c) tags (Customer.notes c) (Customer.createdAt c)
    (Customer.updatedAt c).

(** [Customer.prototype.hasTag] *)
Definition hasTag (c : Customer.t) (tag : string) : bool :=
  JS.includes (Customer.tags c) tag.

(** [Customer.prototype.addTag] *)
Definition addTag (c : Customer.t) (tag : string) : Customer.t :=
  if negb (JS.includes (Customer.tags c) tag)
  then set_tags (Customer.tags c ++ [tag]) c
  else c.

(** [Customer.prototype.removeTag] *)
Definition removeTag (c : Customer.t) (tag : string) : Customer.t :=
  set_tags (filter (λ t, t ≠ tag) (Customer.tags c)) c.

End CustomerMethods.

Module InteractionMethods.
Local Open Scope string_scope.

Definition kind_name (k : Interaction.Kind) : string :=
  match k with
  | Interaction.call => "call" | Interaction.email => "email"
  | Interaction.meeting => "meeting" | Interaction.note => "note"
  end.

(** [String.prototype.toUpperCase] on ASCII letters. *)
Definition toUpperCase_char (c : ascii) : ascii :=
  let n := nat_of_ascii c in
  if ((97 <=? n) && (n <=? 122))%nat then ascii_of_nat (n - 32) else c.

Fixpoint toUpperCase (s : string) : string :=
  match s with
  | EmptyString => EmptyString
  | String c rest => String (toUpperCase_char c) (toUpperCase rest)
  end.

(** [s.charAt(i)] *)
Definition charAt (s : string) (i : nat) : string :=
  match String.get i s with
  | Some c => String c EmptyString
  | None => EmptyString
  end.

(** [s.slice(n)] for [n ≥ 0] *)
Definition slice (s : string) (n : nat) : string :=
  String.substring n (String.length s - n) s.

(** [s.substring(a, b)] for [0 ≤ a ≤ b] *)
Definition substring (s : string) (a b : nat) : string :=
  String.substring a (b - a) s.

(** [Interaction.prototype.getSummary]: a template literal; without
    notes, [this.notes?.substring(0, 100)] is [undefined] and prints as
    such, and [undefined > 100] is false. *)
Definition getSummary (i : Interaction.t) : string :=
  let type := kind_name (Interaction.type i) in
  (toUpperCase (charAt type 0) ++ slice type 1) ++ " - "
  ++ match Interaction.notes i with
     | Some notes => substring notes 0 100
     | None => "undefined"
     end
  ++ (if match Interaction.notes i with
         | Some notes => (100 <? String.length notes)%nat
         | None => false
         end
      then "..." else "").

End InteractionMethods.

(** ** [middleware/errorHandler.js] *)

Module ErrorHandler.
Local Open Scope string_scope.

(** What the handler reads of the error it is given. *)
Record Err := mkErr {
  name : string;
  (** [err.errors[i].message] *)
  errors : list string;
  isJoi : bool;
  (** [err.details[i].message] *)
  details : list string;
  status : option Z;
  message : option string;
  code : option string
}.

Definition failure (st : Z) (err : option string) (c : string) : Response :=
  mkResponse st false None None err (Some c).

(** [production] is [process.env.NODE_ENV === 'production'].  [None]: the
    handler itself throws, reading [.message] of [undefined]. *)
Definition errorHandler (production : bool) (err : Err) : option Response :=
  if String.eqb (name err) "SequelizeValidationError" then
    match errors err with
    | m :: _ => Some (failure 400 (Some m) "VALIDATION_ERROR")
    | [] => None
    end
  else if String.eqb (name err) "SequelizeUniqueConstraintError" then
    Some (failure 409 (Some "Resource already exists") "DUPLICATE_ENTRY")
  else if String.eqb (name err) "SequelizeForeignKeyConstraintError" then
    Some (failure 400 (Some "Referenced resource does not exist") "FOREIGN_KEY_ERROR")
  else if String.eqb (name err) "JsonWebTokenError" then
    Some (failure 401 (Some "Invalid token") "AUTHENTICATION_ERROR")
  else if String.eqb (name err) "TokenExpiredError" then
    Some (failure 401 (Some "Token expired") "AUTHENTICATION_ERROR")
  else if isJoi err then
    match details err with
    | m :: _ => Some (failure 400 (Some m) "VALIDATION_ERROR")
    | [] => None
    end
  else
    match status err with
    | Some st =>
        if (st =? 0)%Z
        then Some (failure 500
                     (if production then Some "Internal server error" else message err)
                     "DATABASE_ERROR")
        else Some (failure st (message err)
                     (match code err with
                      | Some c => if String.eqb c "" then "APPLICATION_ERROR" else c
                      | None => "APPLICATION_ERROR"
                      end))
    | None =>
        Some (failure 500
                (if production then Some "Internal server error" else message err)
                "DATABASE_ERROR")
    end.

(** The error [jwt.verify] throws, as the handler sees it. *)
Definition of_verify (e : Jwt.VerifyError) (msg : string) : Err :=
  mkErr (match e with
         | Jwt.TokenExpiredError => "TokenExpiredError"
         | Jwt.JsonWebTokenError => "JsonWebTokenError"
         | Jwt.NotBeforeError => "NotBeforeError"
         end) [] false [] None (Some msg) None.

End ErrorHandler.

(** ** More of [routes/leads.js] *)

Module LeadRoutes.
Import Models.
Local Open Scope string_scope.

(** [lead.destroy()]: no table references [leads]. *)
Definition Lead_destroy (id : Z) (db : DB) : DB :=
  LeadModel.set_leads db (delete id (leads db)) (leads_seq db).

(** The customer of [GET /api/leads/:id]:
    [attributes: ['id', 'name', 'email', 'company', 'phone']]. *)
Definition customer_json (db : DB) (cid : Z) : JValue :=
  match customers db !! cid with
  | Some c =>
      JObj [("id", jint cid); ("name", JStr (Customer.name c));
            ("email", jopt JStr (Customer.email c));
            ("company", jopt JStr (Customer.company c));
            ("phone", jopt JStr (Customer.phone c))]
  | None => JNull
  end.

Section WithLibs.
Context `{Jwt.Lib, Engine.Lib}.

(** [GET /api/leads/:id] *)
Definition read_handler : Handler := λ req db now,
  match Sequelize.findByPk (params_id req) (leads db) with
  | inl msg => (db, errorResponse msg "DATABASE_ERROR" 500)
  | inr None => (db, errorResponse "Lead not found" "NOT_FOUND" 404)
  | inr (Some (id, l)) =>
      (db, successResponse
             (JObj [("lead",
                     JObj (Lead.get id l
                           ++ [("customer", customer_json db (Lead.customer_id l));
                               ("assignedUser",
                                Leads.assignedUser_json db (Lead.assigned_to l))])%list)])
             "Success" 200)
  end.

Definition read : Handler := route Leads.stack read_handler.

(** [DELETE /api/leads/:id] *)
Definition delete_handler : Handler := λ req db now,
  match Sequelize.findByPk (params_id req) (leads db) with
  | inl msg => (db, errorResponse msg "DATABASE_ERROR" 500)
  | inr None => (db, errorResponse "Lead not found" "NOT_FOUND" 404)
  | inr (Some (id, _)) =>
      (Lead_destroy id db, successResponse (JObj []) "Lead deleted successfully" 200)
  end.

Definition delete : Handler := route Leads.stack delete_handler.

End WithLibs.

End LeadRoutes.

(** ** Referential integrity

    Every reference of a row of [leads], [tasks] and [interactions] names a
    row that exists. *)

Module Integrity.
Import Models.

Definition refers {K} `{Countable K} {A} (tbl : gmap K A) (ref : option K) : Prop :=
  ∀ k, ref = Some k → is_Some (tbl !! k).

Definition lead_ok (db : DB) (l : Lead.t) : Prop :=
  refers (customers db) (Some (Lead.customer_id l))
  ∧ refers (users db) (Lead.assigned_to l).

Definition task_ok (db : DB) (t : Task.t) : Prop :=
  refers (customers db) (Task.customerId t)
  ∧ refers (users db) (Task.assignedTo t).

Definition interaction_ok (db : DB) (i : Interaction.t) : Prop :=
  refers (customers db) (Some (Interaction.customer_id i))
  ∧ refers (users db) (Interaction.created_by i).

Definition consistent (db : DB) : Prop :=
  map_Forall (λ _, lead_ok db) (leads db)
  ∧ map_Forall (λ _, task_ok db) (tasks db)
  ∧ map_Forall (λ _, interaction_ok db) (interactions db).

End Integrity.

(** ** Sample data

    Small instances of the library interfaces and a database in the manner
    of the seeder, used to run the routes on concrete requests. *)

Module Fixtures.
Import Models.
Local Open Scope string_scope.

Fixpoint has_at (s : string) : bool :=
  match s with
  | EmptyString => false
  | String c rest => Ascii.eqb c "@" || has_at rest
  end.

(** Tokens are readable: ["token-<id>"] is a valid token of user [<id>],
    ["expired"] is a token past its validity, anything else is garbage. *)
Definition jwt : Jwt.Lib :=
  {| Jwt.sign p _ _ _ := "token-" ++ pretty (default 0%Z (Jwt.userId p));
     Jwt.verify token _ _ :=
       if String.eqb token "expired" then inl Jwt.TokenExpiredError
       else if String.eqb token "token-1"
       then inr (Jwt.mkPayload (Some 1%Z) (Some "admin"))
       else if String.eqb token "token-2"
       then inr (Jwt.mkPayload (Some 2%Z) (Some "user"))
       else if String.eqb token "token-9"
       then inr (Jwt.mkPayload (Some 9%Z) (Some "user"))
       else inl Jwt.JsonWebTokenError |}.

Definition bcrypt : Bcrypt.Lib :=
  {| Bcrypt.hash p _ := "$2a$" ++ p;
     Bcrypt.compare p h := String.eqb ("$2a$" ++ p) h |}.

Definition validator : Validator.Lib := {| Validator.isEmail := has_at |}.

Definition joi : Joi.Lib :=
  {| Joi.email := has_at;
     Joi.number_of_string _ := None;
     Joi.array_of_string _ := None;
     Joi.date v := match v with JNum _ => true | _ => false end;
     Joi.template ty label := label ++ " fails " ++ ty |}.

(** An engine in the manner of SQLite: ["0.1e1"] is the key 1 and ["02"]
    the key 2, a negative [LIMIT] is no bound and a negative [OFFSET] skips
    nothing, and every customer counts as new. *)
Definition engine : Engine.Lib :=
  {| Engine.key_of_text s :=
       if String.eqb s "0.1e1" then inr (Some 1%Z)
       else if String.eqb s "02" then inr (Some 2%Z)
       else inr None;
     Engine.odd_window lim off :=
       match lim, off with
       | Some l, Some o =>
           inr (if (l <? 0)%Z then None else Some (Z.to_nat l), Z.to_nat o)
       | _, _ => inl "SQLITE_ERROR: no such column: NaN"
       end;
     Engine.newThisMonth cs _ := inr (Z.of_nat (length cs));
     Engine.conversion_error _ _ := "SQLITE_ERROR: near INTERVAL: syntax error" |}.

Definition adminUser : User.t :=
  User.mk "Admin User" "admin@crm.com" "$2a$admin123" User.admin 0 0.

Definition regularUser : User.t :=
  User.mk "Regular User" "user@crm.com" "$2a$user123" User.user 0 0.

Definition acme : Customer.t :=
  Customer.mk "Acme Corporation" (Some "contact@acme.com") (Some "+1-555-0123")
    (Some "Acme Corp") ["Enterprise"; "Technology"] None 0 0.

Definition deal : Lead.t :=
  Lead.mk "Enterprise Software Deal" None Lead.qualified (Some 50000%Q) 1 (Some 1%Z) 0 0.


Definition follow_up : Task.t :=
  Task.mk "Follow up with Acme Corp" None Task.pending Task.high None
    (Some 1%Z) (Some 1%Z) 0 0.

Definition first_call : Interaction.t :=
  Interaction.mk 1 Interaction.call (Some "Initial contact made") 0 (Some 1%Z) 0 0.

Definition db : DB :=
  mkDB {[ 1%Z := adminUser; 2%Z := regularUser ]} {[ 1%Z := acme ]}
       {[ 1%Z := deal ]} {[ 1%Z := follow_up ]} {[ 1%Z := first_call ]} 3 2.



(** A request with [Authorization: Bearer <token>]. *)
Definition request (token : string) (id : string) (b : JValue) : Request :=
  mkRequest (Some ("Bearer " ++ token)) id None None b None.

End Fixtures.

(** ** Vocabulary of the statements *)

Module Spec.
Local Open Scope string_scope.

(** The user representations a response payload carries: the object under
    [user] and the objects of the array under [users]. *)
Definition user_representations (d : JValue) : list (list (string * JValue)) :=
  match d with
  | JObj fields =>
      match jget "user" fields with
      | Some (JObj u) => [u]
      | _ => []
      end
      ++ match jget "users" fields with
         | Some (JArr us) =>
             omap (λ v, match v with JObj u => Some u | _ => None end) us
         | _ => []
         end
  | _ => []
  end%list.

(** What a middleware answers carries no payload. *)
Definition answers_without_data (m : Middleware) : Prop :=
  ∀ req db now res, m req db now = inl res → data res = None.

Definition no_password (res : Response) : Prop :=
  ∀ d u, data res = Some d → u ∈ user_representations d → jget "password" u = None.



(** The members [name], [email] and [role] of a body, where present, are
    strings, and [role] names a declared role: the values the attributes of
    [User] are declared for. *)
Definition typed_user_body (b : JValue) : Prop :=
  ∀ fields key v,
    b = JObj fields → key ∈ ["name"; "email"; "role"] → jget key fields = Some v →
    ∃ s, v = JStr s ∧ (key = "role" → is_Some (User.role_of_name s)).

(** The limit of a request reads as the integer [L]: [Number] and
    [parseInt] find [L] in the member of the query string, or the member is
    absent and [L] is the default. *)
Definition integer_limit (limit : option string) (L : Z) : Prop :=
  ListQuery.to_number limit 10 = JS.Finite (inject_Z L)
  ∧ ListQuery.to_integer limit 10 = Some L.



End Spec.

(** * Properties *)

Import Models.

(** ** JSON objects *)

Lemma jget_jdelete_eq key fields : jget key (jdelete key fields) = None.
Proof.
  induction fields as [|[k v] rest IH]; simpl; [done|].
  destruct (String.eqb k key) eqn:E; simpl; [done|]. by rewrite E.
Qed.

Lemma jget_jdelete_ne key key' fields :
  key ≠ key' → jget key' (jdelete key fields) = jget key' fields.
Proof.
  intros Hne. induction fields as [|[k v] rest IH]; simpl; [done|].
  destruct (String.eqb k key) eqn:E; simpl.
  - apply String.eqb_eq in E. subst k.
    destruct (String.eqb key key') eqn:E'; [|done].
    apply String.eqb_eq in E'. contradiction.
  - by rewrite IH.
Qed.

(** ** Pagination *)

Section PaginationFacts.
Import Pagination.
Context {A : Type}.
Implicit Types (matching : list A) (L : Z).

Lemma ceil_div_le_mul a b : 0 < b → a ≤ ceil_div a b * b.
Proof.
  intros Hb. unfold ceil_div.
  pose proof (Z.div_mod (- a) b ltac:(lia)) as Hdm.
  pose proof (Z.mod_pos_bound (- a) b Hb). nia.
Qed.

Lemma ceil_div_nonneg a b : 0 < b → 0 ≤ a → 0 ≤ ceil_div a b.
Proof.
  intros Hb Ha. unfold ceil_div.
  assert (- a / b ≤ 0); [|lia].
  apply Z.div_le_upper_bound; lia.
Qed.

(** [ceil_div a b] is the least [k] with [a ≤ k * b]. *)
Lemma ceil_div_spec a b k : 0 < b → (ceil_div a b ≤ k ↔ a ≤ k * b).
Proof.
  intros Hb. unfold ceil_div. split; intros Hk.
  - pose proof (Z.div_mod (- a) b ltac:(lia)) as Hdm.
    pose proof (Z.mod_pos_bound (- a) b Hb). nia.
  - assert (- k ≤ - a / b); [|lia].
    apply Z.div_le_lower_bound; lia.
Qed.

Lemma list_route_rows matching (p : nat) L :
  1 ≤ L →
  list_route matching (Z.of_nat (S p)) L
  = Some (take (Z.to_nat L) (drop (p * Z.to_nat L) matching),
          mkPagination (Z.of_nat (S p)) L (Z.of_nat (length matching))
                       (Some (ceil_div (Z.of_nat (length matching)) L))).
Proof.
  intros HL. unfold list_route, findAndCountAll.
  assert (Hoff : (Z.of_nat (S p) - 1) * L = Z.of_nat (p * Z.to_nat L)).
  { rewrite Nat2Z.inj_mul, Z2Nat.id by lia. lia. }
  rewrite Hoff, Nat2Z.id.
  destruct (Z.ltb_spec L 0); [lia|].
  destruct (Z.ltb_spec (Z.of_nat (p * Z.to_nat L)) 0); [lia|].
  destruct (Z.eqb_spec L 0); [lia|]. done.
Qed.


End PaginationFacts.

(** ** [parseInt] reads back the decimal literal of an integer *)

Section ParseInt.
Import JS.

Lemma digit_of_pretty_N_char (d : N) :
  (d < 10)%N → digit_of 10 (pretty_N_char d) = Some (Z.of_N d).
Proof.
  intros Hd.
  assert (d = 0 ∨ d = 1 ∨ d = 2 ∨ d = 3 ∨ d = 4 ∨ d = 5 ∨ d = 6 ∨ d = 7
          ∨ d = 8 ∨ d = 9)%N as Hcases by lia.
  repeat (destruct Hcases as [-> | Hcases]; [reflexivity|]).
  by subst.
Qed.

(** Reading the digits of [x > 0] written in front of [s] continues with
    [s] and the accumulator [x]. *)
Lemma parse_digits_pretty_N_go (x : N) : ∀ s : string,
  (0 < x)%N →
  parse_digits 10 (pretty_N_go x s) None = parse_digits 10 s (Some (Z.of_N x)).
Proof.
  induction (N.lt_wf_0 x) as [x _ IH]. intros s Hx.
  rewrite pretty_N_go_step by done.
  destruct (decide (x `div` 10 = 0)%N) as [Hz|Hnz].
  - rewrite Hz, pretty_N_go_0. simpl.
    assert (x < 10)%N as Hlt by (apply N.div_small_iff in Hz; lia).
    rewrite N.mod_small by done.
    rewrite digit_of_pretty_N_char by done. simpl.
    do 2 f_equal; lia.
  - assert (0 < x `div` 10)%N as Hpos by (apply N.neq_0_lt_0; done).
    rewrite IH; [|by apply N.div_lt|done]. simpl.
    rewrite digit_of_pretty_N_char by (by apply N.mod_lt). simpl.
    do 2 f_equal.
    rewrite (N.div_mod x 10) at 3 by lia. lia.
Qed.

Lemma pretty_N_go_head (x : N) : ∀ s : string,
  (0 < x)%N →
  ∃ d rest, (0 < d < 10)%N ∧ pretty_N_go x s = String (pretty_N_char d) rest.
Proof.
  induction (N.lt_wf_0 x) as [x _ IH]. intros s Hx.
  rewrite pretty_N_go_step by done.
  destruct (decide (x `div` 10 = 0)%N) as [Hz|Hnz].
  - rewrite Hz, pretty_N_go_0.
    assert (x < 10)%N as Hlt by (apply N.div_small_iff in Hz; lia).
    exists x, s. rewrite N.mod_small by done. split; [lia|done].
  - apply IH; [by apply N.div_lt|by apply N.neq_0_lt_0].
Qed.

Lemma parseInt_unsigned (d : N) (rest : string) :
  (0 < d < 10)%N →
  parseInt (String (pretty_N_char d) rest)
  = parse_digits 10 (String (pretty_N_char d) rest) None.
Proof.
  intros Hd.
  assert (d = 1 ∨ d = 2 ∨ d = 3 ∨ d = 4 ∨ d = 5 ∨ d = 6 ∨ d = 7
          ∨ d = 8 ∨ d = 9)%N as Hcases by lia.
  assert (∀ o : option Z,
             match o with Some v => Some (1 * v) | None => None end = o) as Hone.
  { intros [v|]; [|done]. f_equal; lia. }
  repeat (destruct Hcases as [-> | Hcases]; [apply Hone|]).
  subst. apply Hone.
Qed.

Lemma parseInt_negative (d : N) (rest : string) :
  (0 < d < 10)%N →
  parseInt (String "-" (String (pretty_N_char d) rest))
  = Z.opp <$> parse_digits 10 (String (pretty_N_char d) rest) None.
Proof.
  intros Hd.
  assert (d = 1 ∨ d = 2 ∨ d = 3 ∨ d = 4 ∨ d = 5 ∨ d = 6 ∨ d = 7
          ∨ d = 8 ∨ d = 9)%N as Hcases by lia.
  assert (∀ o : option Z,
             match o with Some v => Some (-1 * v) | None => None end
             = Z.opp <$> o) as Hneg.
  { intros [v|]; [|done]. simpl; f_equal; lia. }
  repeat (destruct Hcases as [-> | Hcases]; [apply Hneg|]).
  subst. apply Hneg.
Qed.

Lemma parseInt_pretty_pos (p : positive) : parseInt (pretty (Npos p)) = Some (Zpos p).
Proof.
  unfold pretty, pretty_N. rewrite decide_False by done.
  destruct (pretty_N_go_head (Npos p) "" ltac:(lia)) as (d & rest & Hd & Heq).
  rewrite Heq, parseInt_unsigned, <- Heq by done.
  by rewrite parse_digits_pretty_N_go.
Qed.

(** [parseInt(String(z)) = z]. *)
Lemma parseInt_pretty (z : Z) : parseInt (pretty z) = Some z.
Proof.
  destruct z as [|p|p]; [done|apply parseInt_pretty_pos|].
  unfold pretty, pretty_Z, pretty, pretty_positive, pretty, pretty_N.
  rewrite decide_False by done.
  destruct (pretty_N_go_head (Npos p) "" ltac:(lia)) as (d & rest & Hd & Heq).
  rewrite Heq.
  change ("-" +:+ String (pretty_N_char d) rest)
    with (String "-" (String (pretty_N_char d) rest)).
  rewrite parseInt_negative, <- Heq by done.
  by rewrite parse_digits_pretty_N_go.
Qed.

Context `{Engine.Lib}.

(** The decimal literal of a key denotes the key, on every engine. *)
Lemma pk_of_param_pretty (z : Z) :
  Sequelize.pk_of_param (pretty z) = inr (Some z).
Proof.
  unfold Sequelize.pk_of_param. rewrite parseInt_pretty.
  by rewrite String.eqb_refl.
Qed.

Lemma findByPk_pretty {Row} (tbl : gmap Z Row) (z : Z) :
  Sequelize.findByPk (pretty z) tbl = inr ((λ r, (z, r)) <$> tbl !! z).
Proof.
  unfold Sequelize.findByPk. rewrite pk_of_param_pretty.
  by destruct (tbl !! z).
Qed.

End ParseInt.

(** ** Rounding to a double *)

Section DoubleFacts.
Local Open Scope Q_scope.
Import Double.

Lemma two_neq_0 : ~ 2 == 0.
Proof. discriminate. Qed.

Lemma pow2_pos e : 0 < 2 ^ e.
Proof. apply Qpower_0_lt. reflexivity. Qed.

Lemma pow2_Z e : (0 <= e)%Z -> 2 ^ e == inject_Z (2 ^ e).
Proof. intros He. symmetry. apply (Zpower_Qpower 2 e He). Qed.

Lemma pow2_le a b : (a <= b)%Z -> 2 ^ a <= 2 ^ b.
Proof. intros. apply Qpower_le_compat_l; [assumption | discriminate]. Qed.

Lemma pow2_lt a b : (a < b)%Z -> 2 ^ a < 2 ^ b.
Proof. intros. apply Qpower_lt_compat_l; [assumption | reflexivity]. Qed.

Lemma pow2_succ e : 2 ^ (e + 1) == 2 * 2 ^ e.
Proof. rewrite Qpower_plus by apply two_neq_0. change (2 ^ 1) with 2. ring. Qed.

Lemma ilog2_spec x : 0 < x -> 2 ^ ilog2 x <= x /\ x < 2 ^ (ilog2 x + 1).
Proof.
  intros Hx. destruct x as [n d]. unfold ilog2. cbn [Qnum Qden].
  assert (Hn : (0 < n)%Z) by (unfold Qlt in Hx; simpl in Hx; lia).
  set (a := Z.log2 n). set (b := Z.log2 (Z.pos d)).
  destruct (Z.log2_spec n Hn) as [Ha1 Ha2]. fold a in Ha1, Ha2.
  destruct (Z.log2_spec (Z.pos d) ltac:(lia)) as [Hb1 Hb2]. fold b in Hb1, Hb2.
  assert (Ha0 : (0 <= a)%Z) by apply Z.log2_nonneg.
  assert (Hb0 : (0 <= b)%Z) by apply Z.log2_nonneg.
  assert (Hup : n # d < 2 ^ (a - b + 1)).
  { replace (a - b + 1)%Z with ((a + 1) - b)%Z by ring.
    rewrite Qpower_minus by apply two_neq_0.
    rewrite (pow2_Z (a + 1)), (pow2_Z b) by lia.
    apply Qlt_shift_div_l.
    - change 0 with (inject_Z 0). rewrite <- Zlt_Qlt. lia.
    - unfold Qlt, Qmult, inject_Z; cbn [Qnum Qden].
      replace (Z.succ a) with (a + 1)%Z in Ha2 by lia. nia. }
  assert (Hlow : 2 ^ (a - b - 1) < n # d).
  { replace (a - b - 1)%Z with (a - (b + 1))%Z by ring.
    rewrite Qpower_minus by apply two_neq_0.
    rewrite (pow2_Z a), (pow2_Z (b + 1)) by lia.
    apply Qlt_shift_div_r.
    - change 0 with (inject_Z 0). rewrite <- Zlt_Qlt. lia.
    - unfold Qlt, Qmult, inject_Z; cbn [Qnum Qden].
      replace (Z.succ b) with (b + 1)%Z in Hb2 by lia. nia. }
  destruct (Qle_bool (2 ^ (a - b)) (n # d)) eqn:Hk.
  - apply Qle_bool_iff in Hk. split; assumption.
  - assert (Hlt : n # d < 2 ^ (a - b)).
    { apply Qnot_le_lt. intros Hle. apply Qle_bool_iff in Hle. congruence. }
    replace (a - b - 1 + 1)%Z with (a - b)%Z by ring.
    split; [apply Qlt_le_weak|]; assumption.
Qed.

Lemma nearest_even_error y : Qabs (inject_Z (nearest_even y) - y) <= 1 # 2.
Proof.
  unfold nearest_even.
  pose proof (Qfloor_le y) as Hlo. pose proof (Qlt_floor y) as Hhi.
  rewrite inject_Z_plus in Hhi. change (inject_Z 1) with 1 in Hhi.
  apply Qabs_Qle_condition.
  destruct (Qcompare (y - inject_Z (Qfloor y)) (1 # 2)) eqn:Hc.
  - apply Qeq_alt in Hc.
    destruct (Z.even (Qfloor y)); [|rewrite inject_Z_plus; change (inject_Z 1) with 1];
      split; lra.
  - apply Qlt_alt in Hc. split; lra.
  - apply Qgt_alt in Hc. rewrite inject_Z_plus. change (inject_Z 1) with 1.
    split; lra.
Qed.

Lemma nearest_even_integer y z : y == inject_Z z -> nearest_even y = z.
Proof.
  intros Hy. unfold nearest_even.
  assert (Hf : Qfloor y = z) by (rewrite Hy; apply Qfloor_Z).
  rewrite Hf.
  assert (Hc : Qcompare (y - inject_Z z) (1 # 2) = Lt).
  { apply Qlt_alt. rewrite Hy.
    setoid_replace (inject_Z z - inject_Z z) with 0 using relation Qeq by ring.
    reflexivity. }
  rewrite Hc. reflexivity.
Qed.

Lemma round_comp x y : x == y -> round x = round y.
Proof. intros Hxy. unfold round. rewrite (Qred_complete x y Hxy). reflexivity. Qed.

Lemma eta_pos : 0 < eta.
Proof. apply pow2_pos. Qed.

Lemma eta_small : eta <= 1 # 2 ^ 128.
Proof.
  unfold eta. apply Qle_trans with (2 ^ (-128)); [apply pow2_le; lia|].
  apply Qle_lteq. right. reflexivity.
Qed.

Lemma round_pos_error x :
  0 < x -> Qabs (round_pos x - x) <= x * u + eta.
Proof.
  intros Hx0. destruct (ilog2_spec x Hx0) as [Hlo Hhi].
  unfold round_pos.
  set (e := Z.max (ilog2 x - 52) (-1074)).
  pose proof (pow2_pos e) as Hp.
  pose proof (nearest_even_error (x / 2 ^ e)) as Herr.
  set (m := inject_Z (nearest_even (x / 2 ^ e))) in *.
  assert (Hhalf : 2 ^ e == 2 * 2 ^ (e - 1)).
  { rewrite <- pow2_succ. replace (e - 1 + 1)%Z with e by ring. reflexivity. }
  assert (Habs : Qabs (m * 2 ^ e - x) <= 2 ^ (e - 1)).
  { set (p := 2 ^ e) in *. set (h := 2 ^ (e - 1)) in *.
    apply Qabs_Qle_condition in Herr. destruct Herr as [H1 H2].
    assert (Hdiv : x / p * p == x) by (field; lra).
    assert (H1' : - (1 # 2) * p <= (m - x / p) * p)
      by (apply Qmult_le_compat_r; lra).
    assert (H2' : (m - x / p) * p <= (1 # 2) * p)
      by (apply Qmult_le_compat_r; lra).
    assert (Heq : m * p - x == (m - x / p) * p) by (rewrite <- Hdiv at 1; ring).
    apply Qabs_Qle_condition. rewrite Heq. split; lra. }
  eapply Qle_trans; [exact Habs|].
  pose proof eta_pos as Heta.
  destruct (Z.max_spec (ilog2 x - 52) (-1074)) as [[Hlt He]|[Hge He]]; fold e in He.
  - rewrite He. change (2 ^ (-1074 - 1)) with eta.
    assert (0 <= x * u) by (apply Qmult_le_0_compat; [lra|discriminate]). lra.
  - assert (Hxe : 2 ^ (e - 1) * 2 ^ 53 <= x).
    { rewrite <- Qpower_plus by apply two_neq_0.
      replace (e - 1 + 53)%Z with (ilog2 x) by lia. exact Hlo. }
    set (h := 2 ^ (e - 1)) in *. unfold u.
    change (2 ^ 53) with 9007199254740992 in Hxe.
    change (1 # 2 ^ 53) with (1 # 9007199254740992). lra.
Qed.

Lemma nearest_even_nonneg y : 0 <= y -> (0 <= nearest_even y)%Z.
Proof.
  intros Hy. unfold nearest_even.
  assert (0 <= Qfloor y)%Z by (change 0%Z with (Qfloor 0); by apply Qfloor_resp_le).
  destruct (Qcompare _ _); [destruct (Z.even _)|..]; lia.
Qed.

Lemma round_pos_nonneg x : 0 < x -> 0 <= round_pos x.
Proof.
  intros Hx. unfold round_pos.
  apply Qmult_le_0_compat; [|apply Qlt_le_weak, pow2_pos].
  change 0 with (inject_Z 0). rewrite <- Zle_Qle. apply nearest_even_nonneg.
  apply Qle_shift_div_l; [apply pow2_pos|]. lra.
Qed.

Lemma round_of_pos x : 0 < x -> round x == round_pos (Qred x).
Proof.
  intros Hx. unfold round.
  assert (Qcompare 0 (Qred x) = Lt) as -> by (apply Qlt_alt; by rewrite Qred_correct).
  apply Qred_correct.
Qed.

Lemma round_0 x : x == 0 -> round x = 0.
Proof.
  intros Hx. unfold round.
  assert (Qcompare 0 (Qred x) = Eq) as ->
    by (apply Qeq_alt; by rewrite Qred_correct, Hx).
  reflexivity.
Qed.

(** The error of one rounding, for [0 <= x]. *)
Lemma round_error x : 0 <= x -> Qabs (round x - x) <= x * u + eta.
Proof.
  intros Hx. apply Qle_lteq in Hx as [Hx|Hx].
  - rewrite (round_of_pos x Hx).
    assert (HQ : 0 < Qred x) by (by rewrite Qred_correct).
    pose proof (round_pos_error (Qred x) HQ) as Herr.
    pose proof (Qred_correct x) as Hq.
    set (r := round_pos (Qred x)) in *. clearbody r.
    by rewrite Hq in Herr.
  - rewrite (round_0 x) by (by symmetry). rewrite <- Hx.
    pose proof eta_pos. unfold u.
    setoid_replace (0 - 0) with 0 using relation Qeq by ring. simpl. lra.
Qed.

Lemma round_nonneg x : 0 <= x -> 0 <= round x.
Proof.
  intros Hx. apply Qle_lteq in Hx as [Hx|Hx].
  - rewrite (round_of_pos x Hx). apply round_pos_nonneg. by rewrite Qred_correct.
  - rewrite (round_0 x) by (by symmetry). apply Qle_refl.
Qed.

Lemma ilog2_inject_Z z : (0 < z)%Z -> ilog2 (inject_Z z) = Z.log2 z.
Proof.
  intros Hz.
  assert (Hq : 0 < inject_Z z) by (change 0 with (inject_Z 0); by rewrite <- Zlt_Qlt).
  destruct (ilog2_spec _ Hq) as [Hlo Hhi].
  set (l := ilog2 (inject_Z z)) in *.
  assert (Hl : (0 <= l)%Z).
  { apply Z.lt_succ_r. apply (Qpower_lt_compat_l_inv 2); [|reflexivity].
    replace (Z.succ l) with (l + 1)%Z by lia.
    eapply Qle_lt_trans; [|exact Hhi]. change (2 ^ 0) with (inject_Z 1).
    rewrite <- Zle_Qle. lia. }
  symmetry. apply Z.log2_unique; [exact Hl|].
  rewrite (pow2_Z l), <- Zle_Qle in Hlo by lia.
  rewrite (pow2_Z (l + 1)), <- Zlt_Qlt in Hhi by lia.
  replace (Z.succ l) with (l + 1)%Z by lia. lia.
Qed.

Lemma Qred_inject_Z c : Qred (inject_Z c) = inject_Z c.
Proof. apply Qred_identity. simpl. apply Z.gcd_1_r. Qed.

Lemma round_pos_integer z :
  (0 < z <= 2 ^ 53)%Z -> round_pos (inject_Z z) == inject_Z z.
Proof.
  intros [Hz Hmax].
  destruct (Z.eq_dec z (2 ^ 53)%Z) as [->|Hne]; [reflexivity|].
  unfold round_pos. rewrite ilog2_inject_Z by exact Hz.
  assert (Hl : (0 <= Z.log2 z <= 52)%Z).
  { split; [apply Z.log2_nonneg|].
    assert (Z.log2 z < 53)%Z; [|lia]. apply Z.log2_lt_pow2; lia. }
  rewrite Z.max_l by lia.
  set (e := (Z.log2 z - 52)%Z).
  assert (Hp : 2 ^ e == / inject_Z (2 ^ (- e))).
  { rewrite <- pow2_Z by lia. rewrite <- Qpower_opp.
    replace (- - e)%Z with e by ring. reflexivity. }
  assert (Hpos : 0 < inject_Z (2 ^ (- e))).
  { change 0 with (inject_Z 0). rewrite <- Zlt_Qlt. apply Z.pow_pos_nonneg; lia. }
  assert (Hy : inject_Z z / 2 ^ e == inject_Z (z * 2 ^ (- e))).
  { rewrite Hp, inject_Z_mult. field. lra. }
  rewrite (nearest_even_integer _ _ Hy), Hp, inject_Z_mult. field. lra.
Qed.

(** Integers up to [2^53] are doubles. *)
Lemma round_integer z : (Z.abs z <= 2 ^ 53)%Z -> round (inject_Z z) = inject_Z z.
Proof.
  intros Hz. unfold round. rewrite Qred_inject_Z.
  destruct z as [|p|p].
  - reflexivity.
  - change (Qcompare 0 (inject_Z (Z.pos p))) with Lt.
    transitivity (Qred (inject_Z (Z.pos p))); [|apply Qred_inject_Z].
    apply Qred_complete, round_pos_integer. lia.
  - change (Qcompare 0 (inject_Z (Z.neg p))) with Gt.
    transitivity (Qred (inject_Z (Z.neg p))); [|apply Qred_inject_Z].
    apply Qred_complete.
    change (- inject_Z (Z.neg p)) with (inject_Z (Z.pos p)).
    rewrite round_pos_integer by lia. reflexivity.
Qed.

End DoubleFacts.

(** ** Numbers of JavaScript on integers *)

Section NumberFacts.
Import Double JS.
Local Open Scope Q_scope.

Lemma below_overflow z : (Z.abs z ≤ 2 ^ 53)%Z → Qabs (inject_Z z) < 2 ^ 1024.
Proof.
  intros Hz. apply Qle_lt_trans with (2 ^ 53); [|by apply pow2_lt].
  change (Qabs (inject_Z z)) with (inject_Z (Z.abs z)).
  rewrite (pow2_Z 53) by done. by rewrite <- Zle_Qle.
Qed.

(** An integer up to [2^53] in magnitude is a number. *)
Lemma of_Q_integer q z :
  q == inject_Z z → (Z.abs z ≤ 2 ^ 53)%Z → of_Q q = Finite (inject_Z z).
Proof.
  intros Hq Hz. unfold of_Q.
  rewrite (round_comp _ _ Hq), (round_integer z Hz).
  destruct (Qle_bool (2 ^ 1024) (Qabs (inject_Z z))) eqn:Hover; [|done].
  apply Qle_bool_iff in Hover. pose proof (below_overflow z Hz). lra.
Qed.

Lemma minus_integers a b :
  (Z.abs (a - b) ≤ 2 ^ 53)%Z →
  minus (Finite (inject_Z a)) (Finite (inject_Z b)) = Finite (inject_Z (a - b)).
Proof.
  intros Hz. apply of_Q_integer; [|done].
  unfold Z.sub. by rewrite inject_Z_plus, inject_Z_opp.
Qed.

Lemma times_integers a b :
  (Z.abs (a * b) ≤ 2 ^ 53)%Z →
  times (Finite (inject_Z a)) (Finite (inject_Z b)) = Finite (inject_Z (a * b)).
Proof. intros Hz. apply of_Q_integer; [|done]. by rewrite inject_Z_mult. Qed.

(** [parseInt(String(z)) = z] for the number of an integer. *)
Lemma parseInt_number_integer z :
  (0 ≤ z ≤ 2 ^ 53)%Z → parseInt_number (Finite (inject_Z z)) = Some z.
Proof.
  intros [Hz0 Hz1]. unfold parseInt_number.
  destruct (decide (z = 0)%Z) as [->|Hne]; [done|].
  assert (1 <= inject_Z z) as Hone.
  { change 1 with (inject_Z 1). rewrite <- Zle_Qle. lia. }
  assert (is_zero (inject_Z z) = false) as ->.
  { unfold is_zero. destruct (Qeq_bool (inject_Z z) 0) eqn:Heq; [|done].
    apply Qeq_bool_iff in Heq. lra. }
  assert (Qabs (inject_Z z) == inject_Z z) as Habs by (apply Qabs_pos; lra).
  assert (Qle_bool (Double.round (1 # 1000000)) (Qabs (inject_Z z)) = true) as ->.
  { apply Qle_bool_iff. rewrite Habs.
    apply Qle_trans with 1; [by vm_compute|done]. }
  assert (Qle_bool (pow10 21) (Qabs (inject_Z z)) = false) as ->.
  { destruct (Qle_bool (pow10 21) (Qabs (inject_Z z))) eqn:Hle; [|done].
    apply Qle_bool_iff in Hle. rewrite Habs in Hle.
    change (pow10 21) with (inject_Z (10 ^ 21)) in Hle.
    rewrite <- Zle_Qle in Hle. lia. }
  assert (is_negative (inject_Z z) = false) as ->.
  { unfold is_negative. rewrite (proj2 (Qle_bool_iff 0 (inject_Z z))); [done|lra]. }
  cbn [andb negb]. by rewrite Qfloor_Z.
Qed.

Lemma Qceiling_unique x k :
  inject_Z (k - 1) < x → x <= inject_Z k → Qceiling x = k.
Proof.
  intros Hlo Hhi.
  pose proof (Qle_ceiling x) as H1. pose proof (Qceiling_lt x) as H2.
  assert (inject_Z (k - 1) < inject_Z (Qceiling x)) as Ha by lra.
  assert (inject_Z (Qceiling x - 1) < inject_Z k) as Hb by lra.
  rewrite <- Zlt_Qlt in Ha, Hb. lia.
Qed.

(** [Math.ceil(N / L)] in doubles is the integer [⌈N / L⌉]. *)
Lemma ceil_divide_integers (N L : Z) :
  (0 ≤ N < 2 ^ 53)%Z → (1 ≤ L ≤ 2 ^ 53)%Z →
  ceil (divide (Finite (inject_Z N)) (Finite (inject_Z L)))
  = Finite (inject_Z (Pagination.ceil_div N L)).
Proof.
  intros [HN0 HN1] [HL0 HL1].
  set (k := Pagination.ceil_div N L).
  assert ((k - 1) * L < N ≤ k * L)%Z as [Hk1 Hk2].
  { split; [|apply ceil_div_le_mul; lia].
    destruct (Z.lt_ge_cases ((k - 1) * L) N) as [|Hge]; [done|].
    apply (ceil_div_spec N L (k - 1)) in Hge; lia. }
  assert (0 ≤ k ≤ N)%Z as [Hk0 HkN].
  { split; [apply ceil_div_nonneg; lia|]. apply ceil_div_spec; [lia|]. nia. }
  assert (0 < inject_Z L) as Ht.
  { change 0 with (inject_Z 0). rewrite <- Zlt_Qlt. lia. }
  unfold divide.
  assert (is_zero (inject_Z L) = false) as ->.
  { unfold is_zero. destruct (Qeq_bool (inject_Z L) 0) eqn:Heq; [|done].
    apply Qeq_bool_iff in Heq. lra. }
  set (q := inject_Z N / inject_Z L).
  assert (q * inject_Z L == inject_Z N) as Hq by (unfold q; field; lra).
  assert (0 <= q) as Hq0.
  { apply Qle_shift_div_l; [done|]. rewrite Qmult_0_l.
    change 0 with (inject_Z 0). by rewrite <- Zle_Qle. }
  (* the double of the quotient lies in the same unit interval *)
  assert (inject_Z (k - 1) < round q ∧ round q <= inject_Z k) as [Hlo Hhi].
  { destruct (decide (N = k * L)%Z) as [Hdiv|Hndiv].
    - assert (q == inject_Z k) as Hqk.
      { unfold q. rewrite Hdiv, inject_Z_mult. field. lra. }
      rewrite (round_comp _ _ Hqk), round_integer by lia.
      split; [rewrite <- Zlt_Qlt; lia|apply Qle_refl].
    - pose proof (round_error q Hq0) as Herr.
      apply Qabs_Qle_condition in Herr. destruct Herr as [He1 He2].
      pose proof eta_pos as Heta0. pose proof eta_small as Heta1.
      assert (inject_Z N + 1 <= inject_Z k * inject_Z L) as Hup.
      { change 1 with (inject_Z 1).
        rewrite <- inject_Z_plus, <- inject_Z_mult, <- Zle_Qle. lia. }
      assert (inject_Z (k - 1) * inject_Z L + 1 <= inject_Z N) as Hdown.
      { change 1 with (inject_Z 1).
        rewrite <- inject_Z_mult, <- inject_Z_plus, <- Zle_Qle. lia. }
      assert (inject_Z N <= 9007199254740991) as HNq.
      { change 9007199254740991 with (inject_Z (2 ^ 53 - 1)).
        rewrite <- Zle_Qle. lia. }
      assert (inject_Z L <= 9007199254740992) as HLq.
      { change 9007199254740992 with (inject_Z (2 ^ 53)). by rewrite <- Zle_Qle. }
      set (r := round q) in *. set (t := inject_Z L) in *.
      set (n := inject_Z N) in *. set (e := eta) in *.
      unfold u in *. change (1 # 2 ^ 53) with (1 # 9007199254740992) in *.
      change (1 # 2 ^ 128) with (1 # 340282366920938463463374607431768211456) in *.
      assert ((r - q) * t <= (q * (1 # 9007199254740992) + e) * t) as H1
        by (apply Qmult_le_compat_r; lra).
      assert ((- (q * (1 # 9007199254740992) + e)) * t <= (r - q) * t) as H2
        by (apply Qmult_le_compat_r; lra).
      assert ((q * (1 # 9007199254740992) + e) * t
              == n * (1 # 9007199254740992) + e * t) as Hexp
        by (rewrite <- Hq; ring).
      assert (e * t
              <= (1 # 340282366920938463463374607431768211456) * 9007199254740992)
        as Het.
      { apply Qle_trans with ((1 # 340282366920938463463374607431768211456) * t).
        - apply Qmult_le_compat_r; lra.
        - apply Qmult_le_l; [done|lra]. }
      assert ((r - q) * t == r * t - n) as Hrq by (rewrite <- Hq; ring).
      clearbody e r q n t k.
      split.
      + apply (Qmult_lt_r _ _ t Ht). lra.
      + apply (Qmult_le_r _ _ t Ht). lra. }
  assert (of_Q q = Finite (round q)) as ->.
  { unfold of_Q. destruct (Qle_bool (2 ^ 1024) (Qabs (round q))) eqn:Hover; [|done].
    apply Qle_bool_iff in Hover.
    pose proof (below_overflow k ltac:(lia)) as Hb.
    assert (Qabs (round q) <= Qabs (inject_Z k)) as Hle.
    { rewrite !Qabs_pos; [done| |by apply round_nonneg].
      change 0 with (inject_Z 0). by rewrite <- Zle_Qle. }
    lra. }
  simpl. by rewrite (Qceiling_unique _ k Hlo Hhi).
Qed.

End NumberFacts.

(** ** [Number] reads back the decimal literal of an integer *)

Section NumberOfString.
Import JS.

Lemma skip_digits_pretty_N_go (x : N) : ∀ s : string,
  (0 < x)%N → skip_digits 10 (pretty_N_go x s) = skip_digits 10 s.
Proof.
  induction (N.lt_wf_0 x) as [x _ IH]. intros s Hx.
  rewrite pretty_N_go_step by done.
  destruct (decide (x `div` 10 = 0)%N) as [Hz|Hnz].
  - rewrite Hz, pretty_N_go_0. simpl.
    by rewrite digit_of_pretty_N_char by (by apply N.mod_lt).
  - assert (0 < x `div` 10)%N as Hpos by (apply N.neq_0_lt_0; done).
    rewrite IH; [|by apply N.div_lt|done]. simpl.
    by rewrite digit_of_pretty_N_char by (by apply N.mod_lt).
Qed.

Lemma Number_unsigned (d : N) (rest : string) :
  (0 < d < 10)%N →
  Number (String (pretty_N_char d) rest)
  = match decimal_literal (String (pretty_N_char d) rest) with
    | Some v => of_Q v
    | None => NaN
    end.
Proof.
  intros Hd.
  assert (d = 1 ∨ d = 2 ∨ d = 3 ∨ d = 4 ∨ d = 5 ∨ d = 6 ∨ d = 7
          ∨ d = 8 ∨ d = 9)%N as Hcases by lia.
  repeat (destruct Hcases as [-> | Hcases]; [reflexivity|]).
  by subst.
Qed.

Lemma decimal_literal_pretty (x : N) :
  (0 < x)%N →
  ∃ v, decimal_literal (pretty_N_go x "") = Some v ∧ (v == inject_Z (Z.of_N x))%Q.
Proof.
  intros Hx. unfold decimal_literal.
  rewrite parse_digits_pretty_N_go, skip_digits_pretty_N_go by done.
  simpl. eexists. split; [reflexivity|].
  rewrite Z.mul_1_r, Z.add_0_r. unfold pow10. simpl. ring.
Qed.

Lemma Number_pretty_pos (p : positive) :
  Zpos p ≤ 2 ^ 53 → Number (pretty (Npos p)) = Finite (inject_Z (Zpos p)).
Proof.
  intros Hp. unfold pretty, pretty_N. rewrite decide_False by done.
  destruct (pretty_N_go_head (Npos p) "" ltac:(lia)) as (d & rest & Hd & Heq).
  rewrite Heq, Number_unsigned, <- Heq by done.
  destruct (decimal_literal_pretty (Npos p) ltac:(lia)) as (v & -> & Hv).
  apply of_Q_integer; [done|]. simpl in *. lia.
Qed.

(** [Number(String(z)) = z] up to [2^53]. *)
Lemma Number_pretty (z : Z) :
  0 ≤ z ≤ 2 ^ 53 → Number (pretty z) = Finite (inject_Z z).
Proof.
  intros [Hz0 Hz1]. destruct z as [|p|p]; [done|by apply Number_pretty_pos|lia].
Qed.

End NumberOfString.

(** ** Pagination on the query string *)

Section ListQueryFacts.
Import Pagination ListQuery.
Context `{Engine.Lib} {A : Type}.
Implicit Types (matching : list A) (L : Z) (limit : option string).

(** Page [p + 1] of a request whose limit reads as the integer [L]. *)
Lemma list_query_rows matching limit L (p : nat) :
  Spec.integer_limit limit L → 1 ≤ L ≤ 2 ^ 53 →
  Z.of_nat (length matching) < 2 ^ 53 →
  Z.of_nat (S p) ≤ 2 ^ 53 → Z.of_nat p * L ≤ 2 ^ 53 →
  list_route matching (Some (pretty (Z.of_nat (S p)))) limit
  = inr (take (Z.to_nat L) (drop (p * Z.to_nat L) matching),
         mkBlock (Some (Z.of_nat (S p))) (Some L) (Z.of_nat (length matching))
           (JS.Finite (inject_Z (ceil_div (Z.of_nat (length matching)) L)))).
Proof.
  intros [Hnum Hint] HL HN Hp HpL. unfold list_route.
  rewrite Hnum, Hint. unfold to_number at 1, to_integer.
  rewrite Number_pretty, parseInt_pretty by lia.
  change (JS.Finite 1) with (JS.Finite (inject_Z 1)).
  rewrite minus_integers by lia.
  replace (Z.of_nat (S p) - 1) with (Z.of_nat p) by lia.
  rewrite times_integers, parseInt_number_integer by lia.
  unfold findAndCountAll.
  assert ((0 <=? L) && (0 <=? Z.of_nat p * L) = true) as ->.
  { apply andb_true_iff. split; apply Z.leb_le; lia. }
  cbn [rows count]. rewrite ceil_divide_integers by lia.
  repeat f_equal. rewrite Z2Nat.inj_mul, Nat2Z.id by lia. done.
Qed.



(** On a page and a limit written as decimal literals, the body over
    integers that [Users.list_handler] follows answers as the body on the
    query string does. *)
Lemma list_route_refines matching (p : nat) L :
  1 ≤ L ≤ 2 ^ 53 → Z.of_nat (length matching) < 2 ^ 53 →
  Z.of_nat (S p) ≤ 2 ^ 53 → Z.of_nat p * L ≤ 2 ^ 53 →
  ∃ rs pg b,
    Pagination.list_route matching (Z.of_nat (S p)) L = Some (rs, pg)
    ∧ list_route matching (Some (pretty (Z.of_nat (S p)))) (Some (pretty L))
      = inr (rs, b)
    ∧ Users.pagination_json pg = block_json b.
Proof.
  intros HL HN Hp HpL.
  rewrite list_route_rows by lia.
  rewrite (list_query_rows _ _ L); [|split; simpl|..]; try done.
  - eexists _, _, _. split; [reflexivity|]. split; [reflexivity|]. done.
  - apply Number_pretty. lia.
  - apply parseInt_pretty.
Qed.

End ListQueryFacts.

(** [GET /api/users] with a page and a limit written as decimal literals:
    the handler over integers answers as the handler on the query string
    does. *)
Lemma users_list_refines `{Jwt.Lib, Validator.Lib, Engine.Lib} req db now (p : nat) L :
  query_page req = Some (Z.of_nat (S p)) → query_limit req = Some L →
  1 ≤ L ≤ 2 ^ 53 → Z.of_nat (size (users db)) < 2 ^ 53 →
  Z.of_nat (S p) ≤ 2 ^ 53 → Z.of_nat p * L ≤ 2 ^ 53 →
  Users.list_handler req db now
  = Users.list_query_handler (Some (pretty (Z.of_nat (S p)))) (Some (pretty L))
      req db now.
Proof.
  intros Hpage Hlimit HL HN Hp HpL.
  unfold Users.list_handler, Users.list_query_handler. rewrite Hpage, Hlimit.
  change (default 1 (Some (Z.of_nat (S p)))) with (Z.of_nat (S p)).
  change (default 10 (Some L)) with L.
  set (ordered := merge_sort _ _).
  assert (length ordered = size (users db)) as Hlen.
  { unfold ordered. rewrite merge_sort_Permutation. apply length_map_to_list. }
  destruct (list_route_refines ordered p L) as (rs & pg & b & -> & -> & ->);
    [done|by rewrite Hlen|done..].
Qed.




(** ** Token validation and the role gate ([middleware/auth.js]) *)

Section AuthFacts.
Context `{Jwt.Lib, Engine.Lib}.
Local Open Scope string_scope.

Lemma unauthenticated_shape msg :
  status (Auth.unauthenticated msg) = 401%Z
  ∧ code (Auth.unauthenticated msg) = Some "AUTHENTICATION_ERROR"
  ∧ success (Auth.unauthenticated msg) = false
  ∧ error (Auth.unauthenticated msg) = Some msg.
Proof. done. Qed.

(** What [authenticateToken] does once the header carries a token. *)
Lemma authenticateToken_token req db now token :
  Auth.bearer_token req = Some token → token ≠ "" →
  Auth.authenticateToken req db now =
    match Jwt.verify token Auth.secret now with
    | inr decoded =>
        match Jwt.userId decoded ≫= λ id, (λ u, (id, u)) <$> users db !! id with
        | Some u => inr (set_user req u)
        | None => inl (Auth.unauthenticated "User not found")
        end
    | inl Jwt.TokenExpiredError => inl (Auth.unauthenticated "Token expired")
    | inl _ => inl (Auth.unauthenticated "Invalid token")
    end.
Proof.
  intros Htok Hne. unfold Auth.authenticateToken. rewrite Htok.
  destruct (String.eqb_spec token ""); [done|].
  destruct (Jwt.verify token Auth.secret now) as [e|decoded]; [done|].
  destruct (Jwt.userId decoded) as [id|]; simpl; [|done].
  by destruct (users db !! id).
Qed.

(** C6. A bearer token that is expired, malformed, or names a user that
    does not exist is answered with status 401 and code
    [AUTHENTICATION_ERROR]; the answers to an expired and to a malformed
    token are the same envelope with a different [error] text. *)
Theorem token_validation_failures req db now token :
  Auth.bearer_token req = Some token → token ≠ "" →
  (Jwt.verify token Auth.secret now = inl Jwt.TokenExpiredError →
     Auth.authenticateToken req db now = inl (Auth.unauthenticated "Token expired"))
  ∧ (∀ e, Jwt.verify token Auth.secret now = inl e → e ≠ Jwt.TokenExpiredError →
       Auth.authenticateToken req db now = inl (Auth.unauthenticated "Invalid token"))
  ∧ (∀ decoded, Jwt.verify token Auth.secret now = inr decoded →
       (∀ id, Jwt.userId decoded = Some id → users db !! id = None) →
       Auth.authenticateToken req db now = inl (Auth.unauthenticated "User not found"))
  ∧ (∀ msg, status (Auth.unauthenticated msg) = 401%Z
            ∧ code (Auth.unauthenticated msg) = Some "AUTHENTICATION_ERROR"
            ∧ Auth.unauthenticated msg
              = mkResponse 401 false None None (Some msg) (Some "AUTHENTICATION_ERROR")).
Proof.
  intros Htok Hne.
  rewrite (authenticateToken_token req db now token Htok Hne).
  repeat split.
  - by intros ->.
  - intros e -> He. by destruct e.
  - intros decoded -> Hnone.
    destruct (Jwt.userId decoded) as [id|] eqn:Hid; simpl; [|done].
    by rewrite (Hnone id eq_refl).
Qed.

(** Whatever [authenticateToken] answers is a 401 [AUTHENTICATION_ERROR]. *)
Lemma authenticateToken_answers_401 req db now res :
  Auth.authenticateToken req db now = inl res →
  status res = 401%Z ∧ code res = Some "AUTHENTICATION_ERROR".
Proof.
  unfold Auth.authenticateToken.
  repeat case_match; intros; by simplify_eq.
Qed.

(** An accepted request carries the user the token names. *)
Lemma authenticateToken_next req db now req' :
  Auth.authenticateToken req db now = inr req' →
  ∃ id u, users db !! id = Some u ∧ req' = set_user req (id, u).
Proof.
  unfold Auth.authenticateToken.
  destruct (Auth.bearer_token req) as [token|]; [|done].
  destruct (String.eqb token ""); [done|].
  destruct (Jwt.verify token Auth.secret now) as [[]|decoded]; try done.
  destruct (Jwt.userId decoded) as [id|]; [|done].
  destruct (users db !! id) as [u|] eqn:Hu; [|done].
  intros [= <-]. eauto.
Qed.

Lemma requireRole_spec roles req db now :
  Auth.requireRole roles req db now =
    match user req with
    | None => inl (Auth.unauthenticated "Authentication required")
    | Some (_, u) =>
        if decide (User.role u ∈ roles) then inr req else inl Auth.forbidden
    end.
Proof.
  unfold Auth.requireRole, JS.includes.
  destruct (user req) as [[id u]|]; [|done].
  by destruct (decide (User.role u ∈ roles));
    [rewrite bool_decide_eq_true_2|rewrite bool_decide_eq_false_2].
Qed.

End AuthFacts.

Lemma token_validation_failures_witness :
  Auth.bearer_token (Fixtures.request "expired" "" JNull) = Some "expired"%string
  ∧ "expired"%string ≠ ""%string
  ∧ Auth.authenticateToken (H := Fixtures.jwt)
      (Fixtures.request "expired" "" JNull) Fixtures.db 0
    = inl (Auth.unauthenticated "Token expired").
Proof.
  split; [reflexivity|]. split; [discriminate|].
  apply (token_validation_failures (H := Fixtures.jwt)
           (Fixtures.request "expired" "" JNull) Fixtures.db 0 "expired"
           eq_refl ltac:(discriminate)).
  reflexivity.
Defined.

Section RouterFacts.
Context `{Jwt.Lib, Engine.Lib}.

(** A router that starts with [authenticateToken] and a role gate. *)
Lemma route_authenticated roles rest h req db now req' id u :
  Auth.authenticateToken req db now = inr req' →
  user req' = Some (id, u) →
  route (Auth.authenticateToken :: Auth.requireRole roles :: rest) h req db now
  = if decide (User.role u ∈ roles) then route rest h req' db now
    else (db, Auth.forbidden).
Proof.
  intros Hauth Hu. simpl. rewrite Hauth, requireRole_spec, Hu.
  by destruct (decide (User.role u ∈ roles)).
Qed.

Lemma route_app s1 s2 h : route (s1 ++ s2) h = route s1 (route s2 h).
Proof. induction s1 as [|m s1 IH]; simpl; [done|]. by rewrite IH. Qed.

End RouterFacts.

(** ** User management ([routes/users.js]) *)

Section UsersFacts.
Context `{Jwt.Lib, Validator.Lib, Engine.Lib}.
Local Open Scope string_scope.

(** C7. A route that declares a role set answers 401
    [AUTHENTICATION_ERROR] when no principal is attached to the request and
    403 [AUTHORIZATION_ERROR] when the principal's role is outside the set;
    a principal with role [user] asking for the user list gets the 403. *)
Theorem role_gate roles req db now :
  (user req = None →
     Auth.requireRole roles req db now
     = inl (Auth.unauthenticated "Authentication required"))
  ∧ (∀ id u, user req = Some (id, u) → User.role u ∉ roles →
       Auth.requireRole roles req db now = inl Auth.forbidden)
  ∧ (∀ req' id u, Auth.authenticateToken req db now = inr req' →
       user req' = Some (id, u) → User.role u = User.user →
       Users.list req db now = (db, Auth.forbidden))
  ∧ status (Auth.unauthenticated "Authentication required") = 401%Z
  ∧ code (Auth.unauthenticated "Authentication required")
    = Some "AUTHENTICATION_ERROR"
  ∧ status Auth.forbidden = 403%Z
  ∧ code Auth.forbidden = Some "AUTHORIZATION_ERROR".
Proof.
  repeat split.
  - intros Hu. by rewrite requireRole_spec, Hu.
  - intros id u Hu Hnot. rewrite requireRole_spec, Hu. by rewrite decide_False.
  - intros req' id u Hauth Hu Hrole. unfold Users.list, Users.stack, Auth.requireAdmin.
    rewrite (route_authenticated _ _ _ _ _ _ _ _ _ Hauth Hu).
    rewrite decide_False; [done|]. rewrite Hrole.
    intros Hin. inversion Hin as [|? ? ? Hnil]; subst. inversion Hnil.
Qed.

(** [GET /api/users] is an instance of the shared list arithmetic, over the
    users ordered by creation time, newest first. *)
Lemma users_list_page req db now (p : nat) L :
  query_page req = Some (Z.of_nat (S p)) → query_limit req = Some L → (1 ≤ L)%Z →
  let ordered := merge_sort Users.newest_first (map_to_list (users db)) in
  ∃ rows pg,
    Pagination.list_route ordered (Z.of_nat (S p)) L = Some (rows, pg)
    ∧ Users.list_handler req db now
      = (db, successResponse
               (JObj [("users", JArr (Users.public_user <$> rows));
                      ("pagination", Users.pagination_json pg)])
               "Success" 200).
Proof.
  intros Hp HL Hpos ordered. unfold Users.list_handler. rewrite Hp, HL. simpl.
  fold ordered. rewrite list_route_rows by done. eauto.
Qed.

Lemma findByPk_Some {Row} p (tbl : gmap Z Row) id r :
  Sequelize.findByPk p tbl = inr (Some (id, r)) →
  tbl !! id = Some r ∧ Sequelize.pk_of_param p = inr (Some id).
Proof.
  unfold Sequelize.findByPk.
  destruct (Sequelize.pk_of_param p) as [msg|[z|]]; [done| |done].
  destruct (tbl !! z) as [r'|] eqn:Hr; [|done].
  by intros [= <- <-].
Qed.

Lemma User_destroy_spec id db :
  User_destroy id db
  = inr (mkDB (delete id (users db)) (customers db)
           ((λ l, if decide (Lead.assigned_to l = Some id)
                  then Lead.mk (Lead.title l) (Lead.description l) (Lead.stage l)
                         (Lead.value l) (Lead.customer_id l) None
                         (Lead.createdAt l) (Lead.updatedAt l)
                  else l) <$> leads db)
           ((λ t, if decide (Task.assignedTo t = Some id)
                  then Task.mk (Task.title t) (Task.description t) (Task.status t)
                         (Task.priority t) (Task.dueDate t) None (Task.customerId t)
                         (Task.createdAt t) (Task.updatedAt t)
                  else t) <$> tasks db)
           ((λ i, if decide (Interaction.created_by i = Some id)
                  then Interaction.mk (Interaction.customer_id i) (Interaction.type i)
                         (Interaction.notes i) (Interaction.date i) None
                         (Interaction.createdAt i) (Interaction.updatedAt i)
                  else i) <$> interactions db)
           (users_seq db) (leads_seq db)).
Proof. reflexivity. Qed.

(** An admin who asks [DELETE /api/users/<own id>] with the id written as
    its decimal literal gets 400 [VALIDATION_ERROR], and the database is
    returned as it was. *)
Lemma self_delete_literal_rejected req db now req' uid u :
  Auth.authenticateToken req db now = inr req' →
  user req' = Some (uid, u) →
  User.role u = User.admin →
  params_id req = pretty uid →
  Users.delete req db now
  = (db, errorResponse "Cannot delete your own account" "VALIDATION_ERROR" 400).
Proof.
  intros Hauth Hu Hrole Hid. unfold Users.delete, Users.stack, Auth.requireAdmin.
  rewrite (route_authenticated _ _ _ _ _ _ _ _ _ Hauth Hu).
  rewrite decide_True by (rewrite Hrole; constructor). simpl.
  unfold Users.delete_handler.
  destruct (authenticateToken_next _ _ _ _ Hauth) as (id' & u' & _ & ->).
  simpl in *. rewrite Hid, parseInt_pretty. simplify_eq.
  by rewrite Z.eqb_refl.
Qed.

(** C9. The guard of [DELETE /api/users/:id] compares [parseInt(id)] with
    the id of the caller, while [findByPk(id)] hands the text to the engine.
    For an admin whose own key the engine reads in the parameter where
    [parseInt] reads another number or none, the route answers 200 and the
    row of the caller is deleted: the request is not rejected with 400
    [VALIDATION_ERROR]. *)
Theorem self_delete_not_rejected req db now req' uid u :
  Auth.authenticateToken req db now = inr req' →
  user req' = Some (uid, u) →
  User.role u = User.admin →
  Sequelize.pk_of_param (params_id req) = inr (Some uid) →
  JS.parseInt (params_id req) ≠ Some uid →
  ∃ db',
    Users.delete req db now
    = (db', successResponse (JObj []) "User deleted successfully" 200)
    ∧ users db !! uid = Some u
    ∧ users db' = delete uid (users db)
    ∧ users db' !! uid = None.
Proof.
  intros Hauth Hu Hrole Hpk Hguard.
  unfold Users.delete, Users.stack, Auth.requireAdmin.
  rewrite (route_authenticated _ _ _ _ _ _ _ _ _ Hauth Hu).
  rewrite decide_True by (rewrite Hrole; constructor).
  destruct (authenticateToken_next _ _ _ _ Hauth) as (id' & u' & Hrow & ->).
  simpl in Hu. simplify_eq.
  cbn [route]. unfold Users.delete_handler.
  change (params_id (set_user req (uid, u))) with (params_id req).
  change (user (set_user req (uid, u))) with (Some (uid, u)).
  assert (users db !! uid = Some u ∧
          ∃ db', User_destroy uid db = inr db' ∧ users db' = delete uid (users db))
    as (Hbefore & db' & Hdestroy & Hafter).
  { split; [done|]. rewrite User_destroy_spec. by eexists. }
  unfold Sequelize.findByPk. rewrite Hpk, Hrow, Hdestroy.
  exists db'.
  destruct (JS.parseInt (params_id req)) as [n|];
    [destruct (Z.eqb_spec n uid); [congruence|]|];
    (split; [done|]; split; [done|]; split; [done|];
     rewrite Hafter; apply lookup_delete_eq).
Qed.

End UsersFacts.

Lemma role_gate_witness :
  Users.list (H := Fixtures.jwt) (Fixtures.request "token-2" "" JNull) Fixtures.db 0
  = (Fixtures.db, Auth.forbidden).
Proof.
  eapply (proj1 (proj2 (proj2 (role_gate (H := Fixtures.jwt) [User.admin]
                                 (Fixtures.request "token-2" "" JNull) Fixtures.db 0))));
    reflexivity.
Defined.

Lemma self_delete_not_rejected_witness :
  JS.parseInt "0.1e1" = Some 0
  ∧ ∃ db',
      Users.delete (H := Fixtures.jwt) (H1 := Fixtures.engine)
        (Fixtures.request "token-1" "0.1e1" JNull) Fixtures.db 0
      = (db', successResponse (JObj []) "User deleted successfully" 200)
      ∧ users Fixtures.db !! 1 = Some Fixtures.adminUser
      ∧ users db' !! 1 = None.
Proof.
  split; [reflexivity|].
  destruct (self_delete_not_rejected (H := Fixtures.jwt) (H1 := Fixtures.engine)
              (Fixtures.request "token-1" "0.1e1" JNull) Fixtures.db 0 _ 1
              Fixtures.adminUser eq_refl eq_refl eq_refl eq_refl
              ltac:(discriminate))
    as (db' & Hrun & Hbefore & _ & Hafter).
  by exists db'.
Defined.

(** ** No password in a user representation *)

Section PasswordFacts.
Context `{Jwt.Lib, Bcrypt.Lib, Validator.Lib, Joi.Lib, Engine.Lib}.
Local Open Scope string_scope.

Lemma no_password_no_data res : data res = None → Spec.no_password res.
Proof. intros Hd d u Hd'. congruence. Qed.

Lemma no_password_user values rest msg st :
  jget "user" rest = None → jget "users" rest = None →
  Spec.no_password
    (successResponse (JObj (("user", JObj (User.toJSON values)) :: rest)) msg st).
Proof.
  intros Huser Husers d u [= <-]. simpl. rewrite Husers.
  intros Hin. apply list_elem_of_singleton in Hin as ->.
  apply jget_jdelete_eq.
Qed.

Lemma no_password_users (rows : list (Z * User.t)) rest msg st :
  jget "user" rest = None →
  Spec.no_password
    (successResponse (JObj (("users", JArr (Users.public_user <$> rows)) :: rest))
                     msg st).
Proof.
  intros Huser d u [= <-]. simpl. rewrite Huser. simpl.
  intros Hin. apply list_elem_of_omap in Hin as (v & Hv & Hu).
  apply list_elem_of_fmap in Hv as (row & -> & _).
  unfold Users.public_user in Hu. simplify_eq.
  apply jget_jdelete_eq.
Qed.

Lemma authenticateToken_no_data : Spec.answers_without_data Auth.authenticateToken.
Proof.
  intros req db now res. unfold Auth.authenticateToken.
  repeat case_match; intros; by simplify_eq.
Qed.

Lemma requireRole_no_data roles :
  Spec.answers_without_data (Auth.requireRole roles).
Proof.
  intros req db now res. unfold Auth.requireRole.
  repeat case_match; intros; by simplify_eq.
Qed.

Lemma validate_no_data schema :
  Spec.answers_without_data (Validation.validate schema).
Proof.
  intros req db now res. unfold Validation.validate.
  repeat case_match; intros; by simplify_eq.
Qed.

Lemma route_no_password stack (h : Handler) :
  Forall Spec.answers_without_data stack →
  (∀ req db now, Spec.no_password (h req db now).2) →
  ∀ req db now, Spec.no_password (route stack h req db now).2.
Proof.
  intros Hstack Hh. induction Hstack as [|m stack Hm _ IH]; intros req db now.
  - apply Hh.
  - simpl. destruct (m req db now) as [res|req'] eqn:Hres.
    + apply no_password_no_data. by eapply Hm.
    + apply IH.
Qed.

Lemma register_handler_no_password req db now :
  Spec.no_password (AuthRoutes.register_handler req db now).2.
Proof.
  unfold AuthRoutes.register_handler.
  destruct (UserModel.findOne_email _ db); [by apply no_password_no_data|].
  destruct (UserModel.create _ _ _ _ db now) as [e|[db' [id u]]];
    [by apply no_password_no_data|].
  by apply no_password_user.
Qed.

Lemma login_handler_no_password req db now :
  Spec.no_password (AuthRoutes.login_handler req db now).2.
Proof.
  unfold AuthRoutes.login_handler.
  destruct (UserModel.findOne_email _ db) as [[id u]|];
    [|by apply no_password_no_data].
  destruct (Bcrypt.compare _ _); [|by apply no_password_no_data].
  by apply no_password_user.
Qed.

Lemma me_handler_no_password req db now :
  Spec.no_password (AuthRoutes.me_handler req db now).2.
Proof.
  unfold AuthRoutes.me_handler.
  destruct (user req) as [[id u]|]; [|by apply no_password_no_data].
  by apply no_password_user.
Qed.

Lemma refresh_handler_no_password req db now :
  Spec.no_password (AuthRoutes.refresh_handler req db now).2.
Proof.
  unfold AuthRoutes.refresh_handler.
  destruct (user req) as [[id u]|]; [|by apply no_password_no_data].
  by apply no_password_user.
Qed.

Lemma list_handler_no_password req db now :
  Spec.no_password (Users.list_handler req db now).2.
Proof.
  unfold Users.list_handler.
  destruct (Pagination.list_route _ _ _) as [[rows pg]|];
    [|by apply no_password_no_data].
  by apply no_password_users.
Qed.

Lemma list_query_handler_no_password page limit req db now :
  Spec.no_password (Users.list_query_handler page limit req db now).2.
Proof.
  unfold Users.list_query_handler.
  destruct (ListQuery.list_route _ _ _) as [msg|[rows b]];
    [by apply no_password_no_data|].
  by apply no_password_users.
Qed.

Lemma read_handler_no_password req db now :
  Spec.no_password (Users.read_handler req db now).2.
Proof.
  unfold Users.read_handler.
  destruct (Sequelize.findByPk _ _) as [msg|[row|]];
    [by apply no_password_no_data| |by apply no_password_no_data].
  by apply no_password_user.
Qed.

Lemma update_handler_no_password req db now :
  Spec.no_password (Users.update_handler req db now).2.
Proof.
  unfold Users.update_handler.
  destruct (Sequelize.findByPk _ _) as [msg|[[id u]|]];
    [by apply no_password_no_data| |by apply no_password_no_data].
  destruct (UserModel.update _ _ _ _ _ db now) as [e|[db' u']];
    [by apply no_password_no_data|].
  by apply no_password_user.
Qed.

(** C8. Registration, login, [me], token refresh, the user list, the user
    read and the user update never answer with a user representation that
    has a [password] field. *)
Theorem no_password_in_responses req db now :
  Spec.no_password (AuthRoutes.register req db now).2
  ∧ Spec.no_password (AuthRoutes.login req db now).2
  ∧ Spec.no_password (AuthRoutes.me req db now).2
  ∧ Spec.no_password (AuthRoutes.refresh req db now).2
  ∧ Spec.no_password (Users.list req db now).2
  ∧ Spec.no_password (Users.read req db now).2
  ∧ Spec.no_password (Users.update req db now).2.
Proof.
  pose proof authenticateToken_no_data.
  pose proof (requireRole_no_data [User.admin]).
  pose proof (validate_no_data Validation.registerSchema).
  pose proof (validate_no_data Validation.loginSchema).
  repeat split;
    (apply route_no_password; [repeat constructor; done|]);
    auto using register_handler_no_password, login_handler_no_password,
      me_handler_no_password, refresh_handler_no_password,
      list_handler_no_password, read_handler_no_password,
      update_handler_no_password.
Qed.

End PasswordFacts.

(** The representations are there: registration answers 201 with the new
    user's name, e-mail and role, and the stored row does hold the hash. *)
Example register_alice :
  let req := mkRequest None "" None None
               (JObj [("name", JStr "Alice"); ("email", JStr "alice@example.com");
                      ("password", JStr "secret1")]%string) None in
  let '(db', res) :=
    AuthRoutes.register (H := Fixtures.jwt) (H0 := Fixtures.bcrypt)
      (H1 := Fixtures.validator) (H2 := Fixtures.joi) req Fixtures.db 5 in
  status res = 201
  ∧ (User.password <$> users db' !! 3) = Some "$2a$secret1"%string
  ∧ ∃ u, (Spec.user_representations <$> data res) = Some [u]
         ∧ jget "email" u = Some (JStr "alice@example.com")
         ∧ jget "role" u = Some (JStr "user")
         ∧ jget "password" u = None.
Proof. vm_compute. repeat split. eexists. repeat split. Qed.

(** ** Request validation ([middleware/validation.js]) *)

Section JoiFacts.
Context `{Joi.Lib}.
Local Open Scope string_scope.

Lemma first_failure_None {A} (check : A → option string) (l : list A) :
  Forall (λ a, check a = None) l → Joi.first_failure check l = None.
Proof.
  intros Hall. unfold Joi.first_failure.
  destruct (list_find _ l) as [[i a]|] eqn:Hfind; [|done].
  apply list_find_Some in Hfind as (Hi & [ty Hty] & _).
  apply list_elem_of_lookup_2 in Hi.
  rewrite Forall_forall in Hall. rewrite (Hall a Hi) in Hty. done.
Qed.

(** A body passes when each declared key passes and it has no other key. *)
Lemma validate_accepts schema fields :
  Forall (λ lk, Joi.validate_key lk.1 lk.2 (jget lk.1 fields) = None) schema →
  Forall (λ kv, kv.1 ∈ schema.*1) fields →
  Joi.validate schema (JObj fields) = None.
Proof.
  intros Hkeys Hknown. unfold Joi.validate.
  destruct (list_find _ schema) as [[i [label k]]|] eqn:Hfind.
  - apply list_find_Some in Hfind as (Hi & [e He] & _).
    apply list_elem_of_lookup_2 in Hi.
    rewrite Forall_forall in Hkeys. specialize (Hkeys _ Hi). simpl in *.
    congruence.
  - destruct (list_find _ fields) as [[i [label v]]|] eqn:Hunknown; [|done].
    apply list_find_Some in Hunknown as (Hi & Hnot & _).
    apply list_elem_of_lookup_2 in Hi.
    rewrite Forall_forall in Hknown. by specialize (Hknown _ Hi).
Qed.

(** The first failure decides the answer of a rejected body. *)
Lemma validate_rejects schema req db now e :
  Joi.validate schema (body req) = Some e →
  Validation.validate schema req db now
  = inl (mkResponse 400 false None None (Some (Joi.message e))
           (Some "VALIDATION_ERROR")).
Proof. intros He. unfold Validation.validate. by rewrite He. Qed.

Lemma validate_passes schema req db now :
  Joi.validate schema (body req) = None →
  Validation.validate schema req db now = inr req.
Proof. intros He. unfold Validation.validate. by rewrite He. Qed.

Lemma updateLeadStageSchema_accepts st :
  Joi.validate Validation.updateLeadStageSchema
    (JObj [("stage", JStr (Lead.stage_name st))]) = None.
Proof.
  apply validate_accepts.
  - repeat constructor. by destruct st.
  - repeat constructor.
Qed.

Lemma leadSchema_accepts_deal c :
  (- Joi.max_safe_integer ≤ c ≤ Joi.max_safe_integer)%Z →
  Joi.validate Validation.leadSchema
    (JObj [("title", JStr "Deal"); ("customerId", jint c)]) = None.
Proof.
  intros Hc. apply validate_accepts.
  - repeat constructor; try reflexivity.
    unfold Joi.validate_key, Joi.check_base, Joi.check_number, jint. simpl.
    assert (Qle_bool (inject_Z (- Joi.max_safe_integer)) (inject_Z c) = true) as ->.
    { apply Qle_bool_iff. rewrite <- Zle_Qle. lia. }
    assert (Qle_bool (inject_Z c) (inject_Z Joi.max_safe_integer) = true) as ->.
    { apply Qle_bool_iff. rewrite <- Zle_Qle. lia. }
    simpl. rewrite first_failure_None; [done|].
    repeat constructor. simpl. by rewrite Qred_inject_Z.
  - repeat constructor.
Qed.

End JoiFacts.

(** ** Leads ([routes/leads.js]) *)

Section LeadsFacts.
Context `{Jwt.Lib, Joi.Lib, Engine.Lib}.
Local Open Scope string_scope.

(** Every role passes [requireUser]. *)
Lemma route_leads_stack schema h req db now req' :
  Auth.authenticateToken req db now = inr req' →
  Joi.validate schema (body req) = None →
  route (Leads.stack ++ [Validation.validate schema]) h req db now = h req' db now.
Proof.
  intros Hauth Hvalid.
  destruct (authenticateToken_next _ _ _ _ Hauth) as (id & u & _ & Hreq').
  unfold Leads.stack, Auth.requireUser. simpl.
  rewrite Hauth, requireRole_spec. subst req'. simpl.
  rewrite decide_True by (destruct (User.role u); repeat constructor).
  by rewrite validate_passes.
Qed.

Lemma stage_of_name_stage_name st : Lead.stage_of_name (Lead.stage_name st) = Some st.
Proof. by destruct st. Qed.

(** C10. [PUT /api/leads/<id>/stage] with a stage of the enumeration
    answers 200 and writes the stage (and [updatedAt]) of that lead only:
    its other attributes, every other lead and every other table are as
    before. *)
Theorem stage_update_frame req db now req' id l st :
  Auth.authenticateToken req db now = inr req' →
  params_id req = pretty id →
  leads db !! id = Some l →
  body req = JObj [("stage", JStr (Lead.stage_name st))] →
  ∃ db' res l',
    Leads.update_stage req db now = (db', res)
    ∧ status res = 200%Z
    ∧ users db' = users db ∧ customers db' = customers db
    ∧ tasks db' = tasks db ∧ interactions db' = interactions db
    ∧ (∀ j, j ≠ id → leads db' !! j = leads db !! j)
    ∧ leads db' !! id = Some l'
    ∧ Lead.stage l' = st
    ∧ Lead.title l' = Lead.title l
    ∧ Lead.description l' = Lead.description l
    ∧ Lead.value l' = Lead.value l
    ∧ Lead.customer_id l' = Lead.customer_id l
    ∧ Lead.assigned_to l' = Lead.assigned_to l
    ∧ Lead.createdAt l' = Lead.createdAt l.
Proof.
  intros Hauth Hid Hl Hbody. unfold Leads.update_stage.
  rewrite (route_leads_stack _ _ _ _ _ _ Hauth)
    by (rewrite Hbody; apply updateLeadStageSchema_accepts).
  destruct (authenticateToken_next _ _ _ _ Hauth) as (uid & u & _ & ->).
  unfold Leads.update_stage_handler, AuthRoutes.body_field. simpl.
  rewrite Hid, Hbody, findByPk_pretty, Hl. simpl.
  unfold LeadModel.update_stage, LeadModel.check_stage, LeadModel.stage_of.
  rewrite stage_of_name_stage_name. simpl.
  destruct (decide (st = Lead.stage l)) as [->|Hne].
  - rewrite bool_decide_eq_true_2 by done.
    eexists db, _, l. split; [reflexivity|]. repeat split; done.
  - rewrite bool_decide_eq_false_2 by done.
    eexists _, _, _. split; [reflexivity|]. simpl.
    do 5 (split; [done|]).
    split; [intros j Hj; by rewrite lookup_insert_ne|].
    split; [apply lookup_insert_eq|].
    repeat split; done.
Qed.

(** C2 (as the code has it). With an existing customer [c], [POST
    /api/leads] with body [{ title: "Deal", customerId: c }] passes the
    schema, but [Lead.create] reads the attribute [customer_id], finds none,
    and the route answers 500 [DATABASE_ERROR] without creating a lead. *)
Theorem create_lead_with_customerId req db now req' c cust :
  Auth.authenticateToken req db now = inr req' →
  customers db !! c = Some cust →
  (- Joi.max_safe_integer ≤ c ≤ Joi.max_safe_integer)%Z →
  body req = JObj [("title", JStr "Deal"); ("customerId", jint c)] →
  Leads.create req db now
  = (db, errorResponse "notNull Violation: Lead.customer_id cannot be null"
           "DATABASE_ERROR" 500).
Proof.
  intros Hauth Hc Hsafe Hbody. unfold Leads.create.
  rewrite (route_leads_stack _ _ _ _ _ _ Hauth)
    by (rewrite Hbody; by apply leadSchema_accepts_deal).
  destruct (authenticateToken_next _ _ _ _ Hauth) as (uid & u & _ & ->).
  unfold Leads.create_handler. simpl. rewrite Hbody. reflexivity.
Qed.

End LeadsFacts.

Lemma stage_update_frame_witness :
  ∃ db' res l',
    Leads.update_stage (H := Fixtures.jwt) (H0 := Fixtures.joi)
      (H1 := Fixtures.engine)
      (Fixtures.request "token-2" "1"
         (JObj [("stage", JStr (Lead.stage_name Lead.proposal))]%string))
      Fixtures.db 7 = (db', res)
    ∧ status res = 200
    ∧ leads db' !! 1 = Some l'
    ∧ Lead.stage l' = Lead.proposal
    ∧ Lead.title l' = Lead.title Fixtures.deal.
Proof.
  destruct (stage_update_frame (H := Fixtures.jwt) (H0 := Fixtures.joi)
              (H1 := Fixtures.engine)
              (Fixtures.request "token-2" "1"
                 (JObj [("stage", JStr (Lead.stage_name Lead.proposal))]%string))
              Fixtures.db 7 _ 1 Fixtures.deal Lead.proposal
              eq_refl eq_refl eq_refl eq_refl)
    as (db' & res & l' & Hrun & Hst & _ & _ & _ & _ & _ & Hl' & Hstage & Htitle & _).
  by exists db', res, l'.
Defined.

Lemma create_lead_with_customerId_witness :
  Leads.create (H := Fixtures.jwt) (H0 := Fixtures.joi)
    (Fixtures.request "token-2" ""
       (JObj [("title", JStr "Deal"); ("customerId", jint 1)]%string))
    Fixtures.db 7
  = (Fixtures.db,
     errorResponse "notNull Violation: Lead.customer_id cannot be null"
       "DATABASE_ERROR" 500).
Proof.
  eapply (create_lead_with_customerId (H := Fixtures.jwt) (H0 := Fixtures.joi)
            (Fixtures.request "token-2" ""
               (JObj [("title", JStr "Deal"); ("customerId", jint 1)]%string))
            Fixtures.db 7 _ 1 Fixtures.acme);
    [reflexivity|reflexivity|unfold Joi.max_safe_integer; lia|reflexivity].
Defined.

(** ** Customers ([routes/customers.js]) *)

Section CustomersFacts.
Context `{Jwt.Lib, Engine.Lib}.
Local Open Scope string_scope.

(** The referential actions the associations end up with. *)
Lemma customer_associations :
  Sequelize.hasMany_onDelete Lead_customer = Sequelize.CASCADE
  ∧ Sequelize.hasMany_onDelete Interaction_customer = Sequelize.CASCADE
  ∧ Sequelize.hasMany_onDelete Task_customer = Sequelize.SET_NULL.
Proof. done. Qed.

Lemma Customer_destroy_spec id db :
  Customer_destroy id db
  = inr (mkDB (users db) (delete id (customers db))
           (filter (λ kv, Lead.customer_id kv.2 ≠ id) (leads db))
           ((λ t, if decide (Task.customerId t = Some id)
                  then Task.mk (Task.title t) (Task.description t) (Task.status t)
                         (Task.priority t) (Task.dueDate t) (Task.assignedTo t)
                         None (Task.createdAt t) (Task.updatedAt t)
                  else t) <$> tasks db)
           (filter (λ kv, Interaction.customer_id kv.2 ≠ id) (interactions db))
           (users_seq db) (leads_seq db)).
Proof.
  unfold Customer_destroy, Sequelize.on_parent_delete. simpl.
  f_equal. f_equal.
  - apply map_filter_ext. intros lid l _. unfold Sequelize.references. simpl.
    split; intros Hne; congruence.
  - apply map_filter_ext. intros iid i _. unfold Sequelize.references. simpl.
    split; intros Hne; congruence.
Qed.

(** C1 (as the code has it). Deleting a customer removes the customer, its
    leads and its interactions; a task of the customer is not removed: it
    stays in the table with its customer reference set to [NULL]. *)
Theorem delete_customer_keeps_tasks req db now req' c cust tid t :
  Auth.authenticateToken req db now = inr req' →
  params_id req = pretty c →
  customers db !! c = Some cust →
  tasks db !! tid = Some t →
  Task.customerId t = Some c →
  ∃ db' t',
    Customers.delete req db now
    = (db', successResponse (JObj []) "Customer deleted successfully" 200)
    ∧ customers db' !! c = None
    ∧ (∀ lid l, leads db' !! lid = Some l → Lead.customer_id l ≠ c)
    ∧ (∀ iid i, interactions db' !! iid = Some i → Interaction.customer_id i ≠ c)
    ∧ tasks db' !! tid = Some t'
    ∧ Task.customerId t' = None
    ∧ Task.title t' = Task.title t.
Proof.
  intros Hauth Hid Hc Ht Href. unfold Customers.delete, Customers.stack, Auth.requireUser.
  destruct (authenticateToken_next _ _ _ _ Hauth) as (uid & u & _ & ->).
  rewrite (route_authenticated _ _ _ _ _ _ _ _ _ Hauth eq_refl).
  rewrite decide_True by (destruct (User.role u); repeat constructor).
  cbn [route]. unfold Customers.delete_handler.
  change (params_id (set_user req (uid, u))) with (params_id req).
  rewrite Hid, findByPk_pretty, Hc. cbn [fmap option_fmap option_map].
  rewrite Customer_destroy_spec.
  eexists _, _. split; [reflexivity|]. simpl.
  split; [apply lookup_delete_eq|].
  split; [intros lid l Hl; by apply map_lookup_filter_Some in Hl as [_ Hl]|].
  split; [intros iid i Hi; by apply map_lookup_filter_Some in Hi as [_ Hi]|].
  rewrite lookup_fmap, Ht. simpl. rewrite decide_True by done.
  by repeat split.
Qed.

End CustomersFacts.

Lemma delete_customer_keeps_tasks_witness :
  ∃ db' t',
    Customers.delete (H := Fixtures.jwt) (H0 := Fixtures.engine)
          (Fixtures.request "token-1" "1" JNull)
      Fixtures.db 7
    = (db', successResponse (JObj []) "Customer deleted successfully" 200)
    ∧ leads db' = ∅
    ∧ interactions db' = ∅
    ∧ tasks db' !! 1 = Some t'
    ∧ Task.customerId t' = None
    ∧ Task.title t' = "Follow up with Acme Corp"%string.
Proof.
  destruct (delete_customer_keeps_tasks (H := Fixtures.jwt) (H0 := Fixtures.engine)
              (Fixtures.request "token-1" "1" JNull) Fixtures.db 7 _ 1
              Fixtures.acme 1 Fixtures.follow_up eq_refl eq_refl eq_refl eq_refl eq_refl)
    as (db' & t' & Hrun & _ & _ & _ & Ht' & Hnull & Htitle).
  exists db', t'. split; [exact Hrun|].
  assert (db' = (Customers.delete (H := Fixtures.jwt) (H0 := Fixtures.engine)
                   (Fixtures.request "token-1" "1" JNull) Fixtures.db 7).1) as ->
    by (by rewrite Hrun).
  repeat split; first [exact Ht' | exact Hnull | exact Htitle | by vm_compute].
Defined.

(** ** Validation comes first, where it is mounted *)

Section ValidationFacts.
Context `{Jwt.Lib, Bcrypt.Lib, Validator.Lib, Joi.Lib, Engine.Lib}.
Local Open Scope string_scope.

Lemma route_through stack h req db now :
  route stack h req db now
  = match through stack req db now with
    | inl res => (db, res)
    | inr req' => h req' db now
    end.
Proof.
  revert req. induction stack as [|m stack IH]; intros req; simpl; [done|].
  by destruct (m req db now).
Qed.

Lemma through_app s1 s2 req db now :
  through (s1 ++ s2) req db now
  = match through s1 req db now with
    | inl res => inl res
    | inr req' => through s2 req' db now
    end.
Proof.
  revert req. induction s1 as [|m s1 IH]; intros req; simpl; [done|].
  by destruct (m req db now).
Qed.

(** The routes of this development are the mounted ones. *)
Lemma mounted_routes :
  AuthRoutes.register = Routes.mount Routes.auth_register AuthRoutes.register_handler
  ∧ AuthRoutes.login = Routes.mount Routes.auth_login AuthRoutes.login_handler
  ∧ Leads.create = Routes.mount Routes.leads_create Leads.create_handler
  ∧ Leads.update_stage
    = Routes.mount Routes.leads_update_stage Leads.update_stage_handler
  ∧ Users.update = Routes.mount Routes.users_update Users.update_handler.
Proof. done. Qed.

(** Where a schema is mounted, a body that violates it is answered with
    400 [VALIDATION_ERROR] and the first failure message, whatever the
    handler is: the handler is not run and the database is returned as it
    was. *)
Lemma validated_endpoint_rejects e schema (h : Handler) req db now req' err :
  Routes.schema_of e = Some schema →
  through (Routes.guards e) req db now = inr req' →
  Joi.validate schema (body req') = Some err →
  Routes.mount e h req db now
  = (db, mkResponse 400 false None None (Some (Joi.message err))
           (Some "VALIDATION_ERROR")).
Proof.
  intros Hschema Hguards Herr. unfold Routes.mount.
  rewrite Hschema, route_through, through_app, Hguards. simpl.
  by rewrite (validate_rejects _ _ _ _ _ Herr).
Qed.

(** C3 (as the code has it). [PUT /api/users/:id] has no schema in front
    of it: a body whose [name] is one character long reaches the model, and
    the answer is 500 [DATABASE_ERROR], not 400 [VALIDATION_ERROR]. *)
Theorem user_update_unvalidated req db now req' uid u tid target :
  Auth.authenticateToken req db now = inr req' →
  user req' = Some (uid, u) →
  User.role u = User.admin →
  params_id req = pretty tid →
  users db !! tid = Some target →
  body req = JObj [("name", JStr "A")] →
  Routes.schema_of Routes.users_update = None
  ∧ Users.update req db now
    = (db, errorResponse "Validation error: Validation len on name failed"
             "DATABASE_ERROR" 500).
Proof.
  intros Hauth Hu Hrole Hid Htarget Hbody. split; [done|].
  unfold Users.update, Users.stack, Auth.requireAdmin.
  rewrite (route_authenticated _ _ _ _ _ _ _ _ _ Hauth Hu).
  rewrite decide_True by (rewrite Hrole; constructor).
  destruct (authenticateToken_next _ _ _ _ Hauth) as (id' & u' & _ & ->).
  cbn [route]. unfold Users.update_handler.
  assert (∀ key, AuthRoutes.body_field key (set_user req (id', u'))
                 = jget key [("name", JStr "A")]) as Hfield.
  { intros key. unfold AuthRoutes.body_field. simpl. by rewrite Hbody. }
  rewrite !Hfield.
  change (params_id (set_user req (id', u'))) with (params_id req).
  rewrite Hid, findByPk_pretty, Htarget. cbn [fmap option_fmap option_map].
  change (jget "name" [("name", JStr "A")]) with (Some (JStr "A")).
  change (jget "email" [("name", JStr "A")]) with (@None JValue).
  change (jget "role" [("name", JStr "A")]) with (@None JValue).
  reflexivity.
Qed.

End ValidationFacts.

Lemma user_update_unvalidated_witness :
  Users.update (H := Fixtures.jwt) (H0 := Fixtures.validator)
      (H1 := Fixtures.engine)
    (Fixtures.request "token-1" "2" (JObj [("name", JStr "A")]%string)) Fixtures.db 7
  = (Fixtures.db,
     errorResponse "Validation error: Validation len on name failed"
       "DATABASE_ERROR" 500).
Proof.
  eapply (proj2 (user_update_unvalidated (H := Fixtures.jwt) (H3 := Fixtures.engine)
                   (H1 := Fixtures.validator)
                   (Fixtures.request "token-1" "2" (JObj [("name", JStr "A")]%string))
                   Fixtures.db 7 _ 1 Fixtures.adminUser 2 Fixtures.regularUser
                   eq_refl eq_refl eq_refl eq_refl eq_refl eq_refl)).
Defined.

(** The sibling [POST /api/auth/register] answers the same one-character
    name with 400 [VALIDATION_ERROR] and the message of its schema. *)
Example register_short_name :
  AuthRoutes.register (H := Fixtures.jwt) (H0 := Fixtures.bcrypt)
    (H1 := Fixtures.validator) (H2 := Fixtures.joi)
    (mkRequest None "" None None
       (JObj [("name", JStr "A"); ("email", JStr "a@example.com");
              ("password", JStr "secret1")]%string) None)
    Fixtures.db 7
  = (Fixtures.db,
     mkResponse 400 false None None
       (Some "Name must be at least 2 characters long"%string)
       (Some "VALIDATION_ERROR"%string)).
Proof. reflexivity. Qed.

(** ** Conversion rates ([routes/reports.js], [routes/leads.js]) *)

Section RateFacts.
Import Double.
Local Open Scope Q_scope.


(** The double [closed / total * 100] is within [3e-14] of the quotient. *)
Lemma percentage_error (T C : Z) :
  (0 <= C <= T)%Z -> (0 < T)%Z ->
  let v := inject_Z C / inject_Z T * 100 in
  let d := Double.mul (Double.div (inject_Z C) (inject_Z T)) 100 in
  0 <= d /\ Qabs (d - v) <= 1 # 2 ^ 45.
Proof.
  intros [HC HCT] HT v d.
  assert (Ht : 0 < inject_Z T) by (change 0 with (inject_Z 0); by rewrite <- Zlt_Qlt).
  assert (Hq0 : 0 <= inject_Z C / inject_Z T).
  { apply Qle_shift_div_l; [done|]. rewrite Qmult_0_l.
    change 0 with (inject_Z 0). by rewrite <- Zle_Qle. }
  assert (Hq1 : inject_Z C / inject_Z T <= 1).
  { apply Qle_shift_div_r; [done|]. rewrite Qmult_1_l. by rewrite <- Zle_Qle. }
  unfold d, v, Double.mul, Double.div.
  set (q := inject_Z C / inject_Z T) in *.
  pose proof (round_error q Hq0) as H1. pose proof (round_nonneg q Hq0) as H1n.
  set (r1 := Double.round q) in *.
  assert (Hy0 : 0 <= r1 * 100) by lra.
  pose proof (round_error (r1 * 100) Hy0) as H2.
  pose proof (round_nonneg (r1 * 100) Hy0) as H2n.
  set (r2 := Double.round (r1 * 100)) in *.
  split; [done|].
  pose proof eta_pos as He0. pose proof eta_small as He1.
  set (eta' := eta) in *. clearbody eta' r1 r2 q.
  unfold u in *. change (1 # 2 ^ 53) with (1 # 9007199254740992) in *.
  change (1 # 2 ^ 128) with (1 # 340282366920938463463374607431768211456) in *.
  change (1 # 2 ^ 45) with (1 # 35184372088832).
  apply Qabs_Qle_condition in H1. apply Qabs_Qle_condition in H2.
  apply Qabs_Qle_condition. split; lra.
Qed.

Lemma toFixed2_nearest x :
  0 <= x ->
  exists n : Z, Num.toFixed2 x == inject_Z n / 100
    /\ inject_Z n <= x * 100 + (1 # 2) /\ x * 100 + (1 # 2) < inject_Z n + 1.
Proof.
  intros Hx. unfold Num.toFixed2. rewrite (proj2 (Qle_bool_iff 0 x) Hx).
  exists (Qfloor (x * 100 + (1 # 2))). split; [reflexivity|].
  pose proof (Qfloor_le (x * 100 + (1 # 2))).
  pose proof (Qlt_floor (x * 100 + (1 # 2))) as Hhi.
  rewrite inject_Z_plus in Hhi. by split.
Qed.



(** The rate lies between 0 and 100, however many leads there are. *)
Lemma percentage_bounds (T C : Z) :
  (0 ≤ C ≤ T)%Z → (0 < T)%Z →
  0 <= Num.toFixed2 (Double.mul (Double.div (inject_Z C) (inject_Z T)) 100) <= 100.
Proof.
  intros HC HT.
  destruct (percentage_error T C HC HT) as [Hd0 Herr].
  set (d := Double.mul (Double.div (inject_Z C) (inject_Z T)) 100) in *.
  destruct (toFixed2_nearest d Hd0) as (n & Hn & Hlo & Hhi).
  rewrite Hn. clear Hn.
  assert (Ht : 0 < inject_Z T) by (change 0 with (inject_Z 0); by rewrite <- Zlt_Qlt).
  assert (Hq1 : inject_Z C / inject_Z T <= 1).
  { apply Qle_shift_div_r; [done|]. rewrite Qmult_1_l. rewrite <- Zle_Qle. lia. }
  apply Qabs_Qle_condition in Herr. destruct Herr as [He1 He2].
  change (1 # 2 ^ 45) with (1 # 35184372088832) in *.
  assert (0 ≤ n ≤ 10000)%Z as [Hn0 Hn1].
  { split.
    - assert (inject_Z (-1) < inject_Z n) as Hlt
        by (change (inject_Z (-1)) with (-1); lra).
      rewrite <- Zlt_Qlt in Hlt. lia.
    - assert (inject_Z n < inject_Z 10001) as Hlt
        by (change (inject_Z 10001) with 10001; lra).
      rewrite <- Zlt_Qlt in Hlt. lia. }
  rewrite Zle_Qle in Hn0, Hn1. change (inject_Z 0) with 0 in Hn0.
  change (inject_Z 10000) with 10000 in Hn1.
  unfold Qdiv. change (/ 100) with (1 # 100). split; lra.
Qed.


Lemma dashboard_rate_bounds (T C : Z) :
  (0 ≤ C ≤ T)%Z →
  0 <= Num.toFixed2 (if (0 <? T)%Z
                     then Double.mul (Double.div (inject_Z C) (inject_Z T)) 100
                     else 0) <= 100.
Proof.
  intros HC. destruct (Z.ltb_spec 0 T); [by apply percentage_bounds|].
  split; by vm_compute.
Qed.

End RateFacts.

Section CountingFacts.
Local Open Scope nat_scope.

(** The four stages partition the leads. *)
Lemma stage_partition (Q : Lead.t → Prop) `{∀ x, Decision (Q x)} (ls : list Lead.t) :
  length (filter Q ls)
  = sum_list_with (λ st, length (filter Q (filter (λ l, Lead.stage l = st) ls)))
                  Lead.stages.
Proof.
  induction ls as [|a ls IH]; [done|].
  rewrite filter_cons. simpl in *.
  rewrite !(filter_cons (λ l, Lead.stage l = _)).
  destruct (Lead.stage a); simpl; rewrite !filter_cons;
    destruct (decide (Q a)); simpl; lia.
Qed.

End CountingFacts.

Section ReportFacts.
Context `{Jwt.Lib, Joi.Lib, Engine.Lib}.
Local Open Scope string_scope.

Lemma filter_true {A} (l : list A) : filter (λ _, True) l = l.
Proof. induction l as [|x l IH]; [done|]. by rewrite filter_cons_True, IH. Qed.

Lemma stat_of_count db st :
  default 0 (Leads.stat_count <$> Leads.stat_of db st)
  = Z.of_nat (length (Leads.in_stage db st))
  ∧ ∀ s, Leads.stat_of db st = Some s → Leads.stat_stage s = st.
Proof.
  unfold Leads.stat_of. destruct (Leads.in_stage db st); simpl; [done|].
  split; [done|]. by intros s [= <-].
Qed.

Lemma foldl_stat_counts db (sts : list Lead.Stage) (a : Z) :
  foldl (λ sum stat, sum + Leads.stat_count stat) a (omap (Leads.stat_of db) sts)
  = a + Z.of_nat (sum_list_with (λ st, length (Leads.in_stage db st)) sts).
Proof.
  revert a. induction sts as [|st sts IH]; intros a; simpl; [lia|].
  destruct (stat_of_count db st) as [Hcount _].
  destruct (Leads.stat_of db st) as [s|]; simpl in *; rewrite IH; lia.
Qed.

Lemma count_of_stat db (sts : list Lead.Stage) (st : Lead.Stage) :
  st ∈ sts →
  Leads.count_of (omap (Leads.stat_of db) sts) st
  = Z.of_nat (length (Leads.in_stage db st)).
Proof.
  unfold Leads.count_of. induction sts as [|st' sts IH]; intros Hin.
  - by apply elem_of_nil in Hin.
  - simpl. destruct (stat_of_count db st') as [Hcount Hstage].
    destruct (Leads.stat_of db st') as [s|] eqn:Hs; simpl in *.
    + specialize (Hstage s eq_refl).
      destruct (decide (Leads.stat_stage s = st)) as [Heq|Hne].
      * simpl. congruence.
      * apply elem_of_cons in Hin as [->|Hin]; [done|].
        specialize (IH Hin).
        change (list_omap _ _ (Leads.stat_of db) sts)
          with (omap (Leads.stat_of db) sts).
        destruct (list_find _ (omap _ sts)) as [[i s']|]; simpl in *; done.
    + apply elem_of_cons in Hin as [->|Hin]; [|by apply IH].
      rewrite <- Hcount. clear IH.
      change (list_omap _ _ (Leads.stat_of db) sts)
        with (omap (Leads.stat_of db) sts).
      destruct (list_find _ (omap _ sts)) as [[i s']|] eqn:Hfind; [|done].
      apply list_find_Some in Hfind as (Hi & Hst & _).
      apply list_elem_of_lookup_2, list_elem_of_omap in Hi as (st'' & _ & Hs'').
      destruct (stat_of_count db st'') as [_ Hstage'].
      rewrite (Hstage' s' Hs'') in Hst. subst st''.
      rewrite Hs in Hs''. done.
Qed.

Lemma overview_totalLeads_eq db :
  Leads.overview_totalLeads db = Reports.count_leads (Reports.all_leads db).
Proof.
  unfold Leads.overview_totalLeads, Leads.stageStats, Reports.count_leads.
  rewrite foldl_stat_counts.
  pose proof (stage_partition (λ _, True) (Reports.all_leads db)) as Hp.
  rewrite filter_true in Hp. rewrite Hp. simpl.
  by rewrite !filter_true.
Qed.

Lemma overview_closed_eq db :
  Leads.count_of (Leads.stageStats db) Lead.closed
  = Reports.count_closed (Reports.all_leads db).
Proof.
  unfold Leads.stageStats. rewrite count_of_stat by repeat constructor. done.
Qed.

Lemma closed_le_leads ls :
  (0 ≤ Reports.count_closed ls ≤ Reports.count_leads ls)%Z.
Proof.
  unfold Reports.count_closed, Reports.count_leads.
  pose proof (length_filter (λ l, Lead.stage l = Lead.closed) ls). lia.
Qed.




End ReportFacts.



(** ** Instance methods of the models *)

Section LeadMethodsFacts.
Import LeadMethods.

Lemma moveToNextStage_closed l :
  Lead.isClosed l = true → Lead.isClosed (moveToNextStage l) = true.
Proof. destruct l as [? ? []]; done. Qed.

Lemma moveToNextStage_iter_closed (k : nat) l :
  Lead.isClosed l = true → Lead.isClosed (Nat.iter k moveToNextStage l) = true.
Proof.
  intros Hclosed. induction k as [|k IH]; [exact Hclosed|].
  rewrite Nat.iter_succ. apply moveToNextStage_closed, IH.
Qed.

(** X1. [moveToNextStage] and [moveToPreviousStage] move the stage by one
    position in [lead, qualified, proposal, closed] and stop at the ends;
    they change nothing but the stage, and three or more moves forward close
    any lead. *)
Theorem move_stage_steps (l : Lead.t) :
  let i := indexOf Lead.stages (Lead.stage l) in
  indexOf Lead.stages (Lead.stage (moveToNextStage l)) = Z.min (i + 1) 3
  ∧ indexOf Lead.stages (Lead.stage (moveToPreviousStage l)) = Z.max (i - 1) 0
  ∧ moveToNextStage l = set_stage (Lead.stage (moveToNextStage l)) l
  ∧ moveToPreviousStage l = set_stage (Lead.stage (moveToPreviousStage l)) l
  ∧ ∀ n, (3 ≤ n)%nat → Lead.isClosed (Nat.iter n moveToNextStage l) = true.
Proof.
  repeat split; try (destruct l as [? ? []]; reflexivity).
  intros n Hn. replace n with ((n - 3) + 3)%nat by lia.
  rewrite Nat.iter_add. apply moveToNextStage_iter_closed.
  destruct l as [? ? []]; reflexivity.
Qed.

(** X2. Moving a lead forward and back again, or back and forward again,
    gives the lead it was, unless the first move was stopped by the end of
    the pipeline. *)
Theorem move_stage_round_trip (l : Lead.t) :
  (Lead.stage l ≠ Lead.closed → moveToPreviousStage (moveToNextStage l) = l)
  ∧ (Lead.stage l ≠ Lead.lead → moveToNextStage (moveToPreviousStage l) = l).
Proof. destruct l as [? ? []]; split; intros Hne; done. Qed.

End LeadMethodsFacts.

Lemma move_stage_steps_witness :
  (3 ≤ 5)%nat
  ∧ Lead.isClosed (Nat.iter 5 LeadMethods.moveToNextStage Fixtures.deal) = true.
Proof.
  split; [lia|].
  destruct (move_stage_steps Fixtures.deal) as (_ & _ & _ & _ & Hclosed).
  apply Hclosed. lia.
Defined.

Lemma move_stage_round_trip_witness :
  Lead.stage Fixtures.deal ≠ Lead.closed
  ∧ Lead.stage Fixtures.deal ≠ Lead.lead
  ∧ LeadMethods.moveToPreviousStage (LeadMethods.moveToNextStage Fixtures.deal)
    = Fixtures.deal
  ∧ LeadMethods.moveToNextStage (LeadMethods.moveToPreviousStage Fixtures.deal)
    = Fixtures.deal.
Proof.
  split; [discriminate|]. split; [discriminate|].
  split.
  - apply (proj1 (move_stage_round_trip Fixtures.deal)). discriminate.
  - apply (proj2 (move_stage_round_trip Fixtures.deal)). discriminate.
Defined.

Section CustomerMethodsFacts.
Import CustomerMethods.
Implicit Types (c : Customer.t) (tag t : string).

Lemma hasTag_true c t : hasTag c t = true ↔ t ∈ Customer.tags c.
Proof. unfold hasTag, JS.includes. apply bool_decide_eq_true. Qed.

Lemma hasTag_false c t : hasTag c t = false ↔ t ∉ Customer.tags c.
Proof. unfold hasTag, JS.includes. apply bool_decide_eq_false. Qed.

Lemma hasTag_ext c c' t :
  (t ∈ Customer.tags c ↔ t ∈ Customer.tags c') → hasTag c t = hasTag c' t.
Proof. intros Hiff. unfold hasTag, JS.includes. by apply bool_decide_ext. Qed.

Lemma addTag_tags c tag :
  Customer.tags (addTag c tag)
  = if decide (tag ∈ Customer.tags c) then Customer.tags c
    else Customer.tags c ++ [tag].
Proof.
  unfold addTag, JS.includes.
  destruct (decide (tag ∈ Customer.tags c)).
  - by rewrite bool_decide_eq_true_2.
  - by rewrite bool_decide_eq_false_2.
Qed.

(** X3. [addTag] makes the customer have the tag, keeps every tag it had,
    adds no other tag and no duplicate: a second [addTag] of the same tag
    changes nothing, and a list of tags without duplicates stays so. *)
Theorem addTag_spec c tag :
  hasTag (addTag c tag) tag = true
  ∧ addTag (addTag c tag) tag = addTag c tag
  ∧ (∀ t, t ≠ tag → hasTag (addTag c tag) t = hasTag c t)
  ∧ (NoDup (Customer.tags c) → NoDup (Customer.tags (addTag c tag)))
  ∧ Customer.tags c `prefix_of` Customer.tags (addTag c tag).
Proof.
  split; [|split; [|split; [|split]]].
  - apply hasTag_true. rewrite addTag_tags.
    destruct (decide (tag ∈ Customer.tags c)); [done|].
    apply elem_of_app. right. constructor.
  - assert (tag ∈ Customer.tags (addTag c tag)) as Hin.
    { rewrite addTag_tags. destruct (decide (tag ∈ Customer.tags c)); [done|].
      apply elem_of_app. right. constructor. }
    unfold addTag at 1. unfold JS.includes.
    by rewrite bool_decide_eq_true_2.
  - intros t Hne. apply hasTag_ext. rewrite addTag_tags.
    destruct (decide (tag ∈ Customer.tags c)); [done|].
    rewrite elem_of_app, list_elem_of_singleton.
    split; [intros [?|?]; [done|contradiction] | intros ?; by left].
  - intros Hnd. rewrite addTag_tags.
    destruct (decide (tag ∈ Customer.tags c)); [done|].
    apply NoDup_app. split; [done|]. split; [|apply NoDup_singleton].
    intros x Hx Hx'. apply list_elem_of_singleton in Hx'. by subst.
  - rewrite addTag_tags. destruct (decide (tag ∈ Customer.tags c)); [done|].
    by apply prefix_app_r.
Qed.

(** X4. [removeTag] takes every occurrence of the tag away and leaves the
    other tags alone; it undoes an [addTag] that did add the tag. *)
Theorem removeTag_spec c tag :
  hasTag (removeTag c tag) tag = false
  ∧ (∀ t, t ≠ tag → hasTag (removeTag c tag) t = hasTag c t)
  ∧ (hasTag c tag = false → removeTag (addTag c tag) tag = c)
  ∧ (hasTag c tag = false → removeTag c tag = c).
Proof.
  assert (∀ l : list string, tag ∉ l → filter (λ t, t ≠ tag) l = l) as Hfilter.
  { intros l. induction l as [|x l IH]; intros Hnot; [done|].
    apply not_elem_of_cons in Hnot as [Hx Hl].
    rewrite filter_cons_True by done. by rewrite IH. }
  split; [|split; [|split]].
  - apply hasTag_false. simpl. rewrite list_elem_of_filter.
    intros [Hne _]. by apply Hne.
  - intros t Hne. apply hasTag_ext. simpl. rewrite list_elem_of_filter.
    split; [by intros [_ ?] | done].
  - intros Hnot. apply hasTag_false in Hnot.
    unfold removeTag. rewrite addTag_tags, decide_False by done.
    rewrite filter_app, Hfilter by done.
    rewrite filter_cons_False by (intros Hne; by apply Hne).
    rewrite filter_nil, app_nil_r. unfold addTag, JS.includes.
    rewrite bool_decide_eq_false_2 by done. by destruct c.
  - intros Hnot. apply hasTag_false in Hnot.
    unfold removeTag. rewrite Hfilter by done. by destruct c.
Qed.

End CustomerMethodsFacts.

Lemma addTag_spec_witness :
  NoDup (Customer.tags Fixtures.acme)
  ∧ Customer.tags (CustomerMethods.addTag Fixtures.acme "VIP")
    = ["Enterprise"; "Technology"; "VIP"]%string
  ∧ NoDup (Customer.tags (CustomerMethods.addTag Fixtures.acme "VIP")).
Proof.
  assert (NoDup (Customer.tags Fixtures.acme)) as Hnd.
  { apply NoDup_cons. split; [|apply NoDup_singleton].
    intros Hin. apply list_elem_of_singleton in Hin. discriminate. }
  split; [exact Hnd|]. split; [reflexivity|].
  apply (proj1 (proj2 (proj2 (proj2 (addTag_spec Fixtures.acme "VIP"))))).
  exact Hnd.
Defined.

Lemma removeTag_spec_witness :
  CustomerMethods.hasTag Fixtures.acme "VIP" = false
  ∧ CustomerMethods.removeTag (CustomerMethods.addTag Fixtures.acme "VIP") "VIP"
    = Fixtures.acme.
Proof.
  split; [reflexivity|].
  apply (proj1 (proj2 (proj2 (removeTag_spec Fixtures.acme "VIP")))).
  reflexivity.
Defined.

Section TaskMethodsFacts.
Import TaskMethods.

(** X5. A completed task is never overdue, nor is a task without due
    date; a task that is overdue stays overdue as time passes, and starting
    it does not change that. *)
Theorem overdue_spec (t : Task.t) (now now' : Z) :
  isOverdue (markCompleted t) now = false
  ∧ (Task.dueDate t = None → isOverdue t now = false)
  ∧ (isOverdue t now = true → now ≤ now' → isOverdue t now' = true)
  ∧ (isOverdue t now = true → isOverdue (startTask t) now = true).
Proof.
  unfold isOverdue. split; [|split; [|split]].
  - simpl. destruct (Task.dueDate t); [|done]. apply andb_false_r.
  - by intros ->.
  - destruct (Task.dueDate t) as [due|]; [|done].
    intros [Hdue Hst]%andb_true_iff Hle. apply andb_true_iff.
    split; [|done]. apply Z.ltb_lt in Hdue. apply Z.ltb_lt. lia.
  - simpl. destruct (Task.dueDate t) as [due|]; [|done].
    intros [Hdue _]%andb_true_iff. by rewrite Hdue.
Qed.

End TaskMethodsFacts.

Lemma overdue_spec_witness :
  let t := Task.mk "Send proposal" None Task.pending Task.high (Some 10) None None 0 0 in
  TaskMethods.isOverdue t 11 = true
  ∧ 11 ≤ 20
  ∧ TaskMethods.isOverdue t 20 = true
  ∧ TaskMethods.isOverdue (TaskMethods.startTask t) 11 = true
  ∧ TaskMethods.isOverdue (TaskMethods.markCompleted t) 20 = false.
Proof.
  intros t.
  destruct (overdue_spec t 11 20) as (_ & _ & Hlater & Hstart).
  destruct (overdue_spec t 20 20) as (Hdone & _).
  split; [reflexivity|]. split; [lia|].
  split; [apply Hlater; [reflexivity|lia]|].
  split; [apply Hstart; reflexivity|exact Hdone].
Defined.

Section InteractionMethodsFacts.
Import InteractionMethods.
Local Open Scope string_scope.

Lemma substring_0_length (s : string) : ∀ m : nat,
  (String.length (String.substring 0 m s) ≤ m)%nat.
Proof.
  induction s as [|c s IH]; intros [|m]; simpl; try lia.
  specialize (IH m). lia.
Qed.

Lemma substring_0_all (s : string) : ∀ m : nat,
  (String.length s ≤ m)%nat → String.substring 0 m s = s.
Proof.
  induction s as [|c s IH]; intros [|m] Hlen; simpl in *; try done; try lia.
  f_equal. apply IH. lia.
Qed.

Lemma length_app_string (s1 s2 : string) :
  String.length (s1 ++ s2) = (String.length s1 + String.length s2)%nat.
Proof. induction s1 as [|c s1 IH]; simpl; [done|]. by rewrite IH. Qed.

(** X6. The summary of an interaction is its type with a capital initial
    ([Call], [Email], [Meeting] or [Note], as the type is), [" - "] and the
    notes; notes of at most 100 characters appear in full, longer ones are
    cut after 100 characters and followed by ["..."], absent notes print as
    [undefined], and no summary is longer than 113 characters. *)
Theorem getSummary_spec (i : Interaction.t) :
  let label := match Interaction.type i with
               | Interaction.call => "Call"
               | Interaction.email => "Email"
               | Interaction.meeting => "Meeting"
               | Interaction.note => "Note"
               end in
  (String.length (getSummary i) ≤ 113)%nat
  ∧ (∀ notes, Interaction.notes i = Some notes →
       ((String.length notes ≤ 100)%nat → getSummary i = label ++ " - " ++ notes)
       ∧ ((100 < String.length notes)%nat →
            getSummary i = label ++ " - " ++ substring notes 0 100 ++ "..."))
  ∧ (Interaction.notes i = None → getSummary i = label ++ " - undefined").
Proof.
  intros label.
  assert (toUpperCase (charAt (kind_name (Interaction.type i)) 0)
          ++ slice (kind_name (Interaction.type i)) 1 = label) as Hlabel
    by (unfold label; by destruct (Interaction.type i)).
  assert (String.length label ≤ 7)%nat as Hlen7
    by (unfold label; destruct (Interaction.type i); simpl; lia).
  assert (∀ s : string, s ++ "" = s) as Hnil
    by (intros s; induction s as [|c s IH]; [done|];
        change (String c s ++ "") with (String c (s ++ "")); by rewrite IH).
  unfold getSummary. rewrite Hlabel. clearbody label. split; [|split].
  - rewrite !length_app_string.
    change (String.length " - ") with 3%nat.
    destruct (Interaction.notes i) as [notes|].
    + pose proof (substring_0_length notes 100) as Hsub.
      unfold substring. change (100 - 0)%nat with 100%nat.
      destruct (100 <? String.length notes)%nat; simpl String.length; lia.
    + simpl String.length. lia.
  - intros notes ->. split; intros Hlen.
    + unfold substring. change (100 - 0)%nat with 100%nat.
      rewrite substring_0_all by done.
      destruct (Nat.ltb_spec 100 (String.length notes)); [lia|].
      by rewrite Hnil.
    + destruct (Nat.ltb_spec 100 (String.length notes)); [done|lia].
  - intros ->. by rewrite Hnil.
Qed.

End InteractionMethodsFacts.

Lemma getSummary_spec_witness :
  Interaction.type Fixtures.first_call = Interaction.call
  ∧ Interaction.notes Fixtures.first_call = Some "Initial contact made"%string
  ∧ (String.length "Initial contact made" ≤ 100)%nat
  ∧ InteractionMethods.getSummary Fixtures.first_call
    = "Call - Initial contact made"%string.
Proof.
  assert ((String.length "Initial contact made" ≤ 100)%nat) as Hlen by (simpl; lia).
  split; [reflexivity|]. split; [reflexivity|]. split; [exact Hlen|].
  destruct (getSummary_spec Fixtures.first_call) as (_ & Hnotes & _).
  exact (proj1 (Hnotes "Initial contact made"%string eq_refl) Hlen).
Defined.

(** ** The global error handler ([middleware/errorHandler.js]) *)

Section ErrorHandlerFacts.
Import ErrorHandler.
Local Open Scope string_scope.

(** X7. Whatever error it is given, [errorHandler] answers with a failure
    envelope: no payload, a code, and a status that is 400, 401, 409 or 500
    unless the error carries a status of its own.  In production an error
    that carries no status and is answered 500 is answered without its
    message. *)
Theorem errorHandler_envelope production err res :
  errorHandler production err = Some res →
  Http.success res = false ∧ Http.data res = None ∧ Http.message res = None
  ∧ is_Some (Http.code res)
  ∧ (Http.status res ∈ [400; 401; 409; 500]%Z
     ∨ ErrorHandler.status err = Some (Http.status res))
  ∧ (production = true → ErrorHandler.status err = None → Http.status res = 500%Z →
     Http.error res = Some "Internal server error").
Proof.
  unfold errorHandler, failure. intros Hres.
  repeat case_match; simplify_eq; simpl;
    (split; [done|]); (split; [done|]); (split; [done|]);
    (split; [by eexists|]);
    (split; [first [by right | left; repeat constructor]|]);
    intros; by simplify_eq.
Qed.

(** X8. For an expired and for a malformed token [errorHandler] would
    answer what [authenticateToken] answers itself; for a token that is not
    yet valid the two differ: [authenticateToken] answers 401, the handler
    500. *)
Theorem errorHandler_token_errors `{Jwt.Lib} req db now token e msg production :
  Auth.bearer_token req = Some token → token ≠ "" →
  Jwt.verify token Auth.secret now = inl e →
  ∃ res res',
    Auth.authenticateToken req db now = inl res
    ∧ errorHandler production (of_verify e msg) = Some res'
    ∧ Http.status res = 401%Z
    ∧ (e ≠ Jwt.NotBeforeError → res' = res)
    ∧ (e = Jwt.NotBeforeError → Http.status res' = 500%Z).
Proof.
  intros Htok Hne He. unfold Auth.authenticateToken. rewrite Htok.
  destruct (String.eqb_spec token ""); [done|]. rewrite He.
  destruct e; eexists _, _; (split; [reflexivity|]); (split; [reflexivity|]);
    repeat split; done.
Qed.

End ErrorHandlerFacts.

Lemma errorHandler_envelope_witness :
  let err := ErrorHandler.mkErr "Error" [] false [] None
               (Some "connect ECONNREFUSED 127.0.0.1:5432"%string) None in
  ErrorHandler.errorHandler true err
  = Some (ErrorHandler.failure 500 (Some "Internal server error"%string)
            "DATABASE_ERROR")
  ∧ Http.error (ErrorHandler.failure 500 (Some "Internal server error"%string)
                  "DATABASE_ERROR")
    = Some "Internal server error"%string.
Proof.
  intros err. split; [reflexivity|].
  apply (errorHandler_envelope true err); reflexivity.
Defined.

Lemma errorHandler_token_errors_witness :
  ∃ res,
    Auth.authenticateToken (H := Fixtures.jwt)
      (Fixtures.request "expired" "" JNull) Fixtures.db 0 = inl res
    ∧ ErrorHandler.errorHandler false
        (ErrorHandler.of_verify Jwt.TokenExpiredError "jwt expired") = Some res.
Proof.
  destruct (errorHandler_token_errors (H := Fixtures.jwt)
              (Fixtures.request "expired" "" JNull) Fixtures.db 0 "expired"
              Jwt.TokenExpiredError "jwt expired" false
              eq_refl ltac:(discriminate) eq_refl)
    as (res & res' & Hauth & Hhandler & _ & Hsame & _).
  exists res. split; [exact Hauth|].
  rewrite <- (Hsame ltac:(discriminate)). exact Hhandler.
Defined.

(** ** The token of a request and the stored role ([middleware/auth.js]) *)

Section TokenFacts.
Context `{Jwt.Lib, Engine.Lib}.
Local Open Scope string_scope.

Lemma rev_app_rev_app (a b c : string) :
  String.rev_app (String.rev_app a b) c = String.rev_app b (a ++ c).
Proof.
  revert b. induction a as [|x a IH]; intros b; [done|].
  simpl. by rewrite IH.
Qed.

Lemma rev_rev_app (a : string) : String.rev (String.rev_app a "") = a.
Proof.
  unfold String.rev. rewrite rev_app_rev_app. simpl.
  induction a as [|x a IH]; [done|].
  change (String x a ++ "") with (String x (a ++ "")). by rewrite IH.
Qed.

(** Reading a word up to the space that ends it. *)
Lemma split_space_go_word (a rest cur : string) :
  " "%char ∉ list_ascii_of_string a →
  JS.split_space_go (a ++ String " " rest) cur
  = String.rev (String.rev_app a cur) :: JS.split_space_go rest "".
Proof.
  revert cur. induction a as [|x a IH]; intros cur Hno.
  - reflexivity.
  - change (String x a ++ String " " rest) with (String x (a ++ String " " rest)).
    simpl in *. apply not_elem_of_cons in Hno as [Hx Ha].
    destruct (Ascii.eqb_spec x " "); [congruence|].
    by rewrite IH.
Qed.

Lemma split_space_go_last (a cur : string) :
  " "%char ∉ list_ascii_of_string a →
  JS.split_space_go a cur = [String.rev (String.rev_app a cur)].
Proof.
  revert cur. induction a as [|x a IH]; intros cur Hno; [done|].
  simpl in *. apply not_elem_of_cons in Hno as [Hx Ha].
  destruct (Ascii.eqb_spec x " "); [congruence|].
  by rewrite IH.
Qed.

(** The second word of a header of two or more words. *)
Lemma bearer_token_of_header req scheme token rest :
  authorization req = Some (scheme ++ " " ++ token ++ rest) →
  " "%char ∉ list_ascii_of_string scheme →
  " "%char ∉ list_ascii_of_string token →
  rest = "" ∨ (∃ r, rest = String " " r) →
  Auth.bearer_token req = Some token.
Proof.
  intros Hheader Hscheme Htoken Hrest.
  unfold Auth.bearer_token. rewrite Hheader.
  assert (scheme ++ " " ++ token ++ rest
          = scheme ++ String " " (token ++ rest)) as -> by done.
  destruct (String.eqb_spec (scheme ++ String " " (token ++ rest)) "") as [He|_].
  { destruct scheme; discriminate He. }
  unfold JS.split_space. rewrite split_space_go_word by done.
  destruct Hrest as [->|[r ->]].
  - assert (token ++ "" = token) as ->.
    { clear. induction token as [|x a IH]; [done|].
      change (String x a ++ "") with (String x (a ++ "")). by rewrite IH. }
    rewrite split_space_go_last by done. simpl. by rewrite rev_rev_app.
  - rewrite split_space_go_word by done. simpl. by rewrite rev_rev_app.
Qed.

(** X9. The token of a request is the second word of the [Authorization]
    header, whatever the first word is: the scheme is not looked at, and
    words after the token are ignored.  A header without a space carries no
    token and is answered 401. *)
Theorem bearer_token_second_word req db now header :
  authorization req = Some header →
  (∀ scheme token rest,
     header = scheme ++ " " ++ token ++ rest →
     " "%char ∉ list_ascii_of_string scheme →
     " "%char ∉ list_ascii_of_string token →
     rest = "" ∨ (∃ r, rest = String " " r) →
     Auth.bearer_token req = Some token)
  ∧ (" "%char ∉ list_ascii_of_string header →
     Auth.authenticateToken req db now
     = inl (Auth.unauthenticated "Access token required")).
Proof.
  intros Hheader. split.
  - intros scheme token rest -> Hscheme Htoken Hrest.
    by apply (bearer_token_of_header req scheme token rest).
  - intros Hno. unfold Auth.authenticateToken, Auth.bearer_token.
    rewrite Hheader. destruct (String.eqb header ""); [done|].
    unfold JS.split_space. by rewrite split_space_go_last.
Qed.

(** X10. The role that passes or fails a role gate is the role of the
    stored user the token names; the role the token itself carries is not
    read.  With a valid token of a stored user, a router behind
    [requireAdmin] runs its handler when the stored role is [admin] and
    answers 403 when it is [user]; behind [requireUser] the handler runs for
    both. *)
Theorem stored_role_decides req db now token payload id u (h : Handler) :
  Auth.bearer_token req = Some token → token ≠ "" →
  Jwt.verify token Auth.secret now = inr payload →
  Jwt.userId payload = Some id →
  users db !! id = Some u →
  Auth.authenticateToken req db now = inr (set_user req (id, u))
  ∧ route [Auth.authenticateToken; Auth.requireAdmin] h req db now
    = (if decide (User.role u = User.admin)
       then h (set_user req (id, u)) db now else (db, Auth.forbidden))
  ∧ route [Auth.authenticateToken; Auth.requireUser] h req db now
    = h (set_user req (id, u)) db now.
Proof.
  intros Htok Hne Hverify Hid Hu.
  assert (Auth.authenticateToken req db now = inr (set_user req (id, u))) as Hauth.
  { rewrite (authenticateToken_token req db now token Htok Hne), Hverify, Hid.
    simpl. by rewrite Hu. }
  split; [done|]. unfold Auth.requireAdmin, Auth.requireUser.
  rewrite !(route_authenticated _ _ _ _ _ _ _ _ _ Hauth eq_refl). simpl.
  split.
  - destruct (User.role u).
    + rewrite decide_True by constructor. by rewrite decide_True.
    + rewrite decide_False.
      * by rewrite decide_False.
      * intros Hin. apply list_elem_of_singleton in Hin. discriminate.
  - rewrite decide_True by (destruct (User.role u); repeat constructor). done.
Qed.

End TokenFacts.

Lemma bearer_token_second_word_witness :
  let req := mkRequest (Some "Basic token-1"%string) "" None None JNull None in
  Auth.bearer_token req = Some "token-1"%string
  ∧ Auth.authenticateToken (H := Fixtures.jwt) req Fixtures.db 0
    = inr (set_user req (1, Fixtures.adminUser)).
Proof.
  intros req. split; [|reflexivity].
  apply (proj1 (bearer_token_second_word (H := Fixtures.jwt) req Fixtures.db 0
                  "Basic token-1" eq_refl) "Basic" "token-1" "" eq_refl).
  - intros Hin. by repeat (apply elem_of_cons in Hin as [Hin|Hin]; [discriminate|]);
      apply elem_of_nil in Hin.
  - intros Hin. by repeat (apply elem_of_cons in Hin as [Hin|Hin]; [discriminate|]);
      apply elem_of_nil in Hin.
  - by left.
Defined.

Lemma stored_role_decides_witness :
  let req := Fixtures.request "token-2" "" JNull in
  Auth.authenticateToken (H := Fixtures.jwt) req Fixtures.db 0
  = inr (set_user req (2, Fixtures.regularUser))
  ∧ Users.list (H := Fixtures.jwt) req Fixtures.db 0 = (Fixtures.db, Auth.forbidden).
Proof.
  intros req.
  destruct (stored_role_decides (H := Fixtures.jwt) req Fixtures.db 0 "token-2"
              (Jwt.mkPayload (Some 2) (Some "user"%string)) 2 Fixtures.regularUser
              Users.list_handler eq_refl ltac:(discriminate) eq_refl eq_refl eq_refl)
    as (Hauth & Hadmin & _).
  split; [exact Hauth | exact Hadmin].
Defined.

(** ** More on user management ([routes/users.js]) *)

Section UsersMoreFacts.
Context `{Jwt.Lib, Validator.Lib, Engine.Lib}.
Local Open Scope string_scope.

(** What [authenticateToken] does depends on the table of users only. *)
Lemma authenticateToken_users req db db' now :
  users db = users db' →
  Auth.authenticateToken req db now = Auth.authenticateToken req db' now.
Proof. intros Hu. unfold Auth.authenticateToken. by rewrite Hu. Qed.

(** X11. [DELETE /api/users/:id] removes the account of the admin who
    asks only through a parameter that the engine reads as the caller's key
    and [parseInt] does not: for every other parameter, the row of the
    caller is in the table afterwards as it was. *)
Theorem own_account_survives req db now req' uid u :
  Auth.authenticateToken req db now = inr req' →
  user req' = Some (uid, u) →
  (Sequelize.pk_of_param (params_id req) = inr (Some uid) →
   JS.parseInt (params_id req) = Some uid) →
  users (Users.delete req db now).1 !! uid = Some u.
Proof.
  intros Hauth Hu Hagree.
  destruct (authenticateToken_next _ _ _ _ Hauth) as (id' & u' & Hrow & ->).
  simpl in Hu. simplify_eq.
  unfold Users.delete, Users.stack, Auth.requireAdmin.
  rewrite (route_authenticated _ _ _ _ _ _ _ _ _ Hauth eq_refl).
  destruct (decide (User.role u ∈ [User.admin])); [|done].
  cbn [route]. unfold Users.delete_handler.
  change (params_id (set_user req (uid, u))) with (params_id req).
  change (user (set_user req (uid, u))) with (Some (uid, u)).
  destruct (Sequelize.findByPk (params_id req) (users db))
    as [msg|[[id target]|]] eqn:Hfind.
  - by destruct (match JS.parseInt (params_id req) with
                 | Some n => (n =? uid)%Z
                 | None => false
                 end).
  - apply findByPk_Some in Hfind as [_ Hpk].
    destruct (decide (id = uid)) as [->|Hne].
    + rewrite (Hagree Hpk), Z.eqb_refl. done.
    + destruct (match JS.parseInt (params_id req) with
                | Some n => (n =? uid)%Z
                | None => false
                end); [done|].
      rewrite User_destroy_spec. simpl. by rewrite lookup_delete_ne.
  - by destruct (match JS.parseInt (params_id req) with
                 | Some n => (n =? uid)%Z
                 | None => false
                 end).
Qed.

(** X12. An admin who deletes another user removes that user only: no
    lead, task or interaction is removed; those assigned to or created by
    the deleted user lose that reference and keep everything else, and all
    other rows are untouched. *)
Theorem delete_user_clears_references req db now req' uid u tid target :
  Auth.authenticateToken req db now = inr req' →
  user req' = Some (uid, u) →
  User.role u = User.admin →
  params_id req = pretty tid →
  tid ≠ uid →
  users db !! tid = Some target →
  ∃ db',
    Users.delete req db now
    = (db', successResponse (JObj []) "User deleted successfully" 200)
    ∧ users db' = delete tid (users db)
    ∧ customers db' = customers db
    ∧ (∀ id, leads db' !! id
             = (λ l, if decide (Lead.assigned_to l = Some tid)
                     then Lead.mk (Lead.title l) (Lead.description l) (Lead.stage l)
                            (Lead.value l) (Lead.customer_id l) None
                            (Lead.createdAt l) (Lead.updatedAt l)
                     else l) <$> leads db !! id)
    ∧ (∀ id, tasks db' !! id
             = (λ t, if decide (Task.assignedTo t = Some tid)
                     then Task.mk (Task.title t) (Task.description t) (Task.status t)
                            (Task.priority t) (Task.dueDate t) None (Task.customerId t)
                            (Task.createdAt t) (Task.updatedAt t)
                     else t) <$> tasks db !! id)
    ∧ (∀ id, interactions db' !! id
             = (λ i, if decide (Interaction.created_by i = Some tid)
                     then Interaction.mk (Interaction.customer_id i)
                            (Interaction.type i) (Interaction.notes i)
                            (Interaction.date i) None
                            (Interaction.createdAt i) (Interaction.updatedAt i)
                     else i) <$> interactions db !! id)
    ∧ size (leads db') = size (leads db)
    ∧ size (tasks db') = size (tasks db)
    ∧ size (interactions db') = size (interactions db).
Proof.
  intros Hauth Hu Hrole Hid Hne Htarget.
  unfold Users.delete, Users.stack, Auth.requireAdmin.
  rewrite (route_authenticated _ _ _ _ _ _ _ _ _ Hauth Hu).
  rewrite decide_True by (rewrite Hrole; constructor).
  destruct (authenticateToken_next _ _ _ _ Hauth) as (id' & u' & _ & ->).
  simpl in Hu. simplify_eq.
  cbn [route]. unfold Users.delete_handler.
  change (params_id (set_user req (uid, u))) with (params_id req).
  change (user (set_user req (uid, u))) with (Some (uid, u)).
  rewrite Hid, parseInt_pretty, findByPk_pretty, Htarget.
  destruct (Z.eqb_spec tid uid); [done|].
  cbn [fmap option_fmap option_map]. rewrite User_destroy_spec.
  eexists. split; [reflexivity|]. simpl.
  split; [done|]. split; [done|].
  split; [intros id; apply lookup_fmap|].
  split; [intros id; apply lookup_fmap|].
  split; [intros id; apply lookup_fmap|].
  by rewrite !map_size_fmap.
Qed.

Lemma UserModel_update_frame id u name email role db now db' u' :
  UserModel.update id u name email role db now = inr (db', u') →
  User.password u' = User.password u ∧ User.createdAt u' = User.createdAt u
  ∧ (db' = db
     ∨ db' = mkDB (<[id := u']> (users db)) (customers db) (leads db) (tasks db)
               (interactions db) (users_seq db) (leads_seq db)).
Proof.
  unfold UserModel.update.
  match goal with |- context [match ?v with [] => _ | _ :: _ => _ end] =>
    destruct v; [|done] end.
  match goal with |- context [if ?b then _ else inr (db, _)] =>
    destruct b end.
  - match goal with |- context [if ?b then inl _ else _] => destruct b end;
      [done|].
    intros [= <- <-]. simpl. split; [done|]. split; [done|]. by right.
  - intros [= <- <-]. simpl. split; [done|]. split; [done|]. by left.
Qed.

(** X13. [PUT /api/users/:id] never writes a password: for a body whose
    [name], [email] and [role], where present, are strings and the role a
    declared one, whatever else the request holds, every stored password
    and creation time is as before, no row appears or disappears, only the
    row whose key the parameter denotes, as the engine reads it, can
    change, and the other tables are untouched. *)
Theorem user_update_keeps_passwords req db now :
  Spec.typed_user_body (body req) →
  let db' := (Users.update req db now).1 in
  customers db' = customers db ∧ leads db' = leads db
  ∧ tasks db' = tasks db ∧ interactions db' = interactions db
  ∧ (∀ id, User.password <$> users db' !! id = User.password <$> users db !! id)
  ∧ (∀ id, User.createdAt <$> users db' !! id = User.createdAt <$> users db !! id)
  ∧ (∀ id, Sequelize.pk_of_param (params_id req) ≠ inr (Some id) →
           users db' !! id = users db !! id).
Proof.
  intros _. unfold Users.update. rewrite route_through.
  destruct (through Users.stack req db now) as [res|req'] eqn:Hthrough;
    [by repeat split|].
  assert (params_id req' = params_id req) as Hparams.
  { unfold Users.stack in Hthrough. simpl in Hthrough.
    destruct (Auth.authenticateToken req db now) as [|req1] eqn:Hauth; [done|].
    destruct (authenticateToken_next _ _ _ _ Hauth) as (? & ? & _ & ->).
    unfold Auth.requireAdmin, Auth.requireRole in Hthrough. simpl in Hthrough.
    destruct (JS.includes _ _); by simplify_eq. }
  unfold Users.update_handler. rewrite Hparams.
  destruct (Sequelize.findByPk (params_id req) (users db))
    as [msg|[[id u]|]] eqn:Hfind; [by repeat split| |by repeat split].
  apply findByPk_Some in Hfind as [Hrow Hpk].
  destruct (UserModel.update id u _ _ _ db now) as [e|[db' u']] eqn:Hupd;
    [by repeat split|].
  apply UserModel_update_frame in Hupd as (Hpw & Hcreated & [->| ->]);
    [by repeat split|].
  simpl. do 4 (split; [done|]).
  repeat split; intros id'; try intros Hne;
    (destruct (decide (id' = id)) as [->|Hother];
     [rewrite lookup_insert_eq, ?Hrow; simpl; congruence
     |by rewrite lookup_insert_ne]).
Qed.

End UsersMoreFacts.

Lemma own_account_survives_witness :
  users (Users.delete (H := Fixtures.jwt) (H1 := Fixtures.engine)
        (Fixtures.request "token-1" "2" JNull)
           Fixtures.db 0).1 !! 1 = Some Fixtures.adminUser
  ∧ users (Users.delete (H := Fixtures.jwt) (H1 := Fixtures.engine)
        (Fixtures.request "token-1" "2" JNull)
             Fixtures.db 0).1 !! 2 = None.
Proof.
  split; [|reflexivity].
  apply (own_account_survives (H := Fixtures.jwt) (H1 := Fixtures.engine)
           (Fixtures.request "token-1" "2" JNull) Fixtures.db 0
           (set_user (Fixtures.request "token-1" "2" JNull) (1, Fixtures.adminUser))
           1 Fixtures.adminUser eq_refl eq_refl).
  intros Habs. vm_compute in Habs. discriminate Habs.
Defined.

Lemma delete_user_clears_references_witness :
  ∃ db',
    Users.delete (H := Fixtures.jwt) (H1 := Fixtures.engine) (Fixtures.request "token-1" "2" JNull)
      Fixtures.db 0
    = (db', successResponse (JObj []) "User deleted successfully" 200)
    ∧ users db' = delete 2 (users Fixtures.db)
    ∧ size (leads db') = size (leads Fixtures.db).
Proof.
  destruct (delete_user_clears_references (H := Fixtures.jwt) (H1 := Fixtures.engine)
              (Fixtures.request "token-1" "2" JNull) Fixtures.db 0 _ 1
              Fixtures.adminUser 2 Fixtures.regularUser
              eq_refl eq_refl eq_refl eq_refl ltac:(discriminate) eq_refl)
    as (db' & Hrun & Husers & _ & _ & _ & _ & Hleads & _).
  by exists db'.
Defined.

Lemma user_update_keeps_passwords_witness :
  let req := Fixtures.request "token-1" "02"
               (JObj [("name", JStr "Renamed"); ("password", JStr "secret2")]%string) in
  Spec.typed_user_body (body req)
  ∧ User.password
      <$> users (Users.update (H := Fixtures.jwt) (H0 := Fixtures.validator)
                   (H1 := Fixtures.engine) req Fixtures.db 7).1 !! 2
    = Some "$2a$user123"%string
  ∧ User.name
      <$> users (Users.update (H := Fixtures.jwt) (H0 := Fixtures.validator)
                   (H1 := Fixtures.engine) req Fixtures.db 7).1 !! 2
    = Some "Renamed"%string.
Proof.
  intros req.
  assert (Spec.typed_user_body (body req)) as Htyped.
  { intros fields key v [= <-] Hkey Hget.
    apply elem_of_cons in Hkey as [->|Hkey].
    { injection Hget as <-. eexists. split; [done|]. discriminate. }
    apply elem_of_cons in Hkey as [->|Hkey]; [done|].
    apply elem_of_cons in Hkey as [->|Hkey]; [done|].
    by apply elem_of_nil in Hkey. }
  split; [exact Htyped|].
  destruct (user_update_keeps_passwords (H := Fixtures.jwt) (H0 := Fixtures.validator)
              (H1 := Fixtures.engine) req Fixtures.db 7 Htyped)
    as (_ & _ & _ & _ & Hpassword & _).
  split; [|reflexivity].
  rewrite Hpassword. reflexivity.
Defined.

(** ** [parseInt] stops at the first character that is no digit *)

Section ParseIntPrefix.
Import JS.
Local Open Scope string_scope.

Lemma pretty_N_go_app (x : N) : ∀ s t : string,
  pretty_N_go x s ++ t = pretty_N_go x (s ++ t).
Proof.
  induction (N.lt_wf_0 x) as [x _ IH]. intros s t.
  destruct (decide (x = 0)%N) as [->|Hx].
  - by rewrite !pretty_N_go_0.
  - rewrite !(pretty_N_go_step x) by lia.
    rewrite IH by (apply N.div_lt; lia). done.
Qed.

Lemma parse_digits_stop (junk : string) (acc : option Z) :
  junk = "" ∨ (∃ c r, junk = String c r ∧ digit_of 10 c = None) →
  parse_digits 10 junk acc = acc.
Proof. intros [->|(c & r & -> & Hc)]; simpl; [done|]. by rewrite Hc. Qed.

Lemma parseInt_pretty_prefix (z : Z) (junk : string) :
  z ≠ 0 →
  junk = "" ∨ (∃ c r, junk = String c r ∧ digit_of 10 c = None) →
  parseInt (pretty z ++ junk) = Some z.
Proof.
  intros Hz Hjunk. destruct z as [|p|p]; [done| |].
  - change (pretty (Z.pos p)) with (pretty (N.pos p)).
    unfold pretty, pretty_N. rewrite decide_False by done.
    rewrite pretty_N_go_app. change ("" ++ junk) with junk.
    destruct (pretty_N_go_head (N.pos p) junk ltac:(lia)) as (d & rest & Hd & Heq).
    rewrite Heq, parseInt_unsigned, <- Heq by done.
    rewrite parse_digits_pretty_N_go by lia.
    by rewrite parse_digits_stop.
  - change (pretty (Z.neg p)) with ("-" +:+ pretty (N.pos p)).
    unfold pretty, pretty_N. rewrite decide_False by done.
    change (("-" +:+ pretty_N_go (N.pos p) "") ++ junk)
      with (String "-" (pretty_N_go (N.pos p) "" ++ junk)).
    rewrite pretty_N_go_app. change ("" ++ junk) with junk.
    destruct (pretty_N_go_head (N.pos p) junk ltac:(lia)) as (d & rest & Hd & Heq).
    rewrite Heq, parseInt_negative, <- Heq by done.
    rewrite parse_digits_pretty_N_go by lia.
    by rewrite parse_digits_stop.
Qed.

End ParseIntPrefix.

Section SelfDeleteGuard.
Context `{Jwt.Lib, Validator.Lib, Engine.Lib}.
Local Open Scope string_scope.

(** X14. The guard of [DELETE /api/users/:id] compares [parseInt] of the
    parameter with the caller's id, so it also refuses a parameter that
    merely starts with the caller's id, such as ["1abc"] for the user 1: the
    answer is 400 [VALIDATION_ERROR], not 404, and nothing is deleted. *)
Theorem self_delete_guard_reads_prefix req db now req' uid u junk :
  Auth.authenticateToken req db now = inr req' →
  user req' = Some (uid, u) →
  User.role u = User.admin →
  uid ≠ 0 →
  params_id req = pretty uid ++ junk →
  junk = "" ∨ (∃ c r, junk = String c r ∧ JS.digit_of 10 c = None) →
  Users.delete req db now
  = (db, errorResponse "Cannot delete your own account" "VALIDATION_ERROR" 400).
Proof.
  intros Hauth Hu Hrole Hnz Hid Hjunk.
  unfold Users.delete, Users.stack, Auth.requireAdmin.
  rewrite (route_authenticated _ _ _ _ _ _ _ _ _ Hauth Hu).
  rewrite decide_True by (rewrite Hrole; constructor). simpl.
  unfold Users.delete_handler.
  destruct (authenticateToken_next _ _ _ _ Hauth) as (id' & u' & _ & ->).
  simpl in *. rewrite Hid, parseInt_pretty_prefix by done. simplify_eq.
  by rewrite Z.eqb_refl.
Qed.

End SelfDeleteGuard.

Lemma self_delete_guard_reads_prefix_witness :
  Users.delete (H := Fixtures.jwt) (H1 := Fixtures.engine) (Fixtures.request "token-1" "1abc" JNull)
    Fixtures.db 0
  = (Fixtures.db,
     errorResponse "Cannot delete your own account" "VALIDATION_ERROR" 400).
Proof.
  apply (self_delete_guard_reads_prefix (H := Fixtures.jwt) (H1 := Fixtures.engine)
           (Fixtures.request "token-1" "1abc" JNull) Fixtures.db 0 _ 1
           Fixtures.adminUser "abc" eq_refl eq_refl eq_refl ltac:(discriminate)
           eq_refl).
  right. by exists "a"%char, "bc"%string.
Defined.

(** ** What passes a schema ([middleware/validation.js]) *)

Section SchemaFacts.
Context `{Jwt.Lib, Joi.Lib, Engine.Lib}.
Local Open Scope string_scope.

(** The converse of [validate_accepts]. *)
Lemma validate_sound schema value :
  Joi.validate schema value = None →
  ∃ fields, value = JObj fields
    ∧ Forall (λ kv, kv.1 ∈ schema.*1) fields
    ∧ Forall (λ lk, Joi.validate_key lk.1 lk.2 (jget lk.1 fields) = None) schema.
Proof.
  unfold Joi.validate. destruct value as [| | | | |fields]; try done.
  intros Hv. exists fields. split; [done|].
  destruct (list_find _ schema) as [[i [label k]]|] eqn:Hfind.
  - apply list_find_Some in Hfind as (_ & [e He] & _). simpl in *. congruence.
  - destruct (list_find _ fields) as [[i [label v]]|] eqn:Hunknown; [done|].
    apply list_find_None in Hfind, Hunknown. split.
    + eapply Forall_impl; [exact Hunknown|]. intros kv Hkv. simpl in Hkv.
      by destruct (decide (kv.1 ∈ schema.*1)).
    + eapply Forall_impl; [exact Hfind|]. intros lk Hlk. simpl in Hlk.
      destruct (Joi.validate_key lk.1 lk.2 (jget lk.1 fields)); [|done].
      exfalso. apply Hlk. by eexists.
Qed.

Lemma jget_unknown key (fields : list (string * JValue)) (keys : list string) :
  Forall (λ kv, kv.1 ∈ keys) fields → key ∉ keys → jget key fields = None.
Proof.
  intros Hall Hnot. induction Hall as [|[k v] rest Hk _ IH]; [done|].
  simpl in *. destruct (String.eqb_spec k key) as [->|]; [done|]. exact IH.
Qed.

(** X15. A request passes [validate(schema)] only unchanged, with an
    object for a body, all of whose keys the schema declares and which has
    every key the schema requires; what does not pass is answered 400
    [VALIDATION_ERROR]. *)
Theorem validate_passes_only schema req db now :
  match Validation.validate schema req db now with
  | inr req' =>
      req' = req
      ∧ ∃ fields, body req = JObj fields
          ∧ (∀ key, is_Some (jget key fields) → key ∈ schema.*1)
          ∧ (∀ label k, (label, k) ∈ schema → Joi.required k = true →
                        is_Some (jget label fields))
  | inl res =>
      status res = 400 ∧ code res = Some "VALIDATION_ERROR"
      ∧ success res = false ∧ data res = None
  end.
Proof.
  unfold Validation.validate.
  destruct (Joi.validate schema (body req)) as [e|] eqn:Hv; [done|].
  split; [done|].
  apply validate_sound in Hv as (fields & Hbody & Hknown & Hkeys).
  exists fields. split; [done|]. split.
  - intros key [v Hget]. destruct (decide (key ∈ schema.*1)) as [|Hnot]; [done|].
    by rewrite (jget_unknown key fields _ Hknown Hnot) in Hget.
  - intros label k Hin Hreq. rewrite Forall_forall in Hkeys.
    specialize (Hkeys _ Hin). simpl in Hkeys.
    destruct (jget label fields); [by eexists|].
    unfold Joi.validate_key in Hkeys. by rewrite Hreq in Hkeys.
Qed.

Lemma through_leads_stack req db now :
  match through Leads.stack req db now with
  | inl res => success res = false ∧ status res ∈ [401; 403]
  | inr req' => body req' = body req ∧ params_id req' = params_id req
                ∧ Auth.authenticateToken req db now = inr req'
  end.
Proof.
  unfold Leads.stack. simpl.
  destruct (Auth.authenticateToken req db now) as [res|req1] eqn:Hauth.
  - destruct (authenticateToken_answers_401 _ _ _ _ Hauth) as [Hst _].
    split; [|rewrite Hst; repeat constructor].
    revert Hauth. unfold Auth.authenticateToken.
    repeat case_match; intros; by simplify_eq.
  - destruct (authenticateToken_next _ _ _ _ Hauth) as (id & u & _ & ->).
    unfold Auth.requireUser. rewrite requireRole_spec. simpl.
    rewrite decide_True by (destruct (User.role u); repeat constructor). done.
Qed.

(** X16. [POST /api/leads] never creates a lead.  Whatever the request,
    the database is as before and the answer is a failure with status 400,
    401, 403 or 500: the schema refuses the key [customer_id], and the model
    refuses a lead without it. *)
Theorem create_lead_never_succeeds req db now :
  ∃ res,
    Leads.create req db now = (db, res)
    ∧ success res = false
    ∧ status res ∈ [400; 401; 403; 500].
Proof.
  unfold Leads.create. rewrite route_through, through_app.
  pose proof (through_leads_stack req db now) as Hstack.
  destruct (through Leads.stack req db now) as [res|req'].
  { exists res. destruct Hstack as [Hs Hst]. split; [done|]. split; [done|].
    apply elem_of_cons in Hst as [->|Hst]; [repeat constructor|].
    apply list_elem_of_singleton in Hst as ->. repeat constructor. }
  simpl. unfold Validation.validate.
  destruct (Joi.validate Validation.leadSchema (body req')) as [e|] eqn:Hv.
  { eexists. split; [reflexivity|]. split; [done|]. simpl. repeat constructor. }
  apply validate_sound in Hv as (fields & Hbody & Hknown & _).
  unfold Leads.create_handler. rewrite Hbody.
  assert (jget "customer_id" fields = None) as Hcid.
  { apply (jget_unknown _ _ _ Hknown). simpl.
    intros Hin. by repeat (apply elem_of_cons in Hin as [Hin|Hin]; [discriminate|]);
      apply elem_of_nil in Hin. }
  unfold LeadModel.create. rewrite Hcid.
  match goal with |- context [match ?v with [] => _ | _ :: _ => _ end] =>
    destruct v eqn:Hviolations end.
  - apply (f_equal length) in Hviolations.
    rewrite !length_app in Hviolations. simpl in Hviolations. lia.
  - eexists. split; [reflexivity|]. split; [done|]. simpl. repeat constructor.
Qed.

(** X17. The two endpoints that write an enumerated field,
    [PUT /api/leads/:id/stage] and [PUT /api/tasks/:id/status], answer 400
    [VALIDATION_ERROR] and leave the database as it is, whatever the handler
    would do, unless the body gives the field one of the values of the
    enumeration. *)
Theorem enumerated_field_guarded (e : Routes.Mutating) (key : string)
    (allowed : list string) (h : Handler) req db now req' :
  (e, key, allowed)
    ∈ [(Routes.leads_update_stage, "stage",
        ["lead"; "qualified"; "proposal"; "closed"]);
       (Routes.tasks_update_status, "status",
        ["pending"; "in-progress"; "completed"])] →
  through (Routes.guards e) req db now = inr req' →
  (∀ fields s, body req' = JObj fields → jget key fields = Some (JStr s) →
               s ∉ allowed) →
  ∃ res,
    Routes.mount e h req db now = (db, res)
    ∧ status res = 400 ∧ code res = Some "VALIDATION_ERROR".
Proof.
  intros He Hguards Hbad.
  assert (∃ schema k, Routes.schema_of e = Some schema
                      ∧ schema = [(key, k)] ∧ Joi.required k = true
                      ∧ Joi.allow k = [] ∧ Joi.valid k = Some allowed)
    as (schema & k & Hschema & -> & Hreq & Hallow & Hvalid).
  { apply elem_of_cons in He as [He|He];
      [|apply list_elem_of_singleton in He]; simplify_eq;
      eexists _, _; (split; [reflexivity|]); done. }
  destruct (Joi.validate [(key, k)] (body req')) as [err|] eqn:Hv.
  - exists (mkResponse 400 false None None (Some (Joi.message err))
              (Some "VALIDATION_ERROR")).
    split; [|done]. by apply (validated_endpoint_rejects e [(key, k)] h req db now req').
  - exfalso. apply validate_sound in Hv as (fields & Hbody & _ & Hkeys).
    apply Forall_cons in Hkeys as [Hkey _]. simpl in Hkey.
    unfold Joi.validate_key in Hkey. rewrite Hreq, Hallow, Hvalid in Hkey.
    destruct (jget key fields) as [v|] eqn:Hget; [|done]. simpl in Hkey.
    destruct (existsb _ allowed) eqn:Hex; [|done].
    apply existsb_exists in Hex as (s & Hs & Hmatch).
    destruct v; try done. simpl in Hmatch. apply String.eqb_eq in Hmatch as ->.
    apply (Hbad fields s Hbody Hget). by apply list_elem_of_In.
Qed.

End SchemaFacts.

Lemma validate_passes_only_witness :
  let req := mkRequest None "" None None
               (JObj [("email", JStr "admin@crm.com")]%string) None in
  ∃ res,
    Validation.validate (H := Fixtures.joi) Validation.loginSchema req Fixtures.db 0
    = inl res
    ∧ status res = 400 ∧ code res = Some "VALIDATION_ERROR"%string
    ∧ error res = Some "Password is required"%string.
Proof.
  intros req.
  pose proof (validate_passes_only (H0 := Fixtures.joi) Validation.loginSchema
                req Fixtures.db 0) as Hv.
  destruct (Validation.validate (H := Fixtures.joi) Validation.loginSchema
              req Fixtures.db 0) as [res|req'] eqn:Hrun.
  - exists res. split; [reflexivity|].
    destruct Hv as (Hstatus & Hcode & _). split; [exact Hstatus|].
    split; [exact Hcode|]. vm_compute in Hrun. by injection Hrun as <-.
  - vm_compute in Hrun. discriminate Hrun.
Defined.

Lemma enumerated_field_guarded_witness :
  ∃ res,
    Leads.update_stage (H := Fixtures.jwt) (H0 := Fixtures.joi)
      (H1 := Fixtures.engine)
      (Fixtures.request "token-2" "1" (JObj [("stage", JStr "won")]%string))
      Fixtures.db 7 = (Fixtures.db, res)
    ∧ status res = 400 ∧ code res = Some "VALIDATION_ERROR"%string.
Proof.
  apply (enumerated_field_guarded (H := Fixtures.jwt) (H0 := Fixtures.joi)
           Routes.leads_update_stage "stage"
           ["lead"; "qualified"; "proposal"; "closed"]%string
           (Leads.update_stage_handler (H1 := Fixtures.engine))
           (Fixtures.request "token-2" "1" (JObj [("stage", JStr "won")]%string))
           Fixtures.db 7
           (set_user (Fixtures.request "token-2" "1"
                        (JObj [("stage", JStr "won")]%string))
                     (2, Fixtures.regularUser))).
  - constructor.
  - reflexivity.
  - intros fields s [= <-] [= <-] Hin.
    by repeat (apply elem_of_cons in Hin as [Hin|Hin]; [discriminate|]);
      apply elem_of_nil in Hin.
Defined.

(** ** Reading and deleting leads, deleting customers *)

Section DeleteFacts.
Context `{Jwt.Lib, Joi.Lib, Engine.Lib}.
Local Open Scope string_scope.

(** Both roles pass the guards of the leads and customers routers. *)
Lemma leads_stack_passes (h : Handler) req db now req' :
  Auth.authenticateToken req db now = inr req' →
  route Leads.stack h req db now = h req' db now.
Proof.
  intros Hauth.
  destruct (authenticateToken_next _ _ _ _ Hauth) as (id & u & _ & Hreq').
  unfold Leads.stack, Auth.requireUser.
  rewrite (route_authenticated _ _ _ _ _ _ _ id u Hauth) by (by subst).
  by rewrite decide_True by (destruct (User.role u); repeat constructor).
Qed.

Lemma authenticated_params req db now req' :
  Auth.authenticateToken req db now = inr req' →
  params_id req' = params_id req ∧ body req' = body req.
Proof.
  intros Hauth. by destruct (authenticateToken_next _ _ _ _ Hauth) as (? & ? & _ & ->).
Qed.

(** X18. [DELETE /api/leads/:id] removes that lead and nothing else; asked
    again, and asked to read the lead, the router answers 404. *)
Theorem delete_lead_removes_one req db now req' id l :
  Auth.authenticateToken req db now = inr req' →
  params_id req = pretty id →
  leads db !! id = Some l →
  ∃ db',
    LeadRoutes.delete req db now
    = (db', successResponse (JObj []) "Lead deleted successfully" 200)
    ∧ leads db' = delete id (leads db)
    ∧ users db' = users db ∧ customers db' = customers db
    ∧ tasks db' = tasks db ∧ interactions db' = interactions db
    ∧ LeadRoutes.delete req db' now
      = (db', errorResponse "Lead not found" "NOT_FOUND" 404)
    ∧ LeadRoutes.read req db' now
      = (db', errorResponse "Lead not found" "NOT_FOUND" 404).
Proof.
  intros Hauth Hid Hl.
  destruct (authenticated_params _ _ _ _ Hauth) as [Hparams _].
  exists (LeadRoutes.Lead_destroy id db).
  assert (Auth.authenticateToken req (LeadRoutes.Lead_destroy id db) now = inr req')
    as Hauth' by (by rewrite <- (authenticateToken_users req db)).
  unfold LeadRoutes.delete, LeadRoutes.read.
  rewrite (leads_stack_passes _ _ _ _ _ Hauth), !(leads_stack_passes _ _ _ _ _ Hauth').
  unfold LeadRoutes.delete_handler, LeadRoutes.read_handler.
  rewrite Hparams, Hid, !findByPk_pretty, Hl. simpl.
  rewrite lookup_delete_eq. by repeat split.
Qed.

(** X19. After [PUT /api/leads/:id/stage] has moved a lead,
    [GET /api/leads/:id] shows the lead in its new stage, with the title and
    the customer it had. *)
Theorem read_after_stage_update req db now now' req' req'' id l st :
  Auth.authenticateToken req db now = inr req' →
  Auth.authenticateToken req db now' = inr req'' →
  params_id req = pretty id →
  leads db !! id = Some l →
  body req = JObj [("stage", JStr (Lead.stage_name st))] →
  ∃ fields,
    LeadRoutes.read req (Leads.update_stage req db now).1 now'
    = ((Leads.update_stage req db now).1,
       successResponse (JObj [("lead", JObj fields)]) "Success" 200)
    ∧ jget "id" fields = Some (jint id)
    ∧ jget "stage" fields = Some (JStr (Lead.stage_name st))
    ∧ jget "title" fields = Some (JStr (Lead.title l))
    ∧ jget "customer_id" fields = Some (jint (Lead.customer_id l)).
Proof.
  intros Hauth Hauth' Hid Hl Hbody.
  destruct (authenticated_params _ _ _ _ Hauth) as [Hparams Hbody'].
  destruct (authenticated_params _ _ _ _ Hauth') as [Hparams' _].
  assert (∃ l', users (Leads.update_stage req db now).1 = users db
                ∧ leads (Leads.update_stage req db now).1 !! id = Some l'
                ∧ Lead.stage l' = st ∧ Lead.title l' = Lead.title l
                ∧ Lead.customer_id l' = Lead.customer_id l)
    as (l' & Husers & Hl' & Hstage & Htitle & Hcustomer).
  { unfold Leads.update_stage.
    rewrite (route_leads_stack _ _ _ _ _ _ Hauth)
      by (rewrite Hbody; apply updateLeadStageSchema_accepts).
    unfold Leads.update_stage_handler, AuthRoutes.body_field.
    rewrite Hparams, Hbody', Hid, Hbody, findByPk_pretty, Hl. simpl.
    unfold LeadModel.update_stage, LeadModel.check_stage, LeadModel.stage_of.
    rewrite stage_of_name_stage_name. simpl.
    destruct (decide (st = Lead.stage l)) as [->|Hne].
    - rewrite bool_decide_eq_true_2 by done. by exists l.
    - rewrite bool_decide_eq_false_2 by done. simpl.
      eexists. split; [done|]. split; [apply lookup_insert_eq|done]. }
  unfold LeadRoutes.read.
  rewrite (leads_stack_passes _ _ _ _ req'')
    by (by rewrite (authenticateToken_users req _ db)).
  unfold LeadRoutes.read_handler.
  rewrite Hparams', Hid, findByPk_pretty, Hl'. simpl.
  eexists. split; [reflexivity|]. simpl.
  rewrite Hstage, Htitle, Hcustomer. by repeat split.
Qed.

(** X20. [DELETE /api/customers/:id] touches nothing that belongs to
    another customer: the users, the other customers, the leads,
    interactions and tasks of other customers are as before, and no task is
    removed.  Asked again, the router answers 404. *)
Theorem delete_customer_frame req db now req' c cust :
  Auth.authenticateToken req db now = inr req' →
  params_id req = pretty c →
  customers db !! c = Some cust →
  ∃ db',
    Customers.delete req db now
    = (db', successResponse (JObj []) "Customer deleted successfully" 200)
    ∧ users db' = users db
    ∧ (∀ c', c' ≠ c → customers db' !! c' = customers db !! c')
    ∧ (∀ id l, leads db !! id = Some l → Lead.customer_id l ≠ c →
               leads db' !! id = Some l)
    ∧ (∀ id i, interactions db !! id = Some i → Interaction.customer_id i ≠ c →
               interactions db' !! id = Some i)
    ∧ (∀ id t, tasks db !! id = Some t → Task.customerId t ≠ Some c →
               tasks db' !! id = Some t)
    ∧ size (tasks db') = size (tasks db)
    ∧ Customers.delete req db' now
      = (db', errorResponse "Customer not found" "NOT_FOUND" 404).
Proof.
  intros Hauth Hid Hc.
  destruct (authenticated_params _ _ _ _ Hauth) as [Hparams _].
  assert (∀ db1, users db1 = users db →
            Customers.delete req db1 now = Customers.delete_handler req' db1 now)
    as Hroute.
  { intros db1 Hu. unfold Customers.delete.
    change Customers.stack with Leads.stack.
    apply leads_stack_passes. by rewrite (authenticateToken_users req db1 db). }
  rewrite Hroute by done. unfold Customers.delete_handler at 1.
  rewrite Hparams, Hid, findByPk_pretty, Hc. cbn [fmap option_fmap option_map].
  rewrite Customer_destroy_spec.
  eexists. split; [reflexivity|]. cbn [users customers leads tasks interactions].
  split; [done|].
  split; [intros c' Hne; by apply lookup_delete_ne|].
  split; [intros id l Hl Hne; by apply map_lookup_filter_Some|].
  split; [intros id i Hi Hne; by apply map_lookup_filter_Some|].
  split; [intros id t Ht Hne; by rewrite lookup_fmap, Ht; simpl; rewrite decide_False|].
  split; [apply map_size_fmap|].
  rewrite Hroute by done. unfold Customers.delete_handler.
  rewrite Hparams, Hid, findByPk_pretty. simpl. by rewrite lookup_delete_eq.
Qed.

End DeleteFacts.

Lemma delete_lead_removes_one_witness :
  ∃ db',
    LeadRoutes.delete (H := Fixtures.jwt) (H0 := Fixtures.engine)
          (Fixtures.request "token-2" "1" JNull)
      Fixtures.db 0
    = (db', successResponse (JObj []) "Lead deleted successfully" 200)
    ∧ leads db' = delete 1 (leads Fixtures.db)
    ∧ LeadRoutes.read (H := Fixtures.jwt) (H0 := Fixtures.engine)
          (Fixtures.request "token-2" "1" JNull) db' 0
      = (db', errorResponse "Lead not found" "NOT_FOUND" 404).
Proof.
  destruct (delete_lead_removes_one (H := Fixtures.jwt) (H1 := Fixtures.engine)
              (Fixtures.request "token-2" "1" JNull) Fixtures.db 0 _ 1 Fixtures.deal
              eq_refl eq_refl eq_refl)
    as (db' & Hrun & Hleads & _ & _ & _ & _ & _ & Hread).
  by exists db'.
Defined.

Lemma read_after_stage_update_witness :
  let req := Fixtures.request "token-2" "1"
               (JObj [("stage", JStr (Lead.stage_name Lead.closed))]%string) in
  ∃ fields,
    LeadRoutes.read (H := Fixtures.jwt) (H0 := Fixtures.engine) req
      (Leads.update_stage (H := Fixtures.jwt) (H0 := Fixtures.joi)
      (H1 := Fixtures.engine) req Fixtures.db 7).1 8
    = ((Leads.update_stage (H := Fixtures.jwt) (H0 := Fixtures.joi)
      (H1 := Fixtures.engine) req Fixtures.db 7).1,
       successResponse (JObj [("lead", JObj fields)]) "Success" 200)
    ∧ jget "stage" fields = Some (JStr "closed").
Proof.
  intros req.
  destruct (read_after_stage_update (H := Fixtures.jwt) (H0 := Fixtures.joi)
              (H1 := Fixtures.engine)
              req Fixtures.db 7 8 _ _ 1 Fixtures.deal Lead.closed
              eq_refl eq_refl eq_refl eq_refl eq_refl)
    as (fields & Hread & _ & Hstage & _).
  by exists fields.
Defined.

Lemma delete_customer_frame_witness :
  ∃ db',
    Customers.delete (H := Fixtures.jwt) (H0 := Fixtures.engine)
          (Fixtures.request "token-1" "1" JNull)
      Fixtures.db 7
    = (db', successResponse (JObj []) "Customer deleted successfully" 200)
    ∧ users db' = users Fixtures.db
    ∧ Customers.delete (H := Fixtures.jwt) (H0 := Fixtures.engine)
          (Fixtures.request "token-1" "1" JNull) db' 7
      = (db', errorResponse "Customer not found" "NOT_FOUND" 404).
Proof.
  destruct (delete_customer_frame (H := Fixtures.jwt) (H1 := Fixtures.engine)
              (Fixtures.request "token-1" "1" JNull) Fixtures.db 7 _ 1 Fixtures.acme
              eq_refl eq_refl eq_refl)
    as (db' & Hrun & Husers & _ & _ & _ & _ & _ & Hagain).
  by exists db'.
Defined.

(** ** Referential integrity is an invariant of the routes *)

Section IntegrityFacts.
Context `{Jwt.Lib, Bcrypt.Lib, Validator.Lib, Joi.Lib, Engine.Lib}.
Import Integrity.
Local Open Scope string_scope.

Lemma route_preserves (P : DB → Prop) stack (h : Handler) :
  (∀ req db now, P db → P (h req db now).1) →
  ∀ req db now, P db → P (route stack h req db now).1.
Proof.
  intros Hh req db now HP. rewrite route_through.
  destruct (through stack req db now); [done|by apply Hh].
Qed.

Lemma refers_grow {A} (tbl tbl' : gmap Z A) ref :
  (∀ k, is_Some (tbl !! k) → is_Some (tbl' !! k)) →
  refers tbl ref → refers tbl' ref.
Proof. intros Hgrow Href k Hk. by apply Hgrow, Href. Qed.

(** Rows that were in order stay in order when no referenced row goes. *)
Lemma consistent_grow db db' :
  (∀ k, is_Some (customers db !! k) → is_Some (customers db' !! k)) →
  (∀ k, is_Some (users db !! k) → is_Some (users db' !! k)) →
  map_Forall (λ _, lead_ok db) (leads db') →
  map_Forall (λ _, task_ok db) (tasks db') →
  map_Forall (λ _, interaction_ok db) (interactions db') →
  consistent db'.
Proof.
  intros Hc Hu Hl Ht Hi. split; [|split].
  - intros id l Hrow. destruct (Hl id l Hrow). split; by eapply refers_grow.
  - intros id t Hrow. destruct (Ht id t Hrow). split; by eapply refers_grow.
  - intros id i Hrow. destruct (Hi id i Hrow). split; by eapply refers_grow.
Qed.

Lemma refers_delete {A} (tbl : gmap Z A) id ref :
  refers tbl ref → ref ≠ Some id → refers (delete id tbl) ref.
Proof.
  intros Href Hne k ->. rewrite lookup_delete_ne by congruence. by apply Href.
Qed.

Lemma Customer_destroy_consistent id db db' :
  consistent db → Customer_destroy id db = inr db' → consistent db'.
Proof.
  intros (Hl & Ht & Hi). rewrite Customer_destroy_spec. intros [= <-].
  split; [|split]; cbn [users customers leads tasks interactions].
  - intros lid l [Hrow Hne]%map_lookup_filter_Some. simpl in Hne.
    destruct (Hl lid l Hrow) as [Hcust Huser]. split; [|done].
    apply refers_delete; [done|congruence].
  - intros tid t'. rewrite lookup_fmap.
    destruct (tasks db !! tid) as [t|] eqn:Hrow; [|done]. intros [= <-].
    destruct (Ht tid t Hrow) as [Hcust Huser].
    destruct (decide (Task.customerId t = Some id)) as [Heq|Hne].
    + split; [by intros k|done].
    + split; [by apply refers_delete|done].
  - intros iid i [Hrow Hne]%map_lookup_filter_Some. simpl in Hne.
    destruct (Hi iid i Hrow) as [Hcust Huser]. split; [|done].
    apply refers_delete; [done|congruence].
Qed.

Lemma User_destroy_consistent id db db' :
  consistent db → User_destroy id db = inr db' → consistent db'.
Proof.
  intros (Hl & Ht & Hi). rewrite User_destroy_spec. intros [= <-].
  split; [|split]; cbn [users customers leads tasks interactions].
  - intros lid l'. rewrite lookup_fmap.
    destruct (leads db !! lid) as [l|] eqn:Hrow; [|done]. intros [= <-].
    destruct (Hl lid l Hrow) as [Hcust Huser].
    destruct (decide (Lead.assigned_to l = Some id)) as [Heq|Hne].
    + split; [done|by intros k].
    + split; [done|by apply refers_delete].
  - intros tid t'. rewrite lookup_fmap.
    destruct (tasks db !! tid) as [t|] eqn:Hrow; [|done]. intros [= <-].
    destruct (Ht tid t Hrow) as [Hcust Huser].
    destruct (decide (Task.assignedTo t = Some id)) as [Heq|Hne].
    + split; [done|by intros k].
    + split; [done|by apply refers_delete].
  - intros iid i'. rewrite lookup_fmap.
    destruct (interactions db !! iid) as [i|] eqn:Hrow; [|done]. intros [= <-].
    destruct (Hi iid i Hrow) as [Hcust Huser].
    destruct (decide (Interaction.created_by i = Some id)) as [Heq|Hne].
    + split; [done|by intros k].
    + split; [done|by apply refers_delete].
Qed.

Lemma set_users_consistent db id u :
  consistent db →
  ∀ seq, consistent (mkDB (<[id := u]> (users db)) (customers db) (leads db)
                          (tasks db) (interactions db) seq (leads_seq db)).
Proof.
  intros (Hl & Ht & Hi) seq. apply (consistent_grow db); try done.
  intros k Hk. simpl. apply lookup_insert_is_Some'. by right.
Qed.

Lemma LeadModel_create_consistent values db now db' row :
  consistent db → LeadModel.create values db now = inr (db', row) → consistent db'.
Proof.
  intros Hdb. pose proof Hdb as (Hl & Ht & Hi). unfold LeadModel.create.
  match goal with |- context [match ?v with [] => _ | _ :: _ => _ end] =>
    destruct v; [|done] end.
  match goal with |- context [if ?b then _ else inl _] =>
    destruct b eqn:Hrefs; [|done] end.
  intros [= <- _]. apply andb_true_iff in Hrefs as [Hcust Huser].
  apply bool_decide_eq_true in Hcust.
  apply (consistent_grow db); try done.
  cbn [leads LeadModel.set_leads]. apply map_Forall_insert_2; [|done].
  split; [by intros k [= <-]|].
  intros a Ha. simpl in Ha. rewrite Ha in Huser.
  by apply bool_decide_eq_true in Huser.
Qed.

Lemma LeadModel_update_stage_consistent id l stage db now db' :
  consistent db → leads db !! id = Some l →
  LeadModel.update_stage id l stage db now = inr db' → consistent db'.
Proof.
  intros Hdb Hrow. pose proof Hdb as (Hl & Ht & Hi). unfold LeadModel.update_stage.
  destruct stage as [v|]; [|by intros [= <-]].
  destruct (LeadModel.check_stage (Some v)); [|done].
  destruct (bool_decide _); intros [= <-]; [done|].
  apply (consistent_grow db); try done.
  cbn [leads LeadModel.set_leads]. apply map_Forall_insert_2; [|done].
  apply (Hl id l Hrow).
Qed.

(** X21. Referential integrity is kept by every route of the development
    that writes: if each reference of a lead, a task or an interaction names
    an existing customer or user before the request, so it does after it,
    whatever the request is. *)
Theorem routes_keep_references req db now :
  consistent db →
  consistent (AuthRoutes.register req db now).1
  ∧ consistent (Users.update req db now).1
  ∧ consistent (Users.delete req db now).1
  ∧ consistent (Customers.delete req db now).1
  ∧ consistent (Leads.create req db now).1
  ∧ consistent (Leads.update_stage req db now).1
  ∧ consistent (LeadRoutes.delete req db now).1.
Proof.
  intros Hdb0.
  unfold AuthRoutes.register, Users.update, Users.delete, Customers.delete,
    Leads.create, Leads.update_stage, LeadRoutes.delete.
  assert (∀ stack (h : Handler),
            (∀ req db now, consistent db → consistent (h req db now).1) →
            consistent (route stack h req db now).1) as Hroute
    by (intros stack h Hh; by apply (route_preserves consistent)).
  refine (conj (Hroute _ _ _) (conj (Hroute _ _ _) (conj (Hroute _ _ _)
            (conj (Hroute _ _ _) (conj (Hroute _ _ _) (conj (Hroute _ _ _)
               (Hroute _ _ _)))))));
    clear Hroute Hdb0; clear req db now; intros req db now Hdb.
  - unfold AuthRoutes.register_handler.
    destruct (UserModel.findOne_email _ db); [done|].
    destruct (UserModel.create _ _ _ _ db now) as [e|[db' [id u]]] eqn:Hcreate; [done|].
    simpl. revert Hcreate. unfold UserModel.create.
    match goal with |- context [match ?v with [] => _ | _ :: _ => _ end] =>
      destruct v; [|done] end.
    destruct (UserModel.findOne_email _ db); [done|].
    destruct (User.role_of_name _); [|done].
    intros [= <- _]. by apply set_users_consistent.
  - unfold Users.update_handler.
    destruct (Sequelize.findByPk _ (users db)) as [msg|[[id u]|]];
    [done| |done].
    destruct (UserModel.update id u _ _ _ db now) as [e|[db' u']] eqn:Hupd; [done|].
    apply UserModel_update_frame in Hupd as (_ & _ & [->| ->]); [done|].
    by apply set_users_consistent.
  - unfold Users.delete_handler.
    destruct (match JS.parseInt (params_id req) with
              | Some n => _ | None => _ end); [done|].
    destruct (Sequelize.findByPk _ (users db)) as [msg|[[id u]|]];
    [done| |done].
    destruct (User_destroy id db) as [e|db'] eqn:Hdestroy; [done|].
    by apply (User_destroy_consistent id db).
  - unfold Customers.delete_handler.
    destruct (Sequelize.findByPk _ (customers db)) as [msg|[[id c]|]];
    [done| |done].
    destruct (Customer_destroy id db) as [e|db'] eqn:Hdestroy; [done|].
    by apply (Customer_destroy_consistent id db).
  - unfold Leads.create_handler.
    destruct (LeadModel.create _ db now) as [e|[db' [id l]]] eqn:Hcreate; [done|].
    by eapply (LeadModel_create_consistent _ db now db' (id, l)).
  - unfold Leads.update_stage_handler.
    destruct (Sequelize.findByPk _ (leads db)) as [msg|[[id l]|]] eqn:Hfind;
    [done| |done].
    apply findByPk_Some in Hfind as [Hrow _].
    destruct (LeadModel.update_stage id l _ db now) as [e|db'] eqn:Hupd; [done|].
    by eapply (LeadModel_update_stage_consistent id l _ db now).
  - unfold LeadRoutes.delete_handler.
    destruct (Sequelize.findByPk _ (leads db)) as [msg|[[id l]|]];
    [done| |done].
    destruct Hdb as (Hl & Ht & Hi).
    apply (consistent_grow db); try done.
    intros lid l' Hrow. cbn in Hrow.
    apply lookup_delete_Some in Hrow as [_ Hrow]. by apply (Hl lid).
Qed.

End IntegrityFacts.

Lemma routes_keep_references_witness :
  Integrity.consistent Fixtures.db
  ∧ Integrity.consistent
      (Customers.delete (H := Fixtures.jwt) (H0 := Fixtures.engine)
            (Fixtures.request "token-1" "1" JNull)
         Fixtures.db 7).1.
Proof.
  assert (Integrity.consistent Fixtures.db) as Hdb.
  { split; [|split]; apply map_Forall_singleton; split; intros k [= <-];
      by eexists. }
  split; [exact Hdb|].
  apply (routes_keep_references (H := Fixtures.jwt) (H0 := Fixtures.bcrypt)
           (H3 := Fixtures.engine)
           (H1 := Fixtures.validator) (H2 := Fixtures.joi)
           (Fixtures.request "token-1" "1" JNull) Fixtures.db 7 Hdb).
Defined.

(** ** Registration and login ([routes/auth.js]) *)

Section AccountFacts.
Context `{Jwt.Lib, Bcrypt.Lib, Validator.Lib, Joi.Lib, Engine.Lib}.
Local Open Scope string_scope.

Lemma findOne_email_Some e db id u :
  UserModel.findOne_email e db = Some (id, u) →
  users db !! id = Some u ∧ User.email u = e.
Proof.
  unfold UserModel.findOne_email.
  destruct (list_find _ _) as [[i [id' u']]|] eqn:Hfind; [|done].
  intros [= -> ->]. apply list_find_Some in Hfind as (Hi & He & _).
  apply list_elem_of_lookup_2, elem_of_map_to_list in Hi. done.
Qed.

Lemma findOne_email_None e db :
  UserModel.findOne_email e db = None ↔
  ∀ id u, users db !! id = Some u → User.email u ≠ e.
Proof.
  unfold UserModel.findOne_email. split.
  - destruct (list_find _ _) as [[i [id' u']]|] eqn:Hfind; [done|]. intros _.
    apply list_find_None in Hfind. rewrite Forall_forall in Hfind.
    intros id u Hrow. apply (Hfind (id, u)). by apply elem_of_map_to_list.
  - intros Hnone.
    destruct (list_find _ _) as [[i [id' u']]|] eqn:Hfind; [|done].
    apply list_find_Some in Hfind as (Hi & He & _).
    apply list_elem_of_lookup_2, elem_of_map_to_list in Hi.
    by destruct (Hnone id' u' Hi).
Qed.

(** The user an e-mail address names, when one user has it. *)
Lemma findOne_email_unique e db id u :
  users db !! id = Some u → User.email u = e →
  (∀ id' u', users db !! id' = Some u' → User.email u' = e → id' = id) →
  UserModel.findOne_email e db = Some (id, u).
Proof.
  intros Hrow He Honly.
  destruct (UserModel.findOne_email e db) as [[id' u']|] eqn:Hfind.
  - apply findOne_email_Some in Hfind as [Hrow' He'].
    pose proof (Honly id' u' Hrow' He') as ->. congruence.
  - rewrite findOne_email_None in Hfind. by destruct (Hfind id u Hrow).
Qed.

Lemma length_nonempty s : (0 < String.length s)%nat → s ≠ "".
Proof. intros Hlen ->. simpl in Hlen. lia. Qed.

(** A string that is not empty and passes the rules of its key. *)
Lemma validate_key_string label k s :
  Joi.base k = Joi.string_ → Joi.allow k = [] → Joi.valid k = None →
  s ≠ "" → Forall (λ r, Joi.string_rule s r = None) (Joi.rules k) →
  Joi.validate_key label k (Some (JStr s)) = None.
Proof.
  intros Hbase Hallow Hvalid Hne Hrules.
  unfold Joi.validate_key, Joi.check_base, Joi.check_string.
  rewrite Hallow, Hvalid, Hbase. simpl.
  destruct (String.eqb_spec s ""); [done|].
  by rewrite first_failure_None.
Qed.

Lemma string_rule_min s n :
  (n ≤ Z.of_nat (String.length s))%Z → Joi.string_rule s (Joi.min n) = None.
Proof.
  intros Hn. simpl. by destruct (Z.ltb_spec (Z.of_nat (String.length s)) n); [lia|].
Qed.

Lemma string_rule_max s n :
  (Z.of_nat (String.length s) ≤ n)%Z → Joi.string_rule s (Joi.max n) = None.
Proof.
  intros Hn. simpl. by destruct (Z.ltb_spec n (Z.of_nat (String.length s))); [lia|].
Qed.

Lemma string_rule_email s :
  Joi.email s = true → Joi.string_rule s Joi.is_email = None.
Proof. intros Hs. simpl. by rewrite Hs. Qed.

(** The body of a registration, with or without a role. *)
Lemma registerSchema_accepts n e p (role : option User.Role) :
  (2 ≤ String.length n ≤ 255)%nat → (6 ≤ String.length p)%nat →
  e ≠ "" → Joi.email e = true →
  Joi.validate Validation.registerSchema
    (JObj ([("name", JStr n); ("email", JStr e); ("password", JStr p)]
           ++ match role with
              | Some r => [("role", JStr (User.role_name r))]
              | None => []
              end)) = None.
Proof.
  intros Hn Hp He Hemail. apply validate_accepts.
  - assert (∀ key, key = "name" ∨ key = "email" ∨ key = "password" →
              jget key ([("name", JStr n); ("email", JStr e); ("password", JStr p)]
                        ++ match role with
                           | Some r => [("role", JStr (User.role_name r))]
                           | None => []
                           end)
              = jget key [("name", JStr n); ("email", JStr e); ("password", JStr p)])
      as Hget by (intros key [->|[->| ->]]; done).
    repeat apply Forall_cons_2; [| | | |apply Forall_nil_2]; cbn [fst snd].
    + rewrite Hget by auto.
      apply (validate_key_string "name" _ n); try done.
      * apply length_nonempty; lia.
      * repeat constructor; [apply string_rule_min|apply string_rule_max]; lia.
    + rewrite Hget by auto.
      apply (validate_key_string "email" _ e); try done.
      repeat constructor. by apply string_rule_email.
    + rewrite Hget by auto.
      apply (validate_key_string "password" _ p); try done.
      * apply length_nonempty; lia.
      * repeat constructor. apply string_rule_min; lia.
    + by destruct role as [[]|].
  - destruct role; repeat constructor.
Qed.

Lemma loginSchema_accepts e p :
  (6 ≤ String.length p)%nat → e ≠ "" → Joi.email e = true →
  Joi.validate Validation.loginSchema
    (JObj [("email", JStr e); ("password", JStr p)]) = None.
Proof.
  intros Hp He Hemail. apply validate_accepts.
  - repeat apply Forall_cons_2; [| |apply Forall_nil_2]; cbn [fst snd].
    + apply (validate_key_string "email" _ e); try done.
      repeat constructor. by apply string_rule_email.
    + apply (validate_key_string "password" _ p); try done.
      * apply length_nonempty; lia.
      * repeat constructor. apply string_rule_min; lia.
  - repeat constructor.
Qed.

Lemma check_len_ok model attr lo hi s :
  (lo ≤ Z.of_nat (String.length s) ≤ hi)%Z →
  UserModel.check_len model attr lo hi (Some (JStr s)) = [].
Proof.
  intros [Hlo Hhi]. unfold UserModel.check_len.
  destruct (Z.leb_spec lo (Z.of_nat (String.length s))); [|lia].
  destruct (Z.leb_spec (Z.of_nat (String.length s)) hi); [done|lia].
Qed.

(** The registration that succeeds. *)
Lemma register_creates req db now n e p (role : option User.Role) :
  body req = JObj ([("name", JStr n); ("email", JStr e); ("password", JStr p)]
                   ++ match role with
                      | Some r => [("role", JStr (User.role_name r))]
                      | None => []
                      end) →
  (2 ≤ String.length n ≤ 255)%nat →
  (6 ≤ String.length p ≤ 255)%nat →
  e ≠ "" → Joi.email e = true → Validator.isEmail e = true →
  (∀ id u, users db !! id = Some u → User.email u ≠ e) →
  let id := users_seq db in
  let u := User.mk n e (Bcrypt.hash p UserModel.saltRounds) (default User.user role)
             now now in
  AuthRoutes.register req db now
  = (mkDB (<[id := u]> (users db)) (customers db) (leads db) (tasks db)
       (interactions db) (id + 1) (leads_seq db),
     successResponse (AuthRoutes.user_and_token id u now)
       "User registered successfully" 201).
Proof.
  intros Hbody Hn Hp He Hjoi Hvalidator Hfree id u.
  unfold AuthRoutes.register. simpl route.
  rewrite validate_passes
    by (rewrite Hbody; apply registerSchema_accepts; [done|lia|done|done]).
  assert (AuthRoutes.body_field "name" req = Some (JStr n)
          ∧ AuthRoutes.body_field "email" req = Some (JStr e)
          ∧ AuthRoutes.body_field "password" req = Some (JStr p)
          ∧ AuthRoutes.body_field "role" req
            = (λ r, JStr (User.role_name r)) <$> role)
    as (Hname & Hemail & Hpassword & Hrole).
  { unfold AuthRoutes.body_field. rewrite Hbody. by destruct role. }
  unfold AuthRoutes.register_handler.
  rewrite Hname, Hemail, Hpassword, Hrole. simpl UserModel.str.
  rewrite (proj2 (findOne_email_None e db)) by done.
  unfold UserModel.create.
  rewrite !check_len_ok by lia. unfold UserModel.check_email.
  rewrite Hvalidator. simpl UserModel.str.
  rewrite (proj2 (findOne_email_None e db)) by done.
  by destruct role as [[]|].
Qed.


(** X23. Who has registered can log in: with the same e-mail address and
    password, [POST /api/auth/login] answers 200 with the registered user,
    provided [bcrypt.compare] accepts the password against its own hash. *)
Theorem login_after_register req req' db now now' n e p :
  body req = JObj [("name", JStr n); ("email", JStr e); ("password", JStr p)] →
  body req' = JObj [("email", JStr e); ("password", JStr p)] →
  (2 ≤ String.length n ≤ 255)%nat →
  (6 ≤ String.length p ≤ 255)%nat →
  e ≠ "" → Joi.email e = true → Validator.isEmail e = true →
  (∀ id u, users db !! id = Some u → User.email u ≠ e) →
  Bcrypt.compare p (Bcrypt.hash p UserModel.saltRounds) = true →
  ∃ u,
    users (AuthRoutes.register req db now).1 !! users_seq db = Some u
    ∧ User.name u = n ∧ User.email u = e ∧ User.role u = User.user
    ∧ AuthRoutes.login req' (AuthRoutes.register req db now).1 now'
      = ((AuthRoutes.register req db now).1,
         successResponse (AuthRoutes.user_and_token (users_seq db) u now')
           "Login successful" 200).
Proof.
  intros Hbody Hbody' Hn Hp He Hjoi Hvalidator Hfree Hcompare.
  rewrite (register_creates req db now n e p None
             Hbody Hn Hp He Hjoi Hvalidator Hfree).
  eexists. split; [apply lookup_insert_eq|]. do 3 (split; [done|]).
  unfold AuthRoutes.login. simpl route.
  rewrite validate_passes
    by (rewrite Hbody'; apply loginSchema_accepts; [lia|done|done]).
  unfold AuthRoutes.login_handler, AuthRoutes.body_field. rewrite Hbody'.
  simpl jget. simpl UserModel.str.
  erewrite findOne_email_unique; [|apply lookup_insert_eq|done|].
  - simpl User.password. by rewrite Hcompare.
  - intros id' u' Hrow Heq. simpl in Hrow.
    destruct (decide (id' = users_seq db)) as [|Hne]; [done|].
    rewrite lookup_insert_ne in Hrow by done. by destruct (Hfree id' u' Hrow).
Qed.

(** X24. [POST /api/auth/login] writes nothing, and every 401 it answers
    is the same envelope: an unknown e-mail address and a wrong password
    cannot be told apart. *)
Theorem login_failures_alike req db now :
  (AuthRoutes.login req db now).1 = db
  ∧ (status (AuthRoutes.login req db now).2 = 401 →
     (AuthRoutes.login req db now).2
     = errorResponse "Invalid credentials" "AUTHENTICATION_ERROR" 401).
Proof.
  unfold AuthRoutes.login. simpl route.
  unfold Validation.validate, AuthRoutes.login_handler.
  destruct (Joi.validate _ _); [done|].
  destruct (UserModel.findOne_email _ db) as [[id u]|]; [|done].
  by destruct (Bcrypt.compare _ _).
Qed.

(** X25. The token [generateToken] issues for a stored user, sent as
    [Bearer <token>] while [jwt.verify] accepts it with the claims that were
    signed, makes [GET /api/auth/me] answer 200 with the representation of
    that user which login and registration give. *)
Theorem issued_token_authenticates req db now now' id u :
  users db !! id = Some u →
  let token := AuthRoutes.generateToken id u now in
  Jwt.verify token Auth.secret now'
  = inr (Jwt.mkPayload (Some id) (Some (User.role_name (User.role u)))) →
  " "%char ∉ list_ascii_of_string token → token ≠ "" →
  authorization req = Some ("Bearer " ++ token) →
  ∃ d,
    AuthRoutes.me req db now' = (db, successResponse d "Success" 200)
    ∧ Spec.user_representations d
      = Spec.user_representations (AuthRoutes.user_and_token id u now).
Proof.
  intros Hrow token Hverify Hspace Hne Hheader.
  assert (Auth.bearer_token req = Some token) as Htok.
  { apply (bearer_token_of_header req "Bearer" token ""); [|  |done|by left].
    - assert (∀ s : string, s ++ "" = s) as Hnil.
      { intros s. induction s as [|c s IH]; [done|].
        change (String c s ++ "") with (String c (s ++ "")). by rewrite IH. }
      by rewrite Hnil.
    - intros Hin.
      by repeat (apply elem_of_cons in Hin as [Hin|Hin]; [discriminate|]);
        apply elem_of_nil in Hin. }
  unfold AuthRoutes.me. simpl route.
  rewrite (authenticateToken_token req db now' token Htok Hne), Hverify.
  simpl. rewrite Hrow. simpl. eexists. split; [reflexivity|]. reflexivity.
Qed.

End AccountFacts.

Lemma alice_is_new id u :
  users Fixtures.db !! id = Some u → User.email u ≠ "alice@example.com"%string.
Proof.
  intros Hrow Heq. unfold Fixtures.db in Hrow. simpl users in Hrow.
  apply lookup_insert_Some in Hrow as [[<- <-]|[Hne Hrow]];
    [vm_compute in Heq; discriminate|].
  apply lookup_singleton_Some in Hrow as [<- <-].
  vm_compute in Heq; discriminate.
Qed.


Lemma login_after_register_witness :
  let req := mkRequest None "" None None
               (JObj [("name", JStr "Alice"); ("email", JStr "alice@example.com");
                      ("password", JStr "secret1")]%string) None in
  let req' := mkRequest None "" None None
                (JObj [("email", JStr "alice@example.com");
                       ("password", JStr "secret1")]%string) None in
  ∃ u,
    User.name u = "Alice"%string
    ∧ AuthRoutes.login (H := Fixtures.jwt) (H0 := Fixtures.bcrypt)
        (H2 := Fixtures.joi) req'
        (AuthRoutes.register (H := Fixtures.jwt) (H0 := Fixtures.bcrypt)
           (H1 := Fixtures.validator) (H2 := Fixtures.joi) req Fixtures.db 5).1 6
      = ((AuthRoutes.register (H := Fixtures.jwt) (H0 := Fixtures.bcrypt)
            (H1 := Fixtures.validator) (H2 := Fixtures.joi) req Fixtures.db 5).1,
         successResponse
           (AuthRoutes.user_and_token (H := Fixtures.jwt) 3 u 6)
           "Login successful" 200).
Proof.
  intros req req'.
  pose proof alice_is_new as Hfree.
  destruct (login_after_register (H := Fixtures.jwt) (H0 := Fixtures.bcrypt)
              (H1 := Fixtures.validator) (H2 := Fixtures.joi)
              req req' Fixtures.db 5 6 "Alice" "alice@example.com" "secret1"
              eq_refl eq_refl ltac:(simpl; lia) ltac:(simpl; lia)
              ltac:(discriminate) eq_refl eq_refl Hfree eq_refl)
    as (u & _ & Hname & _ & _ & Hlogin).
  exists u. split; [exact Hname | exact Hlogin].
Defined.

Lemma login_failures_alike_witness :
  let req := mkRequest None "" None None
               (JObj [("email", JStr "nobody@example.com");
                      ("password", JStr "secret1")]%string) None in
  status (AuthRoutes.login (H := Fixtures.jwt) (H0 := Fixtures.bcrypt)
            (H2 := Fixtures.joi) req Fixtures.db 0).2
  = 401
  ∧ (AuthRoutes.login (H := Fixtures.jwt) (H0 := Fixtures.bcrypt)
       (H2 := Fixtures.joi) req Fixtures.db 0).2
    = errorResponse "Invalid credentials" "AUTHENTICATION_ERROR" 401.
Proof.
  intros req. split; [reflexivity|].
  apply (login_failures_alike (H := Fixtures.jwt) (H0 := Fixtures.bcrypt)
           (H2 := Fixtures.joi) req Fixtures.db 0).
  reflexivity.
Defined.

Lemma issued_token_authenticates_witness :
  let req := Fixtures.request
               (AuthRoutes.generateToken (H := Fixtures.jwt) 1 Fixtures.adminUser 0)
               "" JNull in
  ∃ d,
    AuthRoutes.me (H := Fixtures.jwt) req Fixtures.db 9
    = (Fixtures.db, successResponse d "Success" 200)
    ∧ Spec.user_representations d
      = [User.toJSON (User.get 1 Fixtures.adminUser)].
Proof.
  intros req.
  apply (issued_token_authenticates (H := Fixtures.jwt) req Fixtures.db 0 9 1
           Fixtures.adminUser eq_refl eq_refl).
  - intros Hin. vm_compute in Hin.
    by repeat (apply elem_of_cons in Hin as [Hin|Hin]; [discriminate|]);
      apply elem_of_nil in Hin.
  - discriminate.
  - reflexivity.
Defined.

(** ** The order of a page *)

Section UserListFacts.
Context `{Jwt.Lib, Validator.Lib, Engine.Lib}.
Local Open Scope string_scope.


End UserListFacts.


(** ** Bounds and agreement of the reported figures *)

Section FigureFacts.
Context `{Jwt.Lib, Engine.Lib}.

(** X28. The conversion rate of both dashboards and that of the pipeline
    overview lie between 0 and 100, however many leads there are. *)
Theorem conversion_rates_within_bounds db :
  (0 <= Reports.dashboard_conversionRate db <= 100)%Q
  ∧ (0 <= Leads.overview_conversionRate db <= 100)%Q.
Proof.
  split; [apply dashboard_rate_bounds, closed_le_leads|].
  unfold Leads.overview_conversionRate.
  rewrite overview_totalLeads_eq, overview_closed_eq.
  apply dashboard_rate_bounds, closed_le_leads.
Qed.

(** X29. The pipeline overview is consistent with itself and with the
    dashboards: the four stage counts add up to [totalLeads], which is the
    number of rows of the table, the count of a stage is the number of leads
    in that stage, and the conversion rate is the one the dashboards
    report. *)
Theorem overview_agrees_with_dashboard db :
  let stats := Leads.stageStats db in
  Leads.count_of stats Lead.lead + Leads.count_of stats Lead.qualified
  + Leads.count_of stats Lead.proposal + Leads.count_of stats Lead.closed
  = Leads.overview_totalLeads db
  ∧ Leads.overview_totalLeads db = Z.of_nat (size (leads db))
  ∧ (∀ st, Leads.count_of stats st
           = Z.of_nat (length (filter (λ l, Lead.stage l = st)
                                 (Reports.all_leads db))))
  ∧ Leads.overview_conversionRate db = Reports.dashboard_conversionRate db.
Proof.
  intros stats.
  assert (∀ st, Leads.count_of stats st
                = Z.of_nat (length (filter (λ l, Lead.stage l = st)
                                      (Reports.all_leads db)))) as Hcount.
  { intros st. unfold stats, Leads.stageStats.
    rewrite count_of_stat by (destruct st; repeat constructor). done. }
  assert (Leads.overview_totalLeads db = Z.of_nat (size (leads db))) as Htotal.
  { rewrite overview_totalLeads_eq. unfold Reports.count_leads, Reports.all_leads.
    by rewrite length_fmap, length_map_to_list. }
  split; [|split; [done|split; [done|]]].
  - rewrite !Hcount, overview_totalLeads_eq. unfold Reports.count_leads.
    pose proof (stage_partition (λ _, True) (Reports.all_leads db)) as Hp.
    rewrite filter_true in Hp. rewrite Hp. simpl. rewrite !filter_true. lia.
  - unfold Leads.overview_conversionRate, Reports.dashboard_conversionRate.
    subst stats. by rewrite overview_totalLeads_eq, overview_closed_eq.
Qed.


End FigureFacts.

